(** * sentry.search.django.backend

    A shallow embedding of the Django search backend of Sentry
    ([src/sentry/search/django/backend.py]) and the properties of its
    query compilation: the primary query compiler [_build_queryset], the
    environment candidate resolver [find_candidates], the tag
    intersection compiler [filter_candidates] and the [query] entry
    points of the two backends.

    Python values are modelled by small sum types, dictionaries by
    [gmap], sets by [gset], exceptions by an [outcome] type.  The Django
    ORM is modelled by a queryset record that accumulates the keyword
    lookups it was given, with an evaluator that resolves each lookup
    string against the columns of the model. *)

From Stdlib Require Import ZArith String Ascii List Bool Lia Sorted Btauto.
From stdpp Require Import base option gmap strings list fin_maps pretty.

Local Open Scope Z_scope.
Local Open Scope string_scope.
Local Open Scope list_scope.

(** ** Python run time *)

Inductive exn :=
  | KeyError
  | AttributeError
  | AssertionError
  | NotImplementedError
  | ProgrammingError
  | EmptyResultSet.

Inductive outcome (A : Type) :=
  | Return (a : A)
  | Raise (e : exn).
Arguments Return {A} a.
Arguments Raise {A} e.

Definition returned {A} (o : outcome A) : bool :=
  match o with Return _ => true | Raise _ => false end.

(** Python's [if x:] test. *)
Class Truthy (A : Type) := truthy : A -> bool.

(** [datetime.datetime] objects; every one of them is truthy. *)
Record datetime := { timestamp : Z }.

Record Project := { project_id : Z; organization_id : Z }.
Record User := { user_id : Z }.

(** Modelled from the spec: the [GroupStatus] constants of
    [sentry.models], which the spec lists as the enum "unresolved,
    resolved, ignored, pending-deletion, deletion-in-progress,
    pending-merge". *)
Inductive GroupStatus :=
  | UNRESOLVED
  | RESOLVED
  | IGNORED
  | PENDING_DELETION
  | DELETION_IN_PROGRESS
  | PENDING_MERGE.

(** The sentinels [ANY] and [EMPTY] of [sentry.search.base] are
    [object()] instances, compared with [is]. *)
Inductive tag_value := ANY | Specific (v : string).
Inductive release_arg := EMPTY | Version (v : string).

#[global] Instance status_eq_dec : EqDecision GroupStatus.
Proof. solve_decision. Defined.
#[global] Instance datetime_eq_dec : EqDecision datetime.
Proof. solve_decision. Defined.
#[global] Instance tag_value_eq_dec : EqDecision tag_value.
Proof. solve_decision. Defined.
#[global] Instance release_arg_eq_dec : EqDecision release_arg.
Proof. solve_decision. Defined.

#[global] Instance truthy_string : Truthy string :=
  fun s => negb (String.eqb s "").
#[global] Instance truthy_datetime : Truthy datetime := fun _ => true.
#[global] Instance truthy_user : Truthy User := fun _ => true.
#[global] Instance truthy_release : Truthy release_arg :=
  fun r => match r with EMPTY => true | Version v => truthy v end.
#[global] Instance truthy_list {A} : Truthy (list A) :=
  fun l => match l with [] => false | _ => true end.
#[global] Instance truthy_dict {A} : Truthy (gmap string A) :=
  fun m => negb (bool_decide (m = ∅)).
(** [None] is falsy; any other value is tested on its own. *)
#[global] Instance truthy_optional {A} `{Truthy A} : Truthy (option A) :=
  fun o => match o with None => false | Some a => truthy a end.

Definition is_not_None {A} (o : option A) : bool :=
  match o with None => false | Some _ => true end.

(** ** Strings *)

Definition nl : string := String (ascii_of_nat 10) "".
Definition dq : string := String (ascii_of_nat 34) "".

(** [sep.join(parts)] *)
Definition join (sep : string) (parts : list string) : string :=
  String.concat sep parts.

(** [s.startswith(p)] *)
Definition startswith (s p : string) : bool := String.prefix p s.

Definition lower_ascii (c : ascii) : ascii :=
  let n := nat_of_ascii c in
  if (Nat.leb 65 n && Nat.leb n 90)%bool then ascii_of_nat (n + 32) else c.

Fixpoint lower (s : string) : string :=
  match s with
  | EmptyString => EmptyString
  | String c rest => String (lower_ascii c) (lower rest)
  end.

Fixpoint contains (needle hay : string) : bool :=
  String.prefix needle hay ||
  match hay with
  | EmptyString => false
  | String _ rest => contains needle rest
  end.

(** Case-insensitive substring match, the [icontains] lookup. *)
Definition icontains (hay needle : string) : bool :=
  contains (lower needle) (lower hay).

(** [key.split('__')]: the ORM cuts a lookup at every double underscore. *)
Fixpoint split_lookup (s : string) : list string :=
  match s with
  | EmptyString => [EmptyString]
  | String c rest =>
      match rest with
      | String c' rest' =>
          if (Ascii.eqb c "_" && Ascii.eqb c' "_")%bool
          then EmptyString :: split_lookup rest'
          else match split_lookup rest with
               | [] => [String c EmptyString]
               | h :: t => String c h :: t
               end
      | EmptyString => [String c EmptyString]
      end
  end.

Example split_lookup_first_seen_gte :
  split_lookup "first_seen__gte" = ["first_seen"; "gte"].
Proof. reflexivity. Qed.

Example split_lookup_relation :
  split_lookup "bookmark_set__user" = ["bookmark_set"; "user"].
Proof. reflexivity. Qed.

(** ** The persisted entities *)

Record Release := { release_organization_id : Z; release_version : string }.

Record Group := {
  group_id : Z;
  group_project_id : Z;
  group_status : GroupStatus;
  group_first_seen : datetime;
  group_last_seen : datetime;
  group_active_at : datetime;
  group_times_seen : Z;
  group_message : string;
  group_culprit : string;
  group_first_release : option Release;
}.

Record Event := {
  event_group_id : Z;
  event_project_id : Z;
  event_datetime : datetime;
  event_message : string;
}.

Record GroupTagValue := {
  tv_project_id : Z;
  tv_group_id : Z;
  tv_key : string;
  tv_value : string;
  tv_times_seen : Z;
  tv_first_seen : datetime;
  tv_last_seen : datetime;
}.

(** Bookmark, assignee and subscription membership rows. *)
Record Membership := {
  m_project_id : Z;
  m_group_id : Z;
  m_user_id : Z;
  m_is_active : bool;
}.

Record Database := {
  Group_objects : list Group;
  Event_objects : list Event;
  GroupTagValue_objects : list GroupTagValue;
  GroupBookmark_objects : list Membership;
  GroupAssignee_objects : list Membership;
  GroupSubscription_objects : list Membership;
}.

(** ** Values handed to the ORM and to the database driver *)

Inductive scalar :=
  | SInt (n : Z)
  | SStr (s : string)
  | SBool (b : bool)
  | STime (t : datetime)
  | SStatus (s : GroupStatus)
  | SObject.

Inductive value :=
  | VScalar (s : scalar)
  | VList (l : list scalar).

#[global] Instance scalar_eq_dec : EqDecision scalar.
Proof. solve_decision. Defined.

Definition tag_scalar (v : tag_value) : scalar :=
  match v with ANY => SObject | Specific s => SStr s end.

(** ** Lookups *)

Inductive lookup_type :=
  | LExact | LIContains | LIn | LGt | LGte | LLt | LLte | LIsNull.

Fixpoint assoc {A} (k : string) (l : list (string * A)) : option A :=
  match l with
  | [] => None
  | (k', a) :: rest => if String.eqb k k' then Some a else assoc k rest
  end.

Definition lookup_types : list (string * lookup_type) :=
  [("exact", LExact); ("icontains", LIContains); ("in", LIn); ("gt", LGt);
   ("gte", LGte); ("lt", LLt); ("lte", LLte); ("isnull", LIsNull)].

(** The last component names the lookup type when it is one; a key
    that ends in a field name is an [exact] lookup. *)
Definition parse_lookup (key : string) : list string * lookup_type :=
  let parts := split_lookup key in
  match assoc (List.last parts "") lookup_types with
  | Some lt => (removelast parts, lt)
  | None => (parts, LExact)
  end.

Definition scalar_compare (a b : scalar) : option comparison :=
  match a, b with
  | SInt x, SInt y => Some (Z.compare x y)
  | STime x, STime y => Some (Z.compare (timestamp x) (timestamp y))
  | _, _ => None
  end.

Definition compare_is (c : comparison) (o : option comparison) : bool :=
  match o with Some c' => bool_decide (c = c') | None => false end.

Definition apply_lookup (lt : lookup_type) (column : scalar) (v : value) : bool :=
  match lt, v with
  | LExact, VScalar s => bool_decide (column = s)
  | LIContains, VScalar (SStr s) =>
      match column with SStr c => icontains c s | _ => false end
  | LIn, VList l => bool_decide (column ∈ l)
  | LGt, VScalar s => compare_is Gt (scalar_compare column s)
  | LGte, VScalar s =>
      compare_is Gt (scalar_compare column s) || compare_is Eq (scalar_compare column s)
  | LLt, VScalar s => compare_is Lt (scalar_compare column s)
  | LLte, VScalar s =>
      compare_is Lt (scalar_compare column s) || compare_is Eq (scalar_compare column s)
  | _, _ => false
  end.

(** ** Querysets *)

Inductive Model := MGroup | MEvent | MGroupSubscription | MGroupTagValue.

#[global] Instance Model_eq_dec : EqDecision Model.
Proof. solve_decision. Defined.

Section QuerySets.
(** [V] is what a keyword argument may carry. *)
Variable V : Type.

Inductive Q :=
  | Kw (kwargs : list (string * V))
  | QOr (a b : Q).

Inductive clause :=
  | Filter (q : Q)
  | Exclude (q : Q).

Record QuerySet := {
  qs_model : Model;
  qs_clauses : list clause;
  qs_empty : bool;
  qs_extra_select : list (string * string);
  qs_distinct : bool;
  qs_values : list string;
  qs_high_mark : option nat;
}.

Definition objects (m : Model) : QuerySet :=
  {| qs_model := m; qs_clauses := []; qs_empty := false;
     qs_extra_select := []; qs_distinct := false; qs_values := [];
     qs_high_mark := None |}.

Definition add_clause (qs : QuerySet) (c : clause) : QuerySet :=
  {| qs_model := qs_model qs; qs_clauses := qs_clauses qs ++ [c];
     qs_empty := qs_empty qs; qs_extra_select := qs_extra_select qs;
     qs_distinct := qs_distinct qs; qs_values := qs_values qs;
     qs_high_mark := qs_high_mark qs |}.

(** [queryset.filter] with keyword arguments *)
Definition filter_kw (qs : QuerySet) (kwargs : list (string * V)) : QuerySet :=
  add_clause qs (Filter (Kw kwargs)).

(** [queryset.filter(q)] for a [Q] object *)
Definition filter_q (qs : QuerySet) (q : Q) : QuerySet :=
  add_clause qs (Filter q).

(** [queryset.exclude] with keyword arguments *)
Definition exclude_kw (qs : QuerySet) (kwargs : list (string * V)) : QuerySet :=
  add_clause qs (Exclude (Kw kwargs)).

(** [queryset.none()] *)
Definition none (qs : QuerySet) : QuerySet :=
  {| qs_model := qs_model qs; qs_clauses := qs_clauses qs;
     qs_empty := true; qs_extra_select := qs_extra_select qs;
     qs_distinct := qs_distinct qs; qs_values := qs_values qs;
     qs_high_mark := qs_high_mark qs |}.

(** [queryset.extra(select={name: expression})] *)
Definition extra_select (qs : QuerySet) (name expression : string) : QuerySet :=
  {| qs_model := qs_model qs; qs_clauses := qs_clauses qs;
     qs_empty := qs_empty qs;
     qs_extra_select := qs_extra_select qs ++ [(name, expression)];
     qs_distinct := qs_distinct qs; qs_values := qs_values qs;
     qs_high_mark := qs_high_mark qs |}.

(** [queryset.distinct()] *)
Definition distinct (qs : QuerySet) : QuerySet :=
  {| qs_model := qs_model qs; qs_clauses := qs_clauses qs;
     qs_empty := qs_empty qs; qs_extra_select := qs_extra_select qs;
     qs_distinct := true; qs_values := qs_values qs;
     qs_high_mark := qs_high_mark qs |}.

(** [queryset.values] and [queryset.values_list] *)
Definition values (qs : QuerySet) (fields : list string) : QuerySet :=
  {| qs_model := qs_model qs; qs_clauses := qs_clauses qs;
     qs_empty := qs_empty qs; qs_extra_select := qs_extra_select qs;
     qs_distinct := qs_distinct qs; qs_values := fields;
     qs_high_mark := qs_high_mark qs |}.

(** [queryset[:n]] *)
Definition slice_to (qs : QuerySet) (n : nat) : QuerySet :=
  {| qs_model := qs_model qs; qs_clauses := qs_clauses qs;
     qs_empty := qs_empty qs; qs_extra_select := qs_extra_select qs;
     qs_distinct := qs_distinct qs; qs_values := qs_values qs;
     qs_high_mark := Some n |}.

(** Rows of type [R] are tested by an evaluator of keyword lookups. *)
Section Matching.
Context {R : Type}.
Variable eval_kwargs : R -> list (string * V) -> bool.

Fixpoint eval_Q (r : R) (q : Q) : bool :=
  match q with
  | Kw kwargs => eval_kwargs r kwargs
  | QOr a b => eval_Q r a || eval_Q r b
  end.

Definition eval_clause (r : R) (c : clause) : bool :=
  match c with
  | Filter q => eval_Q r q
  | Exclude q => negb (eval_Q r q)
  end.

Definition matches (qs : QuerySet) (r : R) : bool :=
  negb (qs_empty qs) && forallb (eval_clause r) (qs_clauses qs).
End Matching.
End QuerySets.

Arguments Kw {V} kwargs.
Arguments QOr {V} a b.
Arguments Filter {V} q.
Arguments Exclude {V} q.
Arguments qs_model {V} q.
Arguments qs_clauses {V} q.
Arguments qs_empty {V} q.
Arguments qs_extra_select {V} q.
Arguments qs_distinct {V} q.
Arguments qs_values {V} q.
Arguments qs_high_mark {V} q.
Arguments objects {V} m.
Arguments add_clause {V} qs c.
Arguments filter_kw {V} qs kwargs.
Arguments filter_q {V} qs q.
Arguments exclude_kw {V} qs kwargs.
Arguments none {V} qs.
Arguments extra_select {V} qs name expression.
Arguments distinct {V} qs.
Arguments values {V} qs fields.
Arguments slice_to {V} qs n.
Arguments eval_Q {V R} eval_kwargs r q.
Arguments eval_clause {V R} eval_kwargs r c.
Arguments matches {V R} eval_kwargs qs r.

(** A keyword argument of a [Group] queryset carries a value or a
    nested queryset ([id__in=<queryset>]). *)
Inductive arg :=
  | Plain (v : value)
  | Nested (q : QuerySet value).

(** ** Evaluating lookups on rows *)

(** A lookup on a plain column of a row. *)
Definition eval_lookup (column : string -> option scalar) (kw : string * value) : bool :=
  let '(path, lt) := parse_lookup kw.1 in
  match path with
  | [name] =>
      match column name with
      | Some c => apply_lookup lt c kw.2
      | None => false
      end
  | _ => false
  end.

Definition tagvalue_column (r : GroupTagValue) (name : string) : option scalar :=
  assoc name
    [("project_id", SInt (tv_project_id r)); ("group_id", SInt (tv_group_id r));
     ("key", SStr (tv_key r)); ("value", SStr (tv_value r));
     ("times_seen", SInt (tv_times_seen r));
     ("first_seen", STime (tv_first_seen r));
     ("last_seen", STime (tv_last_seen r))].

Definition tagvalue_kwargs (r : GroupTagValue) (kwargs : list (string * value)) : bool :=
  forallb (eval_lookup (tagvalue_column r)) kwargs.

Definition event_column (e : Event) (name : string) : option scalar :=
  assoc name
    [("group_id", SInt (event_group_id e)); ("project_id", SInt (event_project_id e));
     ("datetime", STime (event_datetime e)); ("message", SStr (event_message e))].

Definition event_kwargs (e : Event) (kwargs : list (string * value)) : bool :=
  forallb (eval_lookup (event_column e)) kwargs.

Definition membership_column (m : Membership) (name : string) : option scalar :=
  assoc name
    [("project", SInt (m_project_id m)); ("group", SInt (m_group_id m));
     ("user", SInt (m_user_id m)); ("is_active", SBool (m_is_active m))].

Definition membership_kwargs (m : Membership) (kwargs : list (string * value)) : bool :=
  forallb (eval_lookup (membership_column m)) kwargs.

(** ** The SQL the ORM compiles for a queryset

    The text of a compiled queryset is a function of the lookups and of
    the shape of their arguments only; the arguments themselves travel
    in the parameter list, one [%s] placeholder each. *)

Inductive shape := HScalar | HList (n : nat).

Definition shape_of (v : value) : shape :=
  match v with VScalar _ => HScalar | VList l => HList (length l) end.

Definition value_params (v : value) : list scalar :=
  match v with VScalar s => [s] | VList l => l end.

Fixpoint map_Q {V W} (f : V -> W) (q : Q V) : Q W :=
  match q with
  | Kw kwargs => Kw (map (fun kw => (kw.1, f kw.2)) kwargs)
  | QOr a b => QOr (map_Q f a) (map_Q f b)
  end.

Definition map_clause {V W} (f : V -> W) (c : clause V) : clause W :=
  match c with
  | Filter q => Filter (map_Q f q)
  | Exclude q => Exclude (map_Q f q)
  end.

Definition map_queryset {V W} (f : V -> W) (qs : QuerySet V) : QuerySet W :=
  {| qs_model := qs_model qs; qs_clauses := map (map_clause f) (qs_clauses qs);
     qs_empty := qs_empty qs; qs_extra_select := qs_extra_select qs;
     qs_distinct := qs_distinct qs; qs_values := qs_values qs;
     qs_high_mark := qs_high_mark qs |}.

Definition skeleton (qs : QuerySet value) : QuerySet shape := map_queryset shape_of qs.

Fixpoint Q_params (q : Q value) : list scalar :=
  match q with
  | Kw kwargs => flat_map (fun kw => value_params kw.2) kwargs
  | QOr a b => Q_params a ++ Q_params b
  end.

Definition clause_params (c : clause value) : list scalar :=
  match c with Filter q | Exclude q => Q_params q end.

Definition queryset_params (qs : QuerySet value) : list scalar :=
  flat_map clause_params (qs_clauses qs).

Definition quote_name (name : string) : string := dq +:+ name +:+ dq.

Definition operator (lt : lookup_type) : string :=
  match lt with
  | LExact => "="
  | LIContains => "ILIKE"
  | LIn => "IN"
  | LGt => ">"
  | LGte => ">="
  | LLt => "<"
  | LLte => "<="
  | LIsNull => "IS NULL"
  end.

Definition placeholders (h : shape) : string :=
  match h with
  | HScalar => "%s"
  | HList n => "(" +:+ join ", " (repeat "%s" n) +:+ ")"
  end.

Definition compile_lookup (table : string) (kw : string * shape) : string :=
  let '(path, lt) := parse_lookup kw.1 in
  quote_name table +:+ "." +:+ quote_name (join "__" path)
    +:+ " " +:+ operator lt +:+ " " +:+ placeholders kw.2.

Fixpoint compile_Q (table : string) (q : Q shape) : string :=
  match q with
  | Kw kwargs => "(" +:+ join " AND " (map (compile_lookup table) kwargs) +:+ ")"
  | QOr a b => "(" +:+ compile_Q table a +:+ " OR " +:+ compile_Q table b +:+ ")"
  end.

Definition compile_clause (table : string) (c : clause shape) : string :=
  match c with
  | Filter q => compile_Q table q
  | Exclude q => "NOT " +:+ compile_Q table q
  end.

Definition compile_select (table : string) (qs : QuerySet shape) : string :=
  "SELECT "
    +:+ join ", "
          (map (fun e => "(" +:+ e.2 +:+ ") AS " +:+ quote_name e.1)
               (List.filter (fun e => bool_decide (e.1 ∈ qs_values qs)) (qs_extra_select qs))
           ++ map (fun f => quote_name table +:+ "." +:+ quote_name f)
                  (List.filter (fun f => negb (bool_decide (f ∈ (qs_extra_select qs).*1)))
                               (qs_values qs)))
    +:+ " FROM " +:+ quote_name table
    +:+ match qs_clauses qs with
        | [] => ""
        | cs => " WHERE " +:+ join " AND " (map (compile_clause table) cs)
        end.

(** Binding: the driver substitutes the parameters for the
    placeholders, left to right. *)
Fixpoint bind_kwargs (kwargs : list (string * shape)) (ps : list scalar)
  : option (list (string * value) * list scalar) :=
  match kwargs with
  | [] => Some ([], ps)
  | (k, h) :: rest =>
      match h, ps with
      | HScalar, p :: ps' =>
          '(bound, ps'') ← bind_kwargs rest ps';
          Some ((k, VScalar p) :: bound, ps'')
      | HScalar, [] => None
      | HList n, _ =>
          if bool_decide (n ≤ length ps)%nat then
            '(bound, ps'') ← bind_kwargs rest (drop n ps);
            Some ((k, VList (take n ps)) :: bound, ps'')
          else None
      end
  end.

Fixpoint bind_Q (q : Q shape) (ps : list scalar) : option (Q value * list scalar) :=
  match q with
  | Kw kwargs => '(bound, ps') ← bind_kwargs kwargs ps; Some (Kw bound, ps')
  | QOr a b =>
      '(a', ps') ← bind_Q a ps;
      '(b', ps'') ← bind_Q b ps';
      Some (QOr a' b', ps'')
  end.

Definition bind_clause (c : clause shape) (ps : list scalar)
  : option (clause value * list scalar) :=
  match c with
  | Filter q => '(q', ps') ← bind_Q q ps; Some (Filter q', ps')
  | Exclude q => '(q', ps') ← bind_Q q ps; Some (Exclude q', ps')
  end.

Fixpoint bind_clauses (cs : list (clause shape)) (ps : list scalar)
  : option (list (clause value) * list scalar) :=
  match cs with
  | [] => Some ([], ps)
  | c :: rest =>
      '(c', ps') ← bind_clause c ps;
      '(rest', ps'') ← bind_clauses rest ps';
      Some (c' :: rest', ps'')
  end.

Definition bind_queryset (qs : QuerySet shape) (ps : list scalar)
  : option (QuerySet value * list scalar) :=
  '(cs, ps') ← bind_clauses (qs_clauses qs) ps;
  Some ({| qs_model := qs_model qs; qs_clauses := cs; qs_empty := qs_empty qs;
           qs_extra_select := qs_extra_select qs; qs_distinct := qs_distinct qs;
           qs_values := qs_values qs; qs_high_mark := qs_high_mark qs |}, ps').

(** ** Configuration and collaborators

    What the backend reads from the deployment: the database engine of
    the [default] connection, the router, the table names, the sort
    clause tables of [sentry.search.django.constants] and the tag store. *)

Record Settings := {
  (** [get_db_engine('default')] *)
  engine : string;
  (** [sentry.utils.db.is_postgres()] *)
  is_postgres : bool;
  (** [router.db_for_read(model)] *)
  db_for_read : Model -> string;
  (** [model._meta.db_table] *)
  db_table : Model -> string;
  SORT_CLAUSES : list (string * string);
  SQLITE_SORT_CLAUSES : list (string * string);
  MYSQL_SORT_CLAUSES : list (string * string);
  ORACLE_SORT_CLAUSES : list (string * string);
  MSSQL_SORT_CLAUSES : list (string * string);
  MSSQL_ENGINES : list string;
  (** [tagstore.get_group_ids_for_search_filter(project_id, environment_id, tags)] *)
  get_group_ids_for_search_filter :
    Z -> option Z -> gmap string tag_value -> list Z;
}.

(** A condition the compiler knows no row to pass: an [__in] lookup
    with an empty list. *)
Definition empty_in (kw : string * value) : bool :=
  match kw.2 with
  | VList [] =>
      match (parse_lookup kw.1).2 with
      | LIn => true
      | _ => false
      end
  | _ => false
  end.

(** The keyword lookups of a [Q] are joined by [AND]: one empty
    condition empties them all; an [OR] is empty when both sides are. *)
Fixpoint Q_matches_nothing (q : Q value) : bool :=
  match q with
  | Kw kwargs => existsb empty_in kwargs
  | QOr a b => Q_matches_nothing a && Q_matches_nothing b
  end.

Definition clause_matches_nothing (c : clause value) : bool :=
  match c with
  | Filter q => Q_matches_nothing q
  | Exclude _ => false
  end.

Definition matches_nothing (qs : QuerySet value) : bool :=
  qs_empty qs || existsb clause_matches_nothing (qs_clauses qs).

(** [queryset...get_compiler(connection).as_nested_sql()].  The
    compiler raises [EmptyResultSet], and compiles no text, for a
    queryset whose conditions it knows to be empty. *)
Definition as_nested_sql (cfg : Settings) (qs : QuerySet value)
  : outcome (string * list scalar) :=
  if matches_nothing qs then Raise EmptyResultSet
  else Return (compile_select (db_table cfg (qs_model qs)) (skeleton qs),
               queryset_params qs).

(** ** The statement of the tag intersection

    Each fragment the compiler formats is a node with the holes of its
    format string as fields; [format_*] is the format string. *)

Record join_condition := { join_alias : string; join_previous_alias : string }.
Record lateral_query := { lateral_alias : string }.
Record where_condition := { where_alias : string }.

Record statement := {
  stmt_candidates : QuerySet shape;
  stmt_joins : list join_condition;
  stmt_laterals : list lateral_query;
  stmt_where : list where_condition;
}.

Definition format_lateral (table : string) (l : lateral_query) : string :=
  "LATERAL (SELECT * FROM " +:+ table
    +:+ " WHERE group_id = candidates.group_id AND key = %s LIMIT 1) as "
    +:+ lateral_alias l.

Definition format_join (table : string) (j : join_condition) : string :=
  "INNER JOIN " +:+ table +:+ " " +:+ join_alias j +:+ " ON "
    +:+ join_previous_alias j +:+ ".group_id = " +:+ join_alias j +:+ ".group_id".

Definition format_where (w : where_condition) : string :=
  "(" +:+ where_alias w +:+ ".key = %s AND " +:+ where_alias w +:+ ".value = %s)".

(** The dedented template of the statement. *)
Definition format_query (candidate_query from_items where_clause sort_order : string)
  : string :=
  "WITH candidates AS (" +:+ candidate_query +:+ ")" +:+ nl
    +:+ "SELECT candidates.group_id" +:+ nl
    +:+ "FROM " +:+ from_items +:+ nl
    +:+ where_clause +:+ nl
    +:+ "ORDER BY candidates.sort_key " +:+ sort_order +:+ ";" +:+ nl.

Definition format_statement (cfg : Settings) (s : statement) : string :=
  let table := db_table cfg MGroupTagValue in
  format_query
    (compile_select (db_table cfg (qs_model (stmt_candidates s))) (stmt_candidates s))
    (join ("," +:+ nl +:+ "  ")
       ([join (nl +:+ "  ") ("candidates" :: map (format_join table) (stmt_joins s))]
        ++ map (format_lateral table) (stmt_laterals s)))
    (match stmt_where s with
     | [] => ""
     | ws => "WHERE " +:+ join (nl +:+ "  AND ") (map format_where ws)
     end)
    "DESC".

Definition declared_aliases (s : statement) : list string :=
  "candidates" :: map join_alias (stmt_joins s) ++ map lateral_alias (stmt_laterals s).

(** ** Executing the statement *)

Fixpoint pairs {A} (l : list A) : list (A * A) :=
  match l with
  | a :: b :: rest => (a, b) :: pairs rest
  | _ => []
  end.

Section Execution.
(** The type of the values a sort expression evaluates to, their
    order, and the evaluation of an expression on a tag row. *)
Variable sort_value : Type.
Variable sort_value_leb : sort_value -> sort_value -> bool.
Variable eval_sort_expression : string -> GroupTagValue -> sort_value.

Record candidate_row := { c_group_id : Z; c_sort_key : sort_value }.

Definition bindings := list (string * GroupTagValue).

Definition bound_group_id (c : candidate_row) (e : bindings) (alias : string) : Z :=
  if String.eqb alias "candidates" then c_group_id c
  else match assoc alias e with Some t => tv_group_id t | None => 0 end.

(** Name resolution: no alias is declared twice, every join refers to
    a table declared before it, every condition to a joined table. *)
Fixpoint joins_resolved (known : list string) (joins : list join_condition) : bool :=
  match joins with
  | [] => true
  | j :: rest =>
      bool_decide (join_previous_alias j ∈ known)
      && joins_resolved (join_alias j :: known) rest
  end.

Definition analyse (s : statement) : bool :=
  bool_decide (NoDup (declared_aliases s))
  && joins_resolved ["candidates"] (stmt_joins s)
  && forallb (fun w => bool_decide
                (where_alias w ∈ map join_alias (stmt_joins s)
                                 ++ map lateral_alias (stmt_laterals s)))
             (stmt_where s)
  && bool_decide (qs_values (stmt_candidates s) = ["group_id"; "sort_key"])
  && bool_decide (qs_model (stmt_candidates s) = MGroupTagValue).

Definition adaptable (p : scalar) : bool :=
  match p with SObject => false | _ => true end.

(** [INNER JOIN t alias ON previous.group_id = alias.group_id] *)
Fixpoint eval_joins (table : list GroupTagValue) (c : candidate_row)
    (joins : list join_condition) (envs : list bindings) : list bindings :=
  match joins with
  | [] => envs
  | j :: rest =>
      eval_joins table c rest
        (flat_map (fun e =>
           map (fun t => (join_alias j, t) :: e)
             (List.filter
                (fun t => Z.eqb (bound_group_id c e (join_previous_alias j)) (tv_group_id t))
                table))
           envs)
  end.

(** [LATERAL (SELECT * FROM t WHERE group_id = candidates.group_id
    AND key = %s LIMIT 1) as alias] *)
Fixpoint eval_laterals (table : list GroupTagValue) (c : candidate_row)
    (laterals : list (lateral_query * scalar)) (envs : list bindings) : list bindings :=
  match laterals with
  | [] => envs
  | (l, key) :: rest =>
      eval_laterals table c rest
        (flat_map (fun e =>
           map (fun t => (lateral_alias l, t) :: e)
             (take 1 (List.filter
                (fun t => Z.eqb (tv_group_id t) (c_group_id c)
                          && bool_decide (SStr (tv_key t) = key))
                table)))
           envs)
  end.

(** [(alias.key = %s AND alias.value = %s)] *)
Definition eval_where (conds : list (where_condition * (scalar * scalar)))
    (e : bindings) : bool :=
  forallb (fun wc =>
    match assoc (where_alias wc.1) e with
    | Some t => bool_decide (SStr (tv_key t) = wc.2.1)
                && bool_decide (SStr (tv_value t) = wc.2.2)
    | None => false
    end) conds.

(** [ORDER BY candidates.sort_key DESC] *)
Fixpoint insert_desc (r : candidate_row) (l : list candidate_row) : list candidate_row :=
  match l with
  | [] => [r]
  | x :: rest =>
      if sort_value_leb (c_sort_key x) (c_sort_key r) then r :: l
      else x :: insert_desc r rest
  end.

Definition order_by_sort_key_desc (l : list candidate_row) : list candidate_row :=
  foldr insert_desc [] l.

(** The rows of the [candidates] common table expression. *)
Definition candidate_rows (table : list GroupTagValue) (qs : QuerySet value)
    (expression : string) : list candidate_row :=
  map (fun t => {| c_group_id := tv_group_id t;
                   c_sort_key := eval_sort_expression expression t |})
      (List.filter (matches tagvalue_kwargs qs) table).

(** The rows the statement selects, before the projection on
    [candidates.group_id]. *)
Definition selected_rows (table : list GroupTagValue) (s : statement)
    (qs : QuerySet value) (expression : string) (ps : list scalar)
  : list candidate_row :=
  let lateral_ps := take (length (stmt_laterals s)) ps in
  let where_ps := drop (length (stmt_laterals s)) ps in
  order_by_sort_key_desc
    (flat_map (fun c =>
       map (fun _ => c)
         (List.filter (eval_where (combine (stmt_where s) (pairs where_ps)))
            (eval_laterals table c (combine (stmt_laterals s) lateral_ps)
               (eval_joins table c (stmt_joins s) [[]]))))
       (candidate_rows table qs expression)).

(** [cursor.execute(query, parameters)] followed by the iteration
    over the cursor. *)
Definition cursor_execute (db : Database) (s : statement) (parameters : list scalar)
  : outcome (list Z) :=
  if negb (analyse s) then Raise ProgrammingError
  else if negb (forallb adaptable parameters) then Raise ProgrammingError
  else
    match bind_queryset (stmt_candidates s) parameters,
          assoc "sort_key" (qs_extra_select (stmt_candidates s)) with
    | Some (qs, ps), Some expression =>
        if bool_decide (length ps = length (stmt_laterals s) + 2 * length (stmt_where s))%nat
        then Return (map c_group_id
                       (selected_rows (GroupTagValue_objects db) s qs expression ps))
        else Raise ProgrammingError
    | _, _ => Raise ProgrammingError
    end.
End Execution.

Arguments c_group_id {sort_value} c.
Arguments c_sort_key {sort_value} c.

(** ** Keyword arguments of the search entry points *)

Record Kwargs := {
  query : option string;
  status : option GroupStatus;
  tags : option (gmap string tag_value);
  bookmarked_by : option User;
  assigned_to : option User;
  first_release : option release_arg;
  sort_by : string;
  unassigned : option bool;
  subscribed_by : option User;
  age_from : option datetime;
  age_from_inclusive : bool;
  age_to : option datetime;
  age_to_inclusive : bool;
  last_seen_from : option datetime;
  last_seen_from_inclusive : bool;
  last_seen_to : option datetime;
  last_seen_to_inclusive : bool;
  date_from : option datetime;
  date_from_inclusive : bool;
  date_to : option datetime;
  date_to_inclusive : bool;
  active_at_from : option datetime;
  active_at_from_inclusive : bool;
  active_at_to : option datetime;
  active_at_to_inclusive : bool;
  times_seen : option Z;
  times_seen_lower : option Z;
  times_seen_lower_inclusive : bool;
  times_seen_upper : option Z;
  times_seen_upper_inclusive : bool;
  environment_id : option Z;
  candidates : option (gset Z);
}.

(** The defaults of the signatures. *)
Definition defaults : Kwargs :=
  {| query := None; status := None; tags := None; bookmarked_by := None;
     assigned_to := None; first_release := None; sort_by := "date";
     unassigned := None; subscribed_by := None;
     age_from := None; age_from_inclusive := true;
     age_to := None; age_to_inclusive := true;
     last_seen_from := None; last_seen_from_inclusive := true;
     last_seen_to := None; last_seen_to_inclusive := true;
     date_from := None; date_from_inclusive := true;
     date_to := None; date_to_inclusive := true;
     active_at_from := None; active_at_from_inclusive := true;
     active_at_to := None; active_at_to_inclusive := true;
     times_seen := None;
     times_seen_lower := None; times_seen_lower_inclusive := true;
     times_seen_upper := None; times_seen_upper_inclusive := true;
     environment_id := None; candidates := None |}.

(** Calls that differ from another in one keyword argument. *)

Definition with_query (query_ : option string) (kw : Kwargs) : Kwargs :=
  {| query := query_; status := status kw; tags := tags kw;
     bookmarked_by := bookmarked_by kw; assigned_to := assigned_to kw;
     first_release := first_release kw; sort_by := sort_by kw;
     unassigned := unassigned kw; subscribed_by := subscribed_by kw;
     age_from := age_from kw; age_from_inclusive := age_from_inclusive kw;
     age_to := age_to kw; age_to_inclusive := age_to_inclusive kw;
     last_seen_from := last_seen_from kw;
     last_seen_from_inclusive := last_seen_from_inclusive kw;
     last_seen_to := last_seen_to kw;
     last_seen_to_inclusive := last_seen_to_inclusive kw;
     date_from := date_from kw;
     date_from_inclusive := date_from_inclusive kw; date_to := date_to kw;
     date_to_inclusive := date_to_inclusive kw;
     active_at_from := active_at_from kw;
     active_at_from_inclusive := active_at_from_inclusive kw;
     active_at_to := active_at_to kw;
     active_at_to_inclusive := active_at_to_inclusive kw;
     times_seen := times_seen kw; times_seen_lower := times_seen_lower kw;
     times_seen_lower_inclusive := times_seen_lower_inclusive kw;
     times_seen_upper := times_seen_upper kw;
     times_seen_upper_inclusive := times_seen_upper_inclusive kw;
     environment_id := environment_id kw; candidates := candidates kw |}.

Definition with_status (status_ : option GroupStatus) (kw : Kwargs) : Kwargs :=
  {| query := query kw; status := status_; tags := tags kw;
     bookmarked_by := bookmarked_by kw; assigned_to := assigned_to kw;
     first_release := first_release kw; sort_by := sort_by kw;
     unassigned := unassigned kw; subscribed_by := subscribed_by kw;
     age_from := age_from kw; age_from_inclusive := age_from_inclusive kw;
     age_to := age_to kw; age_to_inclusive := age_to_inclusive kw;
     last_seen_from := last_seen_from kw;
     last_seen_from_inclusive := last_seen_from_inclusive kw;
     last_seen_to := last_seen_to kw;
     last_seen_to_inclusive := last_seen_to_inclusive kw;
     date_from := date_from kw;
     date_from_inclusive := date_from_inclusive kw; date_to := date_to kw;
     date_to_inclusive := date_to_inclusive kw;
     active_at_from := active_at_from kw;
     active_at_from_inclusive := active_at_from_inclusive kw;
     active_at_to := active_at_to kw;
     active_at_to_inclusive := active_at_to_inclusive kw;
     times_seen := times_seen kw; times_seen_lower := times_seen_lower kw;
     times_seen_lower_inclusive := times_seen_lower_inclusive kw;
     times_seen_upper := times_seen_upper kw;
     times_seen_upper_inclusive := times_seen_upper_inclusive kw;
     environment_id := environment_id kw; candidates := candidates kw |}.

Definition with_tags (tags_ : option (gmap string tag_value)) (kw : Kwargs) : Kwargs :=
  {| query := query kw; status := status kw; tags := tags_;
     bookmarked_by := bookmarked_by kw; assigned_to := assigned_to kw;
     first_release := first_release kw; sort_by := sort_by kw;
     unassigned := unassigned kw; subscribed_by := subscribed_by kw;
     age_from := age_from kw; age_from_inclusive := age_from_inclusive kw;
     age_to := age_to kw; age_to_inclusive := age_to_inclusive kw;
     last_seen_from := last_seen_from kw;
     last_seen_from_inclusive := last_seen_from_inclusive kw;
     last_seen_to := last_seen_to kw;
     last_seen_to_inclusive := last_seen_to_inclusive kw;
     date_from := date_from kw;
     date_from_inclusive := date_from_inclusive kw; date_to := date_to kw;
     date_to_inclusive := date_to_inclusive kw;
     active_at_from := active_at_from kw;
     active_at_from_inclusive := active_at_from_inclusive kw;
     active_at_to := active_at_to kw;
     active_at_to_inclusive := active_at_to_inclusive kw;
     times_seen := times_seen kw; times_seen_lower := times_seen_lower kw;
     times_seen_lower_inclusive := times_seen_lower_inclusive kw;
     times_seen_upper := times_seen_upper kw;
     times_seen_upper_inclusive := times_seen_upper_inclusive kw;
     environment_id := environment_id kw; candidates := candidates kw |}.

Definition with_assigned_to (assigned_to_ : option User) (kw : Kwargs) : Kwargs :=
  {| query := query kw; status := status kw; tags := tags kw;
     bookmarked_by := bookmarked_by kw; assigned_to := assigned_to_;
     first_release := first_release kw; sort_by := sort_by kw;
     unassigned := unassigned kw; subscribed_by := subscribed_by kw;
     age_from := age_from kw; age_from_inclusive := age_from_inclusive kw;
     age_to := age_to kw; age_to_inclusive := age_to_inclusive kw;
     last_seen_from := last_seen_from kw;
     last_seen_from_inclusive := last_seen_from_inclusive kw;
     last_seen_to := last_seen_to kw;
     last_seen_to_inclusive := last_seen_to_inclusive kw;
     date_from := date_from kw;
     date_from_inclusive := date_from_inclusive kw; date_to := date_to kw;
     date_to_inclusive := date_to_inclusive kw;
     active_at_from := active_at_from kw;
     active_at_from_inclusive := active_at_from_inclusive kw;
     active_at_to := active_at_to kw;
     active_at_to_inclusive := active_at_to_inclusive kw;
     times_seen := times_seen kw; times_seen_lower := times_seen_lower kw;
     times_seen_lower_inclusive := times_seen_lower_inclusive kw;
     times_seen_upper := times_seen_upper kw;
     times_seen_upper_inclusive := times_seen_upper_inclusive kw;
     environment_id := environment_id kw; candidates := candidates kw |}.

Definition with_unassigned (unassigned_ : option bool) (kw : Kwargs) : Kwargs :=
  {| query := query kw; status := status kw; tags := tags kw;
     bookmarked_by := bookmarked_by kw; assigned_to := assigned_to kw;
     first_release := first_release kw; sort_by := sort_by kw;
     unassigned := unassigned_; subscribed_by := subscribed_by kw;
     age_from := age_from kw; age_from_inclusive := age_from_inclusive kw;
     age_to := age_to kw; age_to_inclusive := age_to_inclusive kw;
     last_seen_from := last_seen_from kw;
     last_seen_from_inclusive := last_seen_from_inclusive kw;
     last_seen_to := last_seen_to kw;
     last_seen_to_inclusive := last_seen_to_inclusive kw;
     date_from := date_from kw;
     date_from_inclusive := date_from_inclusive kw; date_to := date_to kw;
     date_to_inclusive := date_to_inclusive kw;
     active_at_from := active_at_from kw;
     active_at_from_inclusive := active_at_from_inclusive kw;
     active_at_to := active_at_to kw;
     active_at_to_inclusive := active_at_to_inclusive kw;
     times_seen := times_seen kw; times_seen_lower := times_seen_lower kw;
     times_seen_lower_inclusive := times_seen_lower_inclusive kw;
     times_seen_upper := times_seen_upper kw;
     times_seen_upper_inclusive := times_seen_upper_inclusive kw;
     environment_id := environment_id kw; candidates := candidates kw |}.

Definition with_first_release (first_release_ : option release_arg) (kw : Kwargs) : Kwargs :=
  {| query := query kw; status := status kw; tags := tags kw;
     bookmarked_by := bookmarked_by kw; assigned_to := assigned_to kw;
     first_release := first_release_; sort_by := sort_by kw;
     unassigned := unassigned kw; subscribed_by := subscribed_by kw;
     age_from := age_from kw; age_from_inclusive := age_from_inclusive kw;
     age_to := age_to kw; age_to_inclusive := age_to_inclusive kw;
     last_seen_from := last_seen_from kw;
     last_seen_from_inclusive := last_seen_from_inclusive kw;
     last_seen_to := last_seen_to kw;
     last_seen_to_inclusive := last_seen_to_inclusive kw;
     date_from := date_from kw;
     date_from_inclusive := date_from_inclusive kw; date_to := date_to kw;
     date_to_inclusive := date_to_inclusive kw;
     active_at_from := active_at_from kw;
     active_at_from_inclusive := active_at_from_inclusive kw;
     active_at_to := active_at_to kw;
     active_at_to_inclusive := active_at_to_inclusive kw;
     times_seen := times_seen kw; times_seen_lower := times_seen_lower kw;
     times_seen_lower_inclusive := times_seen_lower_inclusive kw;
     times_seen_upper := times_seen_upper kw;
     times_seen_upper_inclusive := times_seen_upper_inclusive kw;
     environment_id := environment_id kw; candidates := candidates kw |}.

Definition with_sort_by (sort_by_ : string) (kw : Kwargs) : Kwargs :=
  {| query := query kw; status := status kw; tags := tags kw;
     bookmarked_by := bookmarked_by kw; assigned_to := assigned_to kw;
     first_release := first_release kw; sort_by := sort_by_;
     unassigned := unassigned kw; subscribed_by := subscribed_by kw;
     age_from := age_from kw; age_from_inclusive := age_from_inclusive kw;
     age_to := age_to kw; age_to_inclusive := age_to_inclusive kw;
     last_seen_from := last_seen_from kw;
     last_seen_from_inclusive := last_seen_from_inclusive kw;
     last_seen_to := last_seen_to kw;
     last_seen_to_inclusive := last_seen_to_inclusive kw;
     date_from := date_from kw;
     date_from_inclusive := date_from_inclusive kw; date_to := date_to kw;
     date_to_inclusive := date_to_inclusive kw;
     active_at_from := active_at_from kw;
     active_at_from_inclusive := active_at_from_inclusive kw;
     active_at_to := active_at_to kw;
     active_at_to_inclusive := active_at_to_inclusive kw;
     times_seen := times_seen kw; times_seen_lower := times_seen_lower kw;
     times_seen_lower_inclusive := times_seen_lower_inclusive kw;
     times_seen_upper := times_seen_upper kw;
     times_seen_upper_inclusive := times_seen_upper_inclusive kw;
     environment_id := environment_id kw; candidates := candidates kw |}.

Definition with_times_seen (times_seen_ : option Z) (kw : Kwargs) : Kwargs :=
  {| query := query kw; status := status kw; tags := tags kw;
     bookmarked_by := bookmarked_by kw; assigned_to := assigned_to kw;
     first_release := first_release kw; sort_by := sort_by kw;
     unassigned := unassigned kw; subscribed_by := subscribed_by kw;
     age_from := age_from kw; age_from_inclusive := age_from_inclusive kw;
     age_to := age_to kw; age_to_inclusive := age_to_inclusive kw;
     last_seen_from := last_seen_from kw;
     last_seen_from_inclusive := last_seen_from_inclusive kw;
     last_seen_to := last_seen_to kw;
     last_seen_to_inclusive := last_seen_to_inclusive kw;
     date_from := date_from kw;
     date_from_inclusive := date_from_inclusive kw; date_to := date_to kw;
     date_to_inclusive := date_to_inclusive kw;
     active_at_from := active_at_from kw;
     active_at_from_inclusive := active_at_from_inclusive kw;
     active_at_to := active_at_to kw;
     active_at_to_inclusive := active_at_to_inclusive kw;
     times_seen := times_seen_; times_seen_lower := times_seen_lower kw;
     times_seen_lower_inclusive := times_seen_lower_inclusive kw;
     times_seen_upper := times_seen_upper kw;
     times_seen_upper_inclusive := times_seen_upper_inclusive kw;
     environment_id := environment_id kw; candidates := candidates kw |}.

Definition with_candidates (candidates_ : option (gset Z)) (kw : Kwargs) : Kwargs :=
  {| query := query kw; status := status kw; tags := tags kw;
     bookmarked_by := bookmarked_by kw; assigned_to := assigned_to kw;
     first_release := first_release kw; sort_by := sort_by kw;
     unassigned := unassigned kw; subscribed_by := subscribed_by kw;
     age_from := age_from kw; age_from_inclusive := age_from_inclusive kw;
     age_to := age_to kw; age_to_inclusive := age_to_inclusive kw;
     last_seen_from := last_seen_from kw;
     last_seen_from_inclusive := last_seen_from_inclusive kw;
     last_seen_to := last_seen_to kw;
     last_seen_to_inclusive := last_seen_to_inclusive kw;
     date_from := date_from kw;
     date_from_inclusive := date_from_inclusive kw; date_to := date_to kw;
     date_to_inclusive := date_to_inclusive kw;
     active_at_from := active_at_from kw;
     active_at_from_inclusive := active_at_from_inclusive kw;
     active_at_to := active_at_to kw;
     active_at_to_inclusive := active_at_to_inclusive kw;
     times_seen := times_seen kw; times_seen_lower := times_seen_lower kw;
     times_seen_lower_inclusive := times_seen_lower_inclusive kw;
     times_seen_upper := times_seen_upper kw;
     times_seen_upper_inclusive := times_seen_upper_inclusive kw;
     environment_id := environment_id kw; candidates := candidates_ |}.

Definition with_age_from (age_from_ : option datetime) (age_from_inclusive_ : bool) (kw : Kwargs) : Kwargs :=
  {| query := query kw; status := status kw; tags := tags kw;
     bookmarked_by := bookmarked_by kw; assigned_to := assigned_to kw;
     first_release := first_release kw; sort_by := sort_by kw;
     unassigned := unassigned kw; subscribed_by := subscribed_by kw;
     age_from := age_from_; age_from_inclusive := age_from_inclusive_;
     age_to := age_to kw; age_to_inclusive := age_to_inclusive kw;
     last_seen_from := last_seen_from kw;
     last_seen_from_inclusive := last_seen_from_inclusive kw;
     last_seen_to := last_seen_to kw;
     last_seen_to_inclusive := last_seen_to_inclusive kw;
     date_from := date_from kw;
     date_from_inclusive := date_from_inclusive kw; date_to := date_to kw;
     date_to_inclusive := date_to_inclusive kw;
     active_at_from := active_at_from kw;
     active_at_from_inclusive := active_at_from_inclusive kw;
     active_at_to := active_at_to kw;
     active_at_to_inclusive := active_at_to_inclusive kw;
     times_seen := times_seen kw; times_seen_lower := times_seen_lower kw;
     times_seen_lower_inclusive := times_seen_lower_inclusive kw;
     times_seen_upper := times_seen_upper kw;
     times_seen_upper_inclusive := times_seen_upper_inclusive kw;
     environment_id := environment_id kw; candidates := candidates kw |}.

Definition with_age_to (age_to_ : option datetime) (age_to_inclusive_ : bool) (kw : Kwargs) : Kwargs :=
  {| query := query kw; status := status kw; tags := tags kw;
     bookmarked_by := bookmarked_by kw; assigned_to := assigned_to kw;
     first_release := first_release kw; sort_by := sort_by kw;
     unassigned := unassigned kw; subscribed_by := subscribed_by kw;
     age_from := age_from kw; age_from_inclusive := age_from_inclusive kw;
     age_to := age_to_; age_to_inclusive := age_to_inclusive_;
     last_seen_from := last_seen_from kw;
     last_seen_from_inclusive := last_seen_from_inclusive kw;
     last_seen_to := last_seen_to kw;
     last_seen_to_inclusive := last_seen_to_inclusive kw;
     date_from := date_from kw;
     date_from_inclusive := date_from_inclusive kw; date_to := date_to kw;
     date_to_inclusive := date_to_inclusive kw;
     active_at_from := active_at_from kw;
     active_at_from_inclusive := active_at_from_inclusive kw;
     active_at_to := active_at_to kw;
     active_at_to_inclusive := active_at_to_inclusive kw;
     times_seen := times_seen kw; times_seen_lower := times_seen_lower kw;
     times_seen_lower_inclusive := times_seen_lower_inclusive kw;
     times_seen_upper := times_seen_upper kw;
     times_seen_upper_inclusive := times_seen_upper_inclusive kw;
     environment_id := environment_id kw; candidates := candidates kw |}.

Definition with_last_seen_from (last_seen_from_ : option datetime) (last_seen_from_inclusive_ : bool) (kw : Kwargs) : Kwargs :=
  {| query := query kw; status := status kw; tags := tags kw;
     bookmarked_by := bookmarked_by kw; assigned_to := assigned_to kw;
     first_release := first_release kw; sort_by := sort_by kw;
     unassigned := unassigned kw; subscribed_by := subscribed_by kw;
     age_from := age_from kw; age_from_inclusive := age_from_inclusive kw;
     age_to := age_to kw; age_to_inclusive := age_to_inclusive kw;
     last_seen_from := last_seen_from_;
     last_seen_from_inclusive := last_seen_from_inclusive_;
     last_seen_to := last_seen_to kw;
     last_seen_to_inclusive := last_seen_to_inclusive kw;
     date_from := date_from kw;
     date_from_inclusive := date_from_inclusive kw; date_to := date_to kw;
     date_to_inclusive := date_to_inclusive kw;
     active_at_from := active_at_from kw;
     active_at_from_inclusive := active_at_from_inclusive kw;
     active_at_to := active_at_to kw;
     active_at_to_inclusive := active_at_to_inclusive kw;
     times_seen := times_seen kw; times_seen_lower := times_seen_lower kw;
     times_seen_lower_inclusive := times_seen_lower_inclusive kw;
     times_seen_upper := times_seen_upper kw;
     times_seen_upper_inclusive := times_seen_upper_inclusive kw;
     environment_id := environment_id kw; candidates := candidates kw |}.

Definition with_last_seen_to (last_seen_to_ : option datetime) (last_seen_to_inclusive_ : bool) (kw : Kwargs) : Kwargs :=
  {| query := query kw; status := status kw; tags := tags kw;
     bookmarked_by := bookmarked_by kw; assigned_to := assigned_to kw;
     first_release := first_release kw; sort_by := sort_by kw;
     unassigned := unassigned kw; subscribed_by := subscribed_by kw;
     age_from := age_from kw; age_from_inclusive := age_from_inclusive kw;
     age_to := age_to kw; age_to_inclusive := age_to_inclusive kw;
     last_seen_from := last_seen_from kw;
     last_seen_from_inclusive := last_seen_from_inclusive kw;
     last_seen_to := last_seen_to_;
     last_seen_to_inclusive := last_seen_to_inclusive_;
     date_from := date_from kw;
     date_from_inclusive := date_from_inclusive kw; date_to := date_to kw;
     date_to_inclusive := date_to_inclusive kw;
     active_at_from := active_at_from kw;
     active_at_from_inclusive := active_at_from_inclusive kw;
     active_at_to := active_at_to kw;
     active_at_to_inclusive := active_at_to_inclusive kw;
     times_seen := times_seen kw; times_seen_lower := times_seen_lower kw;
     times_seen_lower_inclusive := times_seen_lower_inclusive kw;
     times_seen_upper := times_seen_upper kw;
     times_seen_upper_inclusive := times_seen_upper_inclusive kw;
     environment_id := environment_id kw; candidates := candidates kw |}.

Definition with_active_at_from (active_at_from_ : option datetime) (active_at_from_inclusive_ : bool) (kw : Kwargs) : Kwargs :=
  {| query := query kw; status := status kw; tags := tags kw;
     bookmarked_by := bookmarked_by kw; assigned_to := assigned_to kw;
     first_release := first_release kw; sort_by := sort_by kw;
     unassigned := unassigned kw; subscribed_by := subscribed_by kw;
     age_from := age_from kw; age_from_inclusive := age_from_inclusive kw;
     age_to := age_to kw; age_to_inclusive := age_to_inclusive kw;
     last_seen_from := last_seen_from kw;
     last_seen_from_inclusive := last_seen_from_inclusive kw;
     last_seen_to := last_seen_to kw;
     last_seen_to_inclusive := last_seen_to_inclusive kw;
     date_from := date_from kw;
     date_from_inclusive := date_from_inclusive kw; date_to := date_to kw;
     date_to_inclusive := date_to_inclusive kw;
     active_at_from := active_at_from_;
     active_at_from_inclusive := active_at_from_inclusive_;
     active_at_to := active_at_to kw;
     active_at_to_inclusive := active_at_to_inclusive kw;
     times_seen := times_seen kw; times_seen_lower := times_seen_lower kw;
     times_seen_lower_inclusive := times_seen_lower_inclusive kw;
     times_seen_upper := times_seen_upper kw;
     times_seen_upper_inclusive := times_seen_upper_inclusive kw;
     environment_id := environment_id kw; candidates := candidates kw |}.

Definition with_active_at_to (active_at_to_ : option datetime) (active_at_to_inclusive_ : bool) (kw : Kwargs) : Kwargs :=
  {| query := query kw; status := status kw; tags := tags kw;
     bookmarked_by := bookmarked_by kw; assigned_to := assigned_to kw;
     first_release := first_release kw; sort_by := sort_by kw;
     unassigned := unassigned kw; subscribed_by := subscribed_by kw;
     age_from := age_from kw; age_from_inclusive := age_from_inclusive kw;
     age_to := age_to kw; age_to_inclusive := age_to_inclusive kw;
     last_seen_from := last_seen_from kw;
     last_seen_from_inclusive := last_seen_from_inclusive kw;
     last_seen_to := last_seen_to kw;
     last_seen_to_inclusive := last_seen_to_inclusive kw;
     date_from := date_from kw;
     date_from_inclusive := date_from_inclusive kw; date_to := date_to kw;
     date_to_inclusive := date_to_inclusive kw;
     active_at_from := active_at_from kw;
     active_at_from_inclusive := active_at_from_inclusive kw;
     active_at_to := active_at_to_;
     active_at_to_inclusive := active_at_to_inclusive_;
     times_seen := times_seen kw; times_seen_lower := times_seen_lower kw;
     times_seen_lower_inclusive := times_seen_lower_inclusive kw;
     times_seen_upper := times_seen_upper kw;
     times_seen_upper_inclusive := times_seen_upper_inclusive kw;
     environment_id := environment_id kw; candidates := candidates kw |}.

Definition with_times_seen_lower (times_seen_lower_ : option Z) (times_seen_lower_inclusive_ : bool) (kw : Kwargs) : Kwargs :=
  {| query := query kw; status := status kw; tags := tags kw;
     bookmarked_by := bookmarked_by kw; assigned_to := assigned_to kw;
     first_release := first_release kw; sort_by := sort_by kw;
     unassigned := unassigned kw; subscribed_by := subscribed_by kw;
     age_from := age_from kw; age_from_inclusive := age_from_inclusive kw;
     age_to := age_to kw; age_to_inclusive := age_to_inclusive kw;
     last_seen_from := last_seen_from kw;
     last_seen_from_inclusive := last_seen_from_inclusive kw;
     last_seen_to := last_seen_to kw;
     last_seen_to_inclusive := last_seen_to_inclusive kw;
     date_from := date_from kw;
     date_from_inclusive := date_from_inclusive kw; date_to := date_to kw;
     date_to_inclusive := date_to_inclusive kw;
     active_at_from := active_at_from kw;
     active_at_from_inclusive := active_at_from_inclusive kw;
     active_at_to := active_at_to kw;
     active_at_to_inclusive := active_at_to_inclusive kw;
     times_seen := times_seen kw; times_seen_lower := times_seen_lower_;
     times_seen_lower_inclusive := times_seen_lower_inclusive_;
     times_seen_upper := times_seen_upper kw;
     times_seen_upper_inclusive := times_seen_upper_inclusive kw;
     environment_id := environment_id kw; candidates := candidates kw |}.

Definition with_times_seen_upper (times_seen_upper_ : option Z) (times_seen_upper_inclusive_ : bool) (kw : Kwargs) : Kwargs :=
  {| query := query kw; status := status kw; tags := tags kw;
     bookmarked_by := bookmarked_by kw; assigned_to := assigned_to kw;
     first_release := first_release kw; sort_by := sort_by kw;
     unassigned := unassigned kw; subscribed_by := subscribed_by kw;
     age_from := age_from kw; age_from_inclusive := age_from_inclusive kw;
     age_to := age_to kw; age_to_inclusive := age_to_inclusive kw;
     last_seen_from := last_seen_from kw;
     last_seen_from_inclusive := last_seen_from_inclusive kw;
     last_seen_to := last_seen_to kw;
     last_seen_to_inclusive := last_seen_to_inclusive kw;
     date_from := date_from kw;
     date_from_inclusive := date_from_inclusive kw; date_to := date_to kw;
     date_to_inclusive := date_to_inclusive kw;
     active_at_from := active_at_from kw;
     active_at_from_inclusive := active_at_from_inclusive kw;
     active_at_to := active_at_to kw;
     active_at_to_inclusive := active_at_to_inclusive kw;
     times_seen := times_seen kw; times_seen_lower := times_seen_lower kw;
     times_seen_lower_inclusive := times_seen_lower_inclusive kw;
     times_seen_upper := times_seen_upper_;
     times_seen_upper_inclusive := times_seen_upper_inclusive_;
     environment_id := environment_id kw; candidates := candidates kw |}.

Definition with_date_from (date_from_ : option datetime) (date_from_inclusive_ : bool) (kw : Kwargs) : Kwargs :=
  {| query := query kw; status := status kw; tags := tags kw;
     bookmarked_by := bookmarked_by kw; assigned_to := assigned_to kw;
     first_release := first_release kw; sort_by := sort_by kw;
     unassigned := unassigned kw; subscribed_by := subscribed_by kw;
     age_from := age_from kw; age_from_inclusive := age_from_inclusive kw;
     age_to := age_to kw; age_to_inclusive := age_to_inclusive kw;
     last_seen_from := last_seen_from kw;
     last_seen_from_inclusive := last_seen_from_inclusive kw;
     last_seen_to := last_seen_to kw;
     last_seen_to_inclusive := last_seen_to_inclusive kw;
     date_from := date_from_; date_from_inclusive := date_from_inclusive_;
     date_to := date_to kw; date_to_inclusive := date_to_inclusive kw;
     active_at_from := active_at_from kw;
     active_at_from_inclusive := active_at_from_inclusive kw;
     active_at_to := active_at_to kw;
     active_at_to_inclusive := active_at_to_inclusive kw;
     times_seen := times_seen kw; times_seen_lower := times_seen_lower kw;
     times_seen_lower_inclusive := times_seen_lower_inclusive kw;
     times_seen_upper := times_seen_upper kw;
     times_seen_upper_inclusive := times_seen_upper_inclusive kw;
     environment_id := environment_id kw; candidates := candidates kw |}.

Definition with_date_to (date_to_ : option datetime) (date_to_inclusive_ : bool) (kw : Kwargs) : Kwargs :=
  {| query := query kw; status := status kw; tags := tags kw;
     bookmarked_by := bookmarked_by kw; assigned_to := assigned_to kw;
     first_release := first_release kw; sort_by := sort_by kw;
     unassigned := unassigned kw; subscribed_by := subscribed_by kw;
     age_from := age_from kw; age_from_inclusive := age_from_inclusive kw;
     age_to := age_to kw; age_to_inclusive := age_to_inclusive kw;
     last_seen_from := last_seen_from kw;
     last_seen_from_inclusive := last_seen_from_inclusive kw;
     last_seen_to := last_seen_to kw;
     last_seen_to_inclusive := last_seen_to_inclusive kw;
     date_from := date_from kw;
     date_from_inclusive := date_from_inclusive kw; date_to := date_to_;
     date_to_inclusive := date_to_inclusive_;
     active_at_from := active_at_from kw;
     active_at_from_inclusive := active_at_from_inclusive kw;
     active_at_to := active_at_to kw;
     active_at_to_inclusive := active_at_to_inclusive kw;
     times_seen := times_seen kw; times_seen_lower := times_seen_lower kw;
     times_seen_lower_inclusive := times_seen_lower_inclusive kw;
     times_seen_upper := times_seen_upper kw;
     times_seen_upper_inclusive := times_seen_upper_inclusive kw;
     environment_id := environment_id kw; candidates := candidates kw |}.

(** ** [add_scalar_filter] *)

Definition add_scalar_filter {V} (queryset : QuerySet V) (field operator : string)
    (v : V) (inclusive : bool) : QuerySet V :=
  filter_kw queryset
    [(field +:+ "__" +:+ operator +:+ (if inclusive then "e" else ""), v)].

Definition sort_strategies : list (string * string) :=
  [("priority", "log(times_seen) * 600 + last_seen::abstime::int");
   ("date", "last_seen");
   ("new", "first_seen");
   ("freq", "times_seen")].

(** ** [EnvironmentDjangoSearchBackend.filter_candidates] *)

(** A statement sent to the database: its text, the nodes the text was
    formatted from, and its parameters. *)
Record execution := {
  sent_sql : string;
  sent_nodes : statement;
  sent_parameters : list scalar;
}.

(** What a call leaves behind: the caller's [tags] mapping as the
    call left it, the statements it sent to the database, its result. *)
Record call (A : Type) := {
  tags_after : option (gmap string tag_value);
  executed : list execution;
  result : outcome A;
}.
Arguments tags_after {A} c.
Arguments executed {A} c.
Arguments result {A} c.

(** The loop over [tags.items()]. *)
Definition partition_tags (tags : gmap string tag_value) : gset string * gmap string string :=
  map_fold
    (fun key v acc =>
       match v with
       | ANY => ({[key]} ∪ acc.1, acc.2)
       | Specific s => (acc.1, <[key := s]> acc.2)
       end)
    (∅, ∅) tags.

(** The loop over [presence_tags]; [lateral_alias_sequence] is the
    state of the [itertools.count()] iterator. *)
Fixpoint presence_loop (keys : list string) (lateral_alias_sequence : nat)
    (lateral_queries : list lateral_query) (parameters : list scalar)
  : list lateral_query * list scalar :=
  match keys with
  | [] => (lateral_queries, parameters)
  | key :: rest =>
      presence_loop rest (S lateral_alias_sequence)
        (lateral_queries
           ++ [{| lateral_alias := "grouptagvalue_lateral_" +:+ pretty lateral_alias_sequence |}])
        (parameters ++ [SStr key])
  end.

(** The loop over [specific_tags.items()]. *)
Fixpoint specific_loop (items : list (string * string)) (current_table_alias : string)
    (join_alias_sequence : nat) (join_conditions : list join_condition)
    (where_conditions : list where_condition) (parameters : list scalar)
  : list join_condition * list where_condition * list scalar :=
  match items with
  | [] => (join_conditions, where_conditions, parameters)
  | (key, v) :: rest =>
      let previous_table_alias := current_table_alias in
      let current_table_alias := "grouptagvalue_join_" +:+ pretty join_alias_sequence in
      specific_loop rest current_table_alias (S join_alias_sequence)
        (join_conditions
           ++ [{| join_alias := current_table_alias;
                  join_previous_alias := previous_table_alias |}])
        (where_conditions ++ [{| where_alias := current_table_alias |}])
        (parameters ++ [SStr key; SStr v])
  end.

(** The filters on the tag store rows of the environment, up to the
    exact [times_seen] test. *)
Definition environment_queryset (project : Project) (environment : tag_value)
    (kw : Kwargs) : QuerySet value :=
  let queryset :=
    filter_kw (objects MGroupTagValue)
      [("project_id", VScalar (SInt (project_id project)));
       ("key", VScalar (SStr "environment"));
       ("value", VScalar (tag_scalar environment))] in
  let queryset :=
    match candidates kw with
    | Some ids => filter_kw queryset [("group_id__in", VList (SInt <$> elements ids))]
    | None => queryset
    end in
  let queryset :=
    match age_from kw with
    | Some t => add_scalar_filter queryset "first_seen" "gt" (VScalar (STime t))
                  (age_from_inclusive kw)
    | None => queryset
    end in
  let queryset :=
    match age_to kw with
    | Some t => add_scalar_filter queryset "first_seen" "lt" (VScalar (STime t))
                  (age_to_inclusive kw)
    | None => queryset
    end in
  let queryset :=
    match last_seen_from kw with
    | Some t => add_scalar_filter queryset "last_seen" "gt" (VScalar (STime t))
                  (last_seen_from_inclusive kw)
    | None => queryset
    end in
  match last_seen_to kw with
  | Some t => add_scalar_filter queryset "last_seen" "lt" (VScalar (STime t))
                (last_seen_to_inclusive kw)
  | None => queryset
  end.

(** The filters after the exact [times_seen] test. *)
Definition times_seen_bounds (queryset : QuerySet value) (kw : Kwargs) : QuerySet value :=
  let queryset :=
    match times_seen_lower kw with
    | Some n => add_scalar_filter queryset "times_seen" "gt" (VScalar (SInt n))
                  (times_seen_lower_inclusive kw)
    | None => queryset
    end in
  match times_seen_upper kw with
  | Some n => add_scalar_filter queryset "times_seen" "lt" (VScalar (SInt n))
                (times_seen_upper_inclusive kw)
  | None => queryset
  end.

(** The PostgreSQL branch from the compiled candidate query up to
    [cursor.execute]: the text of the statement, its nodes, and the
    parameters. *)
Definition synthesize (cfg : Settings) (candidate_query : string)
    (parameters : list scalar) (queryset : QuerySet value)
    (tags : gmap string tag_value) : string * statement * list scalar :=
  let '(presence_tags, specific_tags) := partition_tags tags in
  let current_table_alias := "candidates" in
  let '(lateral_queries, parameters) :=
    presence_loop (elements presence_tags) 0 [] parameters in
  let '(join_conditions, where_conditions, parameters) :=
    specific_loop (map_to_list specific_tags) current_table_alias 0 [] [] parameters in
  let table := db_table cfg MGroupTagValue in
  let query :=
    format_query candidate_query
      (join ("," +:+ nl +:+ "  ")
         ([join (nl +:+ "  ") ("candidates" :: map (format_join table) join_conditions)]
          ++ map (format_lateral table) lateral_queries))
      (if truthy where_conditions
       then "WHERE " +:+ join (nl +:+ "  AND ") (map format_where where_conditions)
       else "")
      "DESC" in
  (query,
   {| stmt_candidates := skeleton (values queryset ["group_id"; "sort_key"]);
      stmt_joins := join_conditions;
      stmt_laterals := lateral_queries;
      stmt_where := where_conditions |},
   parameters).

Section FilterCandidates.
Variable sort_value : Type.
Variable sort_value_leb : sort_value -> sort_value -> bool.
Variable eval_sort_expression : string -> GroupTagValue -> sort_value.
Variable cfg : Settings.
Variable db : Database.

Definition filter_candidates (project : Project) (environment_id : Z) (kw : Kwargs)
  : call (list Z) :=
  match tags kw with
  | None =>
      (* [None] has no [pop] *)
      {| tags_after := None; executed := []; result := Raise AttributeError |}
  | Some tags =>
      match tags !! "environment" with
      | None => {| tags_after := Some tags; executed := []; result := Raise KeyError |}
      | Some environment =>
          let tags := delete "environment" tags in
          let queryset := environment_queryset project environment kw in
          if is_not_None (times_seen kw) then
            (* the queryset has no [times_seen] method *)
            {| tags_after := Some tags; executed := []; result := Raise AttributeError |}
          else
            let queryset := times_seen_bounds queryset kw in
            match assoc (sort_by kw) sort_strategies with
            | None => {| tags_after := Some tags; executed := []; result := Raise KeyError |}
            | Some strategy =>
                let queryset := extra_select queryset "sort_key" strategy in
                if is_postgres cfg then
                  match as_nested_sql cfg (values queryset ["group_id"; "sort_key"]) with
                  | Raise e =>
                      (* nothing was sent to the database *)
                      {| tags_after := Some tags; executed := []; result := Raise e |}
                  | Return (candidate_query, parameters) =>
                      let '(query, s, parameters) :=
                        synthesize cfg candidate_query parameters queryset tags in
                      {| tags_after := Some tags;
                         executed := [{| sent_sql := query; sent_nodes := s;
                                         sent_parameters := parameters |}];
                         result := cursor_execute sort_value sort_value_leb
                                     eval_sort_expression db s parameters |}
                  end
                else
                  {| tags_after := Some tags; executed := [];
                     result := Raise NotImplementedError |}
            end
      end
  end.
End FilterCandidates.

(** ** Evaluating [Group] querysets *)

(** The values a queryset on a plain model selects for its first
    [values_list] field: [DISTINCT] first, then the slice. *)
Definition select_values {R} (column : R -> string -> option scalar)
    (kwargs : R -> list (string * value) -> bool) (table : list R)
    (qs : QuerySet value) : list scalar :=
  let rows := List.filter (matches kwargs qs) table in
  let selected := omap (fun r => column r (List.hd "" (qs_values qs))) rows in
  let selected := if qs_distinct qs then remove_dups selected else selected in
  match qs_high_mark qs with
  | Some n => take n selected
  | None => selected
  end.

(** Iterating a nested queryset, as the database does for a subquery
    and as [list(queryset)] does in Python. *)
Definition evaluate (db : Database) (qs : QuerySet value) : list scalar :=
  match qs_model qs with
  | MEvent => select_values event_column event_kwargs (Event_objects db) qs
  | MGroupSubscription =>
      select_values membership_column membership_kwargs (GroupSubscription_objects db) qs
  | MGroupTagValue =>
      select_values tagvalue_column tagvalue_kwargs (GroupTagValue_objects db) qs
  | MGroup => []
  end.

Definition group_column (g : Group) (name : string) : option scalar :=
  assoc name
    [("id", SInt (group_id g)); ("project", SInt (group_project_id g));
     ("status", SStatus (group_status g));
     ("first_seen", STime (group_first_seen g));
     ("last_seen", STime (group_last_seen g));
     ("active_at", STime (group_active_at g));
     ("times_seen", SInt (group_times_seen g));
     ("message", SStr (group_message g)); ("culprit", SStr (group_culprit g))].

Definition release_column (r : Release) (name : string) : option scalar :=
  assoc name
    [("organization_id", SInt (release_organization_id r));
     ("version", SStr (release_version r))].

(** The rows a [Group] reaches through a relation. *)
Definition related (db : Database) (g : Group) (relation : string)
  : option (list (string -> option scalar)) :=
  assoc relation
    [("bookmark_set",
      membership_column <$>
        List.filter (fun m => Z.eqb (m_group_id m) (group_id g)) (GroupBookmark_objects db));
     ("assignee_set",
      membership_column <$>
        List.filter (fun m => Z.eqb (m_group_id m) (group_id g)) (GroupAssignee_objects db));
     ("first_release", release_column <$> option_list (group_first_release g))].

Definition eval_arg (db : Database) (lt : lookup_type) (column : scalar) (a : arg) : bool :=
  match a with
  | Plain v => apply_lookup lt column v
  | Nested qs =>
      match lt with
      | LIn => bool_decide (column ∈ evaluate db qs)
      | _ => false
      end
  end.

Definition is_nil {A} (l : list A) : bool :=
  match l with [] => true | _ => false end.

(** A lookup on a column of the group, or an [isnull] test of a
    relation; the lookups that go through a relation are judged
    together, on one related row. *)
Definition group_lookup (db : Database) (g : Group) (kw : string * arg) : bool :=
  let '(path, lt) := parse_lookup kw.1 in
  match path with
  | [name] =>
      match group_column g name, related db g name with
      | Some c, _ => eval_arg db lt c kw.2
      | None, Some rows =>
          match lt, kw.2 with
          | LIsNull, Plain (VScalar (SBool b)) => Bool.eqb b (is_nil rows)
          | _, _ => false
          end
      | None, None => false
      end
  | [relation; _] => is_not_None (related db g relation)
  | _ => false
  end.

Definition relation_lookups (relation : string) (kwargs : list (string * arg))
  : list (string * lookup_type * arg) :=
  flat_map (fun kw =>
    let '(path, lt) := parse_lookup kw.1 in
    match path with
    | [r; name] => if String.eqb r relation then [(name, lt, kw.2)] else []
    | _ => []
    end) kwargs.

Definition group_relation (db : Database) (g : Group) (kwargs : list (string * arg))
    (relation : string) : bool :=
  match relation_lookups relation kwargs with
  | [] => true
  | subs =>
      existsb (fun row =>
        forallb (fun sub =>
          match row sub.1.1 with
          | Some c => eval_arg db sub.1.2 c sub.2
          | None => false
          end) subs)
        (default [] (related db g relation))
  end.

Definition group_kwargs (db : Database) (g : Group) (kwargs : list (string * arg)) : bool :=
  forallb (group_lookup db g) kwargs
  && forallb (group_relation db g kwargs) ["bookmark_set"; "assignee_set"; "first_release"].

(** The groups a queryset selects. *)
Definition selects (db : Database) (qs : QuerySet arg) (g : Group) : bool :=
  matches (group_kwargs db) qs g.

Definition plain (s : scalar) : arg := Plain (VScalar s).

(** ** [DjangoSearchBackend._build_queryset] *)

Definition status_in : list scalar :=
  [SStatus PENDING_DELETION; SStatus DELETION_IN_PROGRESS; SStatus PENDING_MERGE].

Section BuildQueryset.
Variable cfg : Settings.
Variable db : Database.
Variable project : Project.
Variable kw : Kwargs.

Definition filter_query (queryset : QuerySet arg) : QuerySet arg :=
  match query kw with
  | Some q =>
      if truthy q then
        filter_q queryset
          (QOr (Kw [("message__icontains", plain (SStr q))])
               (Kw [("culprit__icontains", plain (SStr q))]))
      else queryset
  | None => queryset
  end.

Definition filter_status (queryset : QuerySet arg) : QuerySet arg :=
  match status kw with
  | None => exclude_kw queryset [("status__in", Plain (VList status_in))]
  | Some s => filter_kw queryset [("status", plain (SStatus s))]
  end.

Definition filter_bookmarked_by (queryset : QuerySet arg) : QuerySet arg :=
  match bookmarked_by kw with
  | Some u =>
      if truthy u then
        filter_kw queryset
          [("bookmark_set__project", plain (SInt (project_id project)));
           ("bookmark_set__user", plain (SInt (user_id u)))]
      else queryset
  | None => queryset
  end.

(** [if assigned_to: ... elif unassigned in (True, False): ...] *)
Definition filter_assignment (queryset : QuerySet arg) : QuerySet arg :=
  let otherwise :=
    match unassigned kw with
    | Some b => filter_kw queryset [("assignee_set__isnull", plain (SBool b))]
    | None => queryset
    end in
  match assigned_to kw with
  | Some u =>
      if truthy u then
        filter_kw queryset
          [("assignee_set__project", plain (SInt (project_id project)));
           ("assignee_set__user", plain (SInt (user_id u)))]
      else otherwise
  | None => otherwise
  end.

Definition filter_subscribed_by (queryset : QuerySet arg) : QuerySet arg :=
  match subscribed_by kw with
  | Some u =>
      filter_kw queryset
        [("id__in",
          Nested (values
                    (filter_kw (objects MGroupSubscription)
                       [("project", VScalar (SInt (project_id project)));
                        ("user", VScalar (SInt (user_id u)));
                        ("is_active", VScalar (SBool true))])
                    ["group"]))]
  | None => queryset
  end.

(** Lines 69 to 111: the filters that come before the release test. *)
Definition ownership_filters : QuerySet arg :=
  let queryset :=
    filter_kw (objects MGroup) [("project", plain (SInt (project_id project)))] in
  let queryset := filter_query queryset in
  let queryset := filter_status queryset in
  let queryset := filter_bookmarked_by queryset in
  let queryset := filter_assignment queryset in
  filter_subscribed_by queryset.

Definition filter_first_release (queryset : QuerySet arg) : QuerySet arg :=
  match first_release kw with
  | Some (Version v) =>
      if truthy v then
        filter_kw queryset
          [("first_release__organization_id", plain (SInt (organization_id project)));
           ("first_release__version", plain (SStr v))]
      else queryset
  | _ => queryset
  end.

Definition filter_age (queryset : QuerySet arg) : QuerySet arg :=
  if truthy (age_from kw) || truthy (age_to kw) then
    let params := [] in
    let params :=
      match age_from kw with
      | Some t =>
          if age_from_inclusive kw
          then params ++ [("first_seen__gte", plain (STime t))]
          else params ++ [("first_seen__gt", plain (STime t))]
      | None => params
      end in
    let params :=
      match age_to kw with
      | Some t =>
          if age_to_inclusive kw
          then params ++ [("first_seen__lte", plain (STime t))]
          else params ++ [("first_seen__lt", plain (STime t))]
      | None => params
      end in
    filter_kw queryset params
  else queryset.

Definition filter_last_seen (queryset : QuerySet arg) : QuerySet arg :=
  if truthy (last_seen_from kw) || truthy (last_seen_to kw) then
    let params := [] in
    let params :=
      match last_seen_from kw with
      | Some t =>
          if last_seen_from_inclusive kw
          then params ++ [("last_seen__gte", plain (STime t))]
          else params ++ [("last_seen__gt", plain (STime t))]
      | None => params
      end in
    let params :=
      match last_seen_to kw with
      | Some t =>
          if last_seen_to_inclusive kw
          then params ++ [("last_seen__lte", plain (STime t))]
          else params ++ [("last_seen__lt", plain (STime t))]
      | None => params
      end in
    filter_kw queryset params
  else queryset.

Definition filter_active_at (queryset : QuerySet arg) : QuerySet arg :=
  if truthy (active_at_from kw) || truthy (active_at_to kw) then
    let params := [] in
    let params :=
      match active_at_from kw with
      | Some t =>
          if active_at_from_inclusive kw
          then params ++ [("active_at__gte", plain (STime t))]
          else params ++ [("active_at__gt", plain (STime t))]
      | None => params
      end in
    let params :=
      match active_at_to kw with
      | Some t =>
          if active_at_to_inclusive kw
          then params ++ [("active_at__lte", plain (STime t))]
          else params ++ [("active_at__lt", plain (STime t))]
      | None => params
      end in
    filter_kw queryset params
  else queryset.

Definition filter_times_seen (queryset : QuerySet arg) : QuerySet arg :=
  match times_seen kw with
  | Some n => filter_kw queryset [("times_seen", plain (SInt n))]
  | None => queryset
  end.

Definition filter_times_seen_range (queryset : QuerySet arg) : QuerySet arg :=
  if is_not_None (times_seen_lower kw) || is_not_None (times_seen_upper kw) then
    let params := [] in
    let params :=
      match times_seen_lower kw with
      | Some n =>
          if times_seen_lower_inclusive kw
          then params ++ [("times_seen__gte", plain (SInt n))]
          else params ++ [("times_seen__gt", plain (SInt n))]
      | None => params
      end in
    let params :=
      match times_seen_upper kw with
      | Some n =>
          if times_seen_upper_inclusive kw
          then params ++ [("times_seen__lte", plain (SInt n))]
          else params ++ [("times_seen__lt", plain (SInt n))]
      | None => params
      end in
    filter_kw queryset params
  else queryset.

(** Lines 189 to 211: the first 1000 distinct group ids of the events
    in the window. *)
Definition event_group_ids : QuerySet value :=
  let params := [("project_id", VScalar (SInt (project_id project)))] in
  let params :=
    match date_from kw with
    | Some t =>
        if date_from_inclusive kw
        then params ++ [("datetime__gte", VScalar (STime t))]
        else params ++ [("datetime__gt", VScalar (STime t))]
    | None => params
    end in
  let params :=
    match date_to kw with
    | Some t =>
        if date_to_inclusive kw
        then params ++ [("datetime__lte", VScalar (STime t))]
        else params ++ [("datetime__lt", VScalar (STime t))]
    | None => params
    end in
  let event_queryset := filter_kw (objects MEvent) params in
  let event_queryset :=
    match query kw with
    | Some q =>
        if truthy q
        then filter_kw event_queryset [("message__icontains", VScalar (SStr q))]
        else event_queryset
    | None => event_queryset
    end in
  slice_to (values (distinct event_queryset) ["group_id"]) 1000.

(** Lines 213 to 219: the restriction handed to [id__in]. *)
Definition date_restriction : arg :=
  let group_ids := event_group_ids in
  let base := db_for_read cfg MGroup in
  let using_ := db_for_read cfg MEvent in
  if negb (String.eqb base using_) || startswith (engine cfg) "mysql"
  then Plain (VList (evaluate db group_ids))
  else Nested group_ids.

Definition filter_date (queryset : QuerySet arg) : QuerySet arg :=
  if truthy (date_from kw) || truthy (date_to kw)
  then filter_kw queryset [("id__in", date_restriction)]
  else queryset.

(** Lines 129 to 223. *)
Definition range_filters (queryset : QuerySet arg) : QuerySet arg :=
  let queryset := filter_age queryset in
  let queryset := filter_last_seen queryset in
  let queryset := filter_active_at queryset in
  let queryset := filter_times_seen queryset in
  let queryset := filter_times_seen_range queryset in
  filter_date queryset.

Definition score_clause : option string :=
  if startswith (engine cfg) "sqlite" then assoc (sort_by kw) (SQLITE_SORT_CLAUSES cfg)
  else if startswith (engine cfg) "mysql" then assoc (sort_by kw) (MYSQL_SORT_CLAUSES cfg)
  else if startswith (engine cfg) "oracle" then assoc (sort_by kw) (ORACLE_SORT_CLAUSES cfg)
  else if bool_decide (engine cfg ∈ MSSQL_ENGINES cfg)
       then assoc (sort_by kw) (MSSQL_SORT_CLAUSES cfg)
  else assoc (sort_by kw) (SORT_CLAUSES cfg).

Definition _build_queryset : outcome (QuerySet arg) :=
  let queryset := ownership_filters in
  if truthy (first_release kw) && bool_decide (first_release kw = Some EMPTY)
  then Return (none queryset)
  else
    let queryset := filter_first_release queryset in
    let tagged :=
      match tags kw with
      | Some t =>
          if truthy t then
            let matched :=
              get_group_ids_for_search_filter cfg (project_id project)
                (environment_id kw) t in
            if negb (truthy matched) then inl (none queryset)
            else inr (filter_kw queryset [("id__in", Plain (VList (SInt <$> matched)))])
          else inr queryset
      | None => inr queryset
      end in
    match tagged with
    | inl empty => Return empty
    | inr queryset =>
        let queryset := range_filters queryset in
        match score_clause with
        | Some clause => Return (extra_select queryset "sort_value" clause)
        | None => Raise KeyError
        end
    end.
End BuildQueryset.

(** ** [EnvironmentDjangoSearchBackend.find_candidates] *)

#[global] Instance outcome_ret : MRet outcome := fun A a => Return a.
#[global] Instance outcome_bind : MBind outcome :=
  fun A B f o => match o with Return a => f a | Raise e => Raise e end.

(** [assert condition] *)
Definition assert (condition : bool) : outcome unit :=
  if condition then Return () else Raise AssertionError.

Section FindCandidates.
Variable db : Database.
Variable project : Project.
Variable kw : Kwargs.

(** The queryset [find_candidates] has built when it returns.  The
    free text, status, bookmark and subscription statements are those
    of [_build_queryset]. *)
Definition find_candidates_queryset : outcome (QuerySet arg) :=
  let queryset :=
    filter_kw (objects MGroup) [("project", plain (SInt (project_id project)))] in
  let queryset := filter_query kw queryset in
  let queryset := filter_status kw queryset in
  let queryset := filter_bookmarked_by project kw queryset in
  queryset ←
    match assigned_to kw with
    | Some u =>
        _ ← assert (negb (is_not_None (unassigned kw)));
        Return (filter_kw queryset
                  [("assignee_set__project", plain (SInt (project_id project)));
                   ("assignee_set__user", plain (SInt (user_id u)))])
    | None => Return queryset
    end;
  queryset ←
    match unassigned kw with
    | Some b =>
        _ ← assert (negb (is_not_None (assigned_to kw)));
        Return (filter_kw queryset [("assignee_set__isnull", plain (SBool b))])
    | None => Return queryset
    end;
  let queryset := filter_subscribed_by project kw queryset in
  let queryset :=
    match active_at_from kw with
    | Some t => add_scalar_filter queryset "active_at" "gt" (plain (STime t))
                  (active_at_from_inclusive kw)
    | None => queryset
    end in
  let queryset :=
    match active_at_to kw with
    | Some t => add_scalar_filter queryset "active_at" "lt" (plain (STime t))
                  (active_at_to_inclusive kw)
    | None => queryset
    end in
  if is_not_None (first_release kw) then Raise NotImplementedError
  else Return queryset.

(** [set(queryset.values_list('id', flat=True))] *)
Definition find_candidates (environment_id : Z) : outcome (gset Z) :=
  queryset ← find_candidates_queryset;
  Return (list_to_set (group_id <$> List.filter (selects db queryset) (Group_objects db))).
End FindCandidates.

(** The groups in the result of a call that builds a queryset. *)
Definition in_result (db : Database) (o : outcome (QuerySet arg)) (g : Group) : bool :=
  match o with
  | Return qs => selects db qs g
  | Raise _ => false
  end.

(** ** [DjangoSearchBackend.query] *)

(** The paginators of [sentry.api.paginator]. *)
Inductive paginator_class := DateTimePaginator | Paginator.

(** The call [query] ends with:
    [paginator_cls(queryset.order_by(sort_clause), sort_clause, **paginator_options)
       .get_result(limit, cursor, count_hits=count_hits)]. *)
Record pagination (Cursor : Type) := {
  paginator_cls : paginator_class;
  paginated : QuerySet arg;
  order_by : string;
  paginator_key : string;
  paginator_options : gmap string value;
  page_limit : option Z;
  page_cursor : option Cursor;
  page_count_hits : bool;
}.
Arguments paginator_cls {Cursor} p.
Arguments paginated {Cursor} p.
Arguments order_by {Cursor} p.
Arguments paginator_key {Cursor} p.
Arguments paginator_options {Cursor} p.
Arguments page_limit {Cursor} p.
Arguments page_cursor {Cursor} p.
Arguments page_count_hits {Cursor} p.

Section Query.
Variable cfg : Settings.
Variable db : Database.
Variable Cursor : Type.
Variable Page : Type.
(** The paginator, which [query] hands the queryset to. *)
Variable get_result : pagination Cursor -> outcome Page.

(** [limit] is [None] when the caller passed no [limit] keyword, and
    [Some None] when the caller passed [limit=None]. *)
Definition DjangoSearchBackend_query (project : Project) (count_hits : bool)
    (paginator_options : option (gmap string value)) (kw : Kwargs)
    (limit : option (option Z)) (cursor : option Cursor) : outcome Page :=
  let paginator_options := default ∅ paginator_options in
  queryset ← _build_queryset cfg db project kw;
  let sort_by := sort_by kw in
  let limit := default (Some 100) limit in
  let '(paginator_cls, sort_clause) :=
    if String.eqb sort_by "date" then (DateTimePaginator, "-last_seen")
    else if String.eqb sort_by "priority" then (Paginator, "-score")
    else if String.eqb sort_by "new" then (DateTimePaginator, "-first_seen")
    else if String.eqb sort_by "freq" then (Paginator, "-times_seen")
    else (Paginator, "-sort_value") in
  get_result
    {| paginator_cls := paginator_cls; paginated := queryset; order_by := sort_clause;
       paginator_key := sort_clause; paginator_options := paginator_options;
       page_limit := limit; page_cursor := cursor; page_count_hits := count_hits |}.
End Query.

(** ** [EnvironmentDjangoSearchBackend.query] *)

Definition EnvironmentDjangoSearchBackend_query {Page} (project : Project) (kw : Kwargs)
  : outcome Page :=
  _ ← assert (is_not_None (environment_id kw));
  if is_not_None (date_from kw) then Raise NotImplementedError
  else if is_not_None (date_to kw) then Raise NotImplementedError
  else Raise NotImplementedError.

(** ** A small deployment for the examples *)

Definition table_names (m : Model) : string :=
  match m with
  | MGroup => "sentry_groupedmessage"
  | MEvent => "sentry_message"
  | MGroupSubscription => "sentry_groupsubscription"
  | MGroupTagValue => "sentry_filtervalue"
  end.

Definition example_settings (engine_ : string) (is_postgres_ : bool) : Settings :=
  {| engine := engine_; is_postgres := is_postgres_;
     db_for_read := fun _ => "default";
     db_table := table_names;
     SORT_CLAUSES := [("date", "last_seen"); ("new", "first_seen");
                      ("freq", "times_seen"); ("priority", "score")];
     SQLITE_SORT_CLAUSES := [("date", "last_seen"); ("new", "first_seen");
                             ("freq", "times_seen")];
     MYSQL_SORT_CLAUSES := [("date", "last_seen"); ("new", "first_seen");
                            ("freq", "times_seen")];
     ORACLE_SORT_CLAUSES := [("date", "last_seen"); ("new", "first_seen");
                             ("freq", "times_seen")];
     MSSQL_SORT_CLAUSES := [("date", "last_seen"); ("new", "first_seen");
                            ("freq", "times_seen")];
     MSSQL_ENGINES := ["django_pytds"; "sqlserver_ado"; "sql_server.pyodbc"];
     get_group_ids_for_search_filter := fun _ _ _ => [] |}.

Definition postgres : Settings := example_settings "postgresql_psycopg2" true.
Definition mysql : Settings := example_settings "mysql" false.

Definition at_ (n : Z) : datetime := {| timestamp := n |}.

Definition tag_row (g : Z) (key v : string) (seen : Z) : GroupTagValue :=
  {| tv_project_id := 1; tv_group_id := g; tv_key := key; tv_value := v;
     tv_times_seen := 1; tv_first_seen := at_ 0; tv_last_seen := at_ seen |}.

Definition issue (id : Z) (s : GroupStatus) (first last : Z) (n : Z) : Group :=
  {| group_id := id; group_project_id := 1; group_status := s;
     group_first_seen := at_ first; group_last_seen := at_ last;
     group_active_at := at_ first; group_times_seen := n;
     group_message := "boom"; group_culprit := "views.py";
     group_first_release := None |}.

Definition example_database : Database :=
  {| Group_objects :=
       [issue 1 UNRESOLVED 10 20 3; issue 2 RESOLVED 15 30 5;
        issue 3 PENDING_DELETION 10 40 1; issue 4 IGNORED 5 50 2];
     Event_objects :=
       [{| event_group_id := 1; event_project_id := 1; event_datetime := at_ 12;
           event_message := "boom" |};
        {| event_group_id := 2; event_project_id := 1; event_datetime := at_ 30;
           event_message := "crash" |};
        {| event_group_id := 1; event_project_id := 1; event_datetime := at_ 20;
           event_message := "boom" |}];
     GroupTagValue_objects :=
       [tag_row 1 "environment" "prod" 10; tag_row 1 "browser" "firefox" 1;
        tag_row 1 "release" "1.0" 1;
        tag_row 2 "environment" "prod" 30; tag_row 2 "browser" "chrome" 1;
        tag_row 2 "browser" "firefox" 1; tag_row 2 "release" "1.0" 1;
        tag_row 3 "environment" "prod" 20; tag_row 3 "release" "1.0" 1;
        tag_row 4 "environment" "prod" 40; tag_row 4 "browser" "firefox" 1;
        tag_row 4 "release" "1.0" 1;
        tag_row 5 "environment" "prod" 50; tag_row 5 "browser" "firefox" 1;
        tag_row 5 "release" "2.0" 1];
     GroupBookmark_objects := [];
     GroupAssignee_objects :=
       [{| m_project_id := 1; m_group_id := 2; m_user_id := 7; m_is_active := true |}];
     GroupSubscription_objects := [] |}.

Definition example_project : Project := {| project_id := 1; organization_id := 1 |}.

(** An integer stand-in for the evaluation of the sort expressions. *)
Definition example_sort_value (expression : string) (r : GroupTagValue) : Z :=
  if String.eqb expression "first_seen" then timestamp (tv_first_seen r)
  else if String.eqb expression "times_seen" then tv_times_seen r
  else if String.eqb expression "last_seen" then timestamp (tv_last_seen r)
  else Z.log2 (tv_times_seen r) * 600 + timestamp (tv_last_seen r).

Definition example_tags : gmap string tag_value :=
  <["environment" := Specific "prod"]>
    (<["browser" := ANY]> (<["release" := Specific "1.0"]> ∅)).

Definition example_search : Kwargs :=
  with_candidates (Some ({[1; 2; 3; 5]} : gset Z)) (with_tags (Some example_tags) defaults).

(** Both [assigned_to] and [unassigned] supplied. *)
Definition conflicting_assignment : Kwargs :=
  with_assigned_to (Some {| user_id := 7 |}) (with_unassigned (Some true) defaults).

(** The deployment [cfg] with a tag store that matches [ids]. *)
Definition matching (ids : list Z) (cfg : Settings) : Settings :=
  {| engine := engine cfg; is_postgres := is_postgres cfg;
     db_for_read := db_for_read cfg; db_table := db_table cfg;
     SORT_CLAUSES := SORT_CLAUSES cfg; SQLITE_SORT_CLAUSES := SQLITE_SORT_CLAUSES cfg;
     MYSQL_SORT_CLAUSES := MYSQL_SORT_CLAUSES cfg;
     ORACLE_SORT_CLAUSES := ORACLE_SORT_CLAUSES cfg;
     MSSQL_SORT_CLAUSES := MSSQL_SORT_CLAUSES cfg; MSSQL_ENGINES := MSSQL_ENGINES cfg;
     get_group_ids_for_search_filter := fun _ _ _ => ids |}.

Definition other_tags : gmap string tag_value :=
  <["environment" := Specific "staging"]>
    (<["os" := ANY]> (<["server" := Specific "web-1; DROP TABLE"]> ∅)).

Definition tagged_search : Kwargs := with_tags (Some example_tags) defaults.

Definition window_search : Kwargs := with_date_from (Some (at_ 15)) true defaults.

(** * Properties *)

(** ** The environment path fails fast *)

Section EnvironmentPath.
Variable sort_value : Type.
Variable sort_value_leb : sort_value -> sort_value -> bool.
Variable eval_sort_expression : string -> GroupTagValue -> sort_value.
Variable cfg : Settings.
Variable db : Database.
Variable project : Project.
Variable environment_id : Z.

Local Abbreviation run :=
  (filter_candidates sort_value sort_value_leb eval_sort_expression
     cfg db project environment_id).

Lemma filter_candidates_tags_after kw m :
  tags kw = Some m -> tags_after (run kw) = Some (delete "environment" m).
Proof.
  intros Hm. unfold filter_candidates. rewrite Hm.
  destruct (m !! "environment") as [environment|] eqn:He.
  - destruct (is_not_None (times_seen kw)); [reflexivity|].
    destruct (assoc (sort_by kw) sort_strategies); [|reflexivity].
    destruct (is_postgres cfg); [|reflexivity].
    destruct (as_nested_sql _ _) as [[candidate_query parameters]|e]; [|reflexivity].
    destruct (synthesize _ _ _ _ _) as [[? ?] ?]. reflexivity.
  - now rewrite delete_id.
Qed.

Lemma filter_candidates_missing_environment kw m :
  tags kw = Some m -> m !! "environment" = None ->
  result (run kw) = Raise KeyError /\ executed (run kw) = [].
Proof.
  intros Hm He. unfold filter_candidates. rewrite Hm, He. split; reflexivity.
Qed.

Lemma filter_candidates_times_seen kw m n :
  tags kw = Some m -> is_Some (m !! "environment") -> times_seen kw = Some n ->
  result (run kw) = Raise AttributeError /\ executed (run kw) = [].
Proof.
  intros Hm [environment He] Hn. unfold filter_candidates.
  rewrite Hm, He, Hn. split; reflexivity.
Qed.

Lemma filter_candidates_not_postgres kw :
  is_postgres cfg = false ->
  returned (result (run kw)) = false /\ executed (run kw) = [].
Proof.
  intros Hpg. unfold filter_candidates. rewrite Hpg.
  destruct (tags kw) as [m|]; [|split; reflexivity].
  destruct (m !! "environment"); [|split; reflexivity].
  destruct (is_not_None (times_seen kw)); [split; reflexivity|].
  destruct (assoc (sort_by kw) sort_strategies); split; reflexivity.
Qed.

Lemma filter_candidates_not_implemented kw m :
  is_postgres cfg = false ->
  tags kw = Some m -> is_Some (m !! "environment") -> times_seen kw = None ->
  is_Some (assoc (sort_by kw) sort_strategies) ->
  result (run kw) = Raise NotImplementedError.
Proof.
  intros Hpg Hm [environment He] Hn [strategy Hs]. unfold filter_candidates.
  rewrite Hm, He, Hn, Hs, Hpg. reflexivity.
Qed.

Lemma find_candidates_first_release kw :
  is_not_None (first_release kw) = true ->
  returned (find_candidates db project kw environment_id) = false
  /\ (assigned_to kw = None \/ unassigned kw = None ->
      find_candidates db project kw environment_id = Raise NotImplementedError).
Proof.
  intros Hr. unfold find_candidates, find_candidates_queryset.
  rewrite Hr.
  destruct (assigned_to kw), (unassigned kw); simpl; split; try reflexivity;
    intros [?|?]; congruence.
Qed.
End EnvironmentPath.

(** ** The statement the compiler synthesizes *)

Definition lateral_name (i : nat) : string := "grouptagvalue_lateral_" +:+ pretty i.
Definition join_name (i : nat) : string := "grouptagvalue_join_" +:+ pretty i.

Fixpoint join_chain (current : string) (i n : nat) : list join_condition :=
  match n with
  | O => []
  | S n' =>
      {| join_alias := join_name i; join_previous_alias := current |}
        :: join_chain (join_name i) (S i) n'
  end.

Definition lateral_nodes (i n : nat) : list lateral_query :=
  (fun j => {| lateral_alias := lateral_name j |}) <$> seq i n.

Definition where_nodes (i n : nat) : list where_condition :=
  (fun j => {| where_alias := join_name j |}) <$> seq i n.

Lemma presence_loop_spec keys i lq ps :
  presence_loop keys i lq ps = (lq ++ lateral_nodes i (length keys), ps ++ (SStr <$> keys)).
Proof.
  revert i lq ps. induction keys as [|key keys IH]; intros i lq ps; simpl.
  - unfold lateral_nodes. simpl. now rewrite !app_nil_r.
  - rewrite IH. unfold lateral_nodes. simpl. now rewrite <- !app_assoc.
Qed.

Lemma specific_loop_spec items current i js ws ps :
  specific_loop items current i js ws ps =
  (js ++ join_chain current i (length items),
   ws ++ where_nodes i (length items),
   ps ++ flat_map (fun kv => [SStr kv.1; SStr kv.2]) items).
Proof.
  revert current i js ws ps.
  induction items as [|[key v] items IH]; intros current i js ws ps; simpl.
  - unfold where_nodes. simpl. now rewrite !app_nil_r.
  - rewrite IH. unfold where_nodes. simpl. now rewrite <- !app_assoc.
Qed.

Lemma join_name_inj : Inj (=) (=) join_name.
Proof.
  intros i j H. unfold join_name in H.
  apply (inj (String.app _)) in H. now apply (inj pretty) in H.
Qed.

Lemma lateral_name_inj : Inj (=) (=) lateral_name.
Proof.
  intros i j H. unfold lateral_name in H.
  apply (inj (String.app _)) in H. now apply (inj pretty) in H.
Qed.

Lemma join_name_not_lateral i j : join_name i ≠ lateral_name j.
Proof. unfold join_name, lateral_name. simpl. discriminate. Qed.

Lemma join_name_not_candidates i : join_name i ≠ "candidates".
Proof. unfold join_name. simpl. discriminate. Qed.

Lemma lateral_name_not_candidates i : lateral_name i ≠ "candidates".
Proof. unfold lateral_name. simpl. discriminate. Qed.

Definition presence_constraints (m : gmap string tag_value) : gset string :=
  dom (filter (fun kv => kv.2 = ANY) m).

Definition specific_value (v : tag_value) : option string :=
  match v with ANY => None | Specific s => Some s end.

Definition equality_constraints (m : gmap string tag_value) : gmap string string :=
  omap specific_value m.

Lemma partition_tags_lookup (m : gmap string tag_value) :
  (forall k, k ∈ (partition_tags m).1 <-> m !! k = Some ANY)
  /\ (forall k s, (partition_tags m).2 !! k = Some s <-> m !! k = Some (Specific s)).
Proof.
  unfold partition_tags.
  apply (map_fold_weak_ind (fun (acc : gset string * gmap string string) m =>
    (forall k, k ∈ acc.1 <-> m !! k = Some ANY)
    /\ (forall k s, acc.2 !! k = Some s <-> m !! k = Some (Specific s)))).
  - split; intros k; [|intros s]; rewrite lookup_empty; simpl.
    + split; [intros H; now apply not_elem_of_empty in H | discriminate].
    + rewrite lookup_empty. split; discriminate.
  - intros i x m' [pres spec] Hi [Hp Hs]. simpl in *.
    destruct x as [|v]; simpl; split.
    + intros k. rewrite elem_of_union, elem_of_singleton, Hp.
      destruct (decide (k = i)) as [->|Hne].
      * rewrite lookup_insert_eq. split; [reflexivity | now left].
      * rewrite lookup_insert_ne by congruence. split; [intros [?|?]; [congruence|assumption] | now right].
    + intros k s. rewrite Hs.
      destruct (decide (k = i)) as [->|Hne].
      * rewrite lookup_insert_eq, Hi. split; discriminate.
      * now rewrite lookup_insert_ne by congruence.
    + intros k. rewrite Hp.
      destruct (decide (k = i)) as [->|Hne].
      * rewrite lookup_insert_eq, Hi. split; discriminate.
      * now rewrite lookup_insert_ne by congruence.
    + intros k s.
      destruct (decide (k = i)) as [->|Hne].
      * rewrite !lookup_insert_eq. split; congruence.
      * rewrite !lookup_insert_ne by congruence. apply Hs.
Qed.

Lemma partition_tags_constraints m :
  partition_tags m = (presence_constraints m, equality_constraints m).
Proof.
  destruct (partition_tags_lookup m) as [Hp Hs].
  destruct (partition_tags m) as [pres spec]. simpl in *. f_equal.
  - apply set_eq. intros k. rewrite Hp. unfold presence_constraints.
    rewrite elem_of_dom. split.
    + intros Hk. exists ANY. now apply map_lookup_filter_Some.
    + intros [v Hv]. apply map_lookup_filter_Some in Hv as [Hv Hany].
      simpl in Hany. now subst.
  - apply map_eq. intros k. apply option_eq. intros s. rewrite Hs.
    unfold equality_constraints. rewrite lookup_omap.
    destruct (m !! k) as [[|v]|]; simpl; split; congruence.
Qed.

Definition synthesized (cfg : Settings) (queryset : QuerySet value)
    (m : gmap string tag_value) : statement :=
  {| stmt_candidates := skeleton (values queryset ["group_id"; "sort_key"]);
     stmt_joins := join_chain "candidates" 0 (size (equality_constraints m));
     stmt_laterals := lateral_nodes 0 (size (presence_constraints m));
     stmt_where := where_nodes 0 (size (equality_constraints m)) |}.

Lemma synthesize_spec cfg queryset m :
  let qs := values queryset ["group_id"; "sort_key"] in
  synthesize cfg (compile_select (db_table cfg (qs_model qs)) (skeleton qs))
    (queryset_params qs) queryset m =
  (format_statement cfg (synthesized cfg queryset m),
   synthesized cfg queryset m,
   queryset_params (values queryset ["group_id"; "sort_key"])
     ++ (SStr <$> elements (presence_constraints m))
     ++ flat_map (fun kv => [SStr kv.1; SStr kv.2]) (map_to_list (equality_constraints m))).
Proof.
  intros qs. unfold qs, synthesize, synthesized. rewrite partition_tags_constraints.
  rewrite presence_loop_spec, specific_loop_spec.
  rewrite length_map_to_list.
  change (length (elements (presence_constraints m))) with (size (presence_constraints m)).
  rewrite !app_nil_l, <- app_assoc.
  f_equal. f_equal. unfold format_statement. cbn [stmt_where stmt_joins stmt_laterals stmt_candidates].
  f_equal. now destruct (where_nodes 0 (size (equality_constraints m))).
Qed.

Lemma skeleton_environment_queryset project e1 e2 kw name expression fields :
  skeleton (values (extra_select (times_seen_bounds (environment_queryset project e1 kw) kw)
                      name expression) fields)
  = skeleton (values (extra_select (times_seen_bounds (environment_queryset project e2 kw) kw)
                      name expression) fields).
Proof.
  unfold environment_queryset, times_seen_bounds.
  destruct (candidates kw), (age_from kw), (age_to kw), (last_seen_from kw),
    (last_seen_to kw), (times_seen_lower kw), (times_seen_upper kw); reflexivity.
Qed.

(** ** When the candidate query is known to be empty *)

(** The call was given an empty set of candidates. *)
Definition no_candidates (kw : Kwargs) : bool :=
  match candidates kw with
  | Some ids => bool_decide (ids = ∅)
  | None => false
  end.

Lemma no_candidates_false kw : candidates kw <> Some ∅ -> no_candidates kw = false.
Proof.
  unfold no_candidates. intros Hids. destruct (candidates kw) as [ids|]; [|reflexivity].
  apply bool_decide_eq_false. congruence.
Qed.

Lemma matches_nothing_filter_kw (qs : QuerySet value) kwargs :
  matches_nothing (filter_kw qs kwargs)
  = matches_nothing qs || existsb empty_in kwargs.
Proof.
  unfold matches_nothing. cbn [qs_empty qs_clauses filter_kw add_clause].
  rewrite existsb_app. cbn [existsb clause_matches_nothing Q_matches_nothing].
  now rewrite orb_false_r, orb_assoc.
Qed.

Lemma matches_nothing_scalar_filter (qs : QuerySet value) field operator s inclusive :
  matches_nothing (add_scalar_filter qs field operator (VScalar s) inclusive)
  = matches_nothing qs.
Proof.
  unfold add_scalar_filter. rewrite matches_nothing_filter_kw.
  cbn [existsb empty_in snd]. now rewrite !orb_false_r.
Qed.

Lemma matches_nothing_candidates project environment kw name strategy fields :
  matches_nothing
    (values (extra_select (times_seen_bounds (environment_queryset project environment kw) kw)
               name strategy) fields)
  = no_candidates kw.
Proof.
  change (matches_nothing (values (extra_select ?qs name strategy) fields))
    with (matches_nothing qs).
  unfold times_seen_bounds, environment_queryset. cbv zeta.
  repeat match goal with
    | |- matches_nothing (match ?x with Some _ => _ | None => _ end) = _ =>
        destruct x eqn:?
    | |- matches_nothing (add_scalar_filter _ _ _ (VScalar _) _) = _ =>
        rewrite matches_nothing_scalar_filter
    end;
    unfold no_candidates;
    repeat match goal with H : candidates kw = _ |- _ => rewrite H; clear H end;
    rewrite ?matches_nothing_filter_kw; cbn [existsb empty_in snd fst];
    rewrite ?orb_false_r;
    change (matches_nothing (objects MGroupTagValue)) with false; cbn [orb];
    try reflexivity.
  all: change (parse_lookup "group_id__in").2 with LIn.
  all: match goal with
       | |- context [SInt <$> elements ?ids] =>
           destruct (elements ids) as [|id rest] eqn:Hel
       end.
  all: first
    [ apply elements_empty_inv, leibniz_equiv in Hel; subst;
      cbn [fmap list_fmap]; symmetry; now apply bool_decide_eq_true
    | cbn [fmap list_fmap]; symmetry; apply bool_decide_eq_false; intros ->;
      rewrite elements_empty in Hel; discriminate Hel ].
Qed.

Lemma as_nested_sql_candidates cfg project environment kw name strategy fields :
  let qs := values (extra_select
                      (times_seen_bounds (environment_queryset project environment kw) kw)
                      name strategy) fields in
  as_nested_sql cfg qs
  = if no_candidates kw then Raise EmptyResultSet
    else Return (compile_select (db_table cfg (qs_model qs)) (skeleton qs),
                 queryset_params qs).
Proof.
  intros qs. unfold as_nested_sql, qs. now rewrite matches_nothing_candidates.
Qed.

Section SqlText.
Variable sort_value : Type.
Variable sort_value_leb : sort_value -> sort_value -> bool.
Variable eval_sort_expression : string -> GroupTagValue -> sort_value.
Variable cfg : Settings.
Variable db : Database.
Variable project : Project.
Variable environment_id : Z.

Local Abbreviation run :=
  (filter_candidates sort_value sort_value_leb eval_sort_expression
     cfg db project environment_id).

Lemma filter_candidates_executed kw m environment strategy :
  tags kw = Some m -> m !! "environment" = Some environment ->
  times_seen kw = None -> assoc (sort_by kw) sort_strategies = Some strategy ->
  is_postgres cfg = true ->
  candidates kw <> Some ∅ ->
  let queryset :=
    extra_select (times_seen_bounds (environment_queryset project environment kw) kw)
      "sort_key" strategy in
  let s := synthesized cfg queryset (delete "environment" m) in
  let parameters :=
    queryset_params (values queryset ["group_id"; "sort_key"])
      ++ (SStr <$> elements (presence_constraints (delete "environment" m)))
      ++ flat_map (fun kv => [SStr kv.1; SStr kv.2])
           (map_to_list (equality_constraints (delete "environment" m))) in
  executed (run kw) = [{| sent_sql := format_statement cfg s; sent_nodes := s;
                          sent_parameters := parameters |}]
  /\ result (run kw) = cursor_execute sort_value sort_value_leb eval_sort_expression
                         db s parameters.
Proof.
  intros Hm He Hn Hs Hpg Hids. unfold filter_candidates.
  rewrite Hm, He, Hn, Hs, Hpg. cbn [is_not_None].
  rewrite as_nested_sql_candidates, no_candidates_false by assumption.
  rewrite synthesize_spec. split; reflexivity.
Qed.

Lemma filter_candidates_empty_result_set kw m environment :
  tags kw = Some m -> m !! "environment" = Some environment ->
  times_seen kw = None -> is_Some (assoc (sort_by kw) sort_strategies) ->
  is_postgres cfg = true ->
  candidates kw = Some ∅ ->
  result (run kw) = Raise EmptyResultSet /\ executed (run kw) = [].
Proof.
  intros Hm He Hn [strategy Hs] Hpg Hids. unfold filter_candidates.
  rewrite Hm, He, Hn, Hs, Hpg. cbn [is_not_None].
  rewrite as_nested_sql_candidates. unfold no_candidates. rewrite Hids.
  rewrite bool_decide_true by reflexivity. split; reflexivity.
Qed.

Lemma filter_candidates_same_text kw m1 m2 :
  is_Some (m1 !! "environment") -> is_Some (m2 !! "environment") ->
  size (presence_constraints (delete "environment" m1))
    = size (presence_constraints (delete "environment" m2)) ->
  size (equality_constraints (delete "environment" m1))
    = size (equality_constraints (delete "environment" m2)) ->
  sent_sql <$> executed (run (with_tags (Some m1) kw))
  = sent_sql <$> executed (run (with_tags (Some m2) kw)).
Proof.
  intros [e1 He1] [e2 He2] Hp Hq. unfold filter_candidates.
  cbn [tags with_tags times_seen sort_by]. rewrite He1, He2.
  destruct (is_not_None (times_seen kw)); [reflexivity|].
  destruct (assoc (sort_by kw) sort_strategies) as [strategy|]; [|reflexivity].
  destruct (is_postgres cfg); [|reflexivity].
  rewrite !as_nested_sql_candidates.
  change (no_candidates (with_tags (Some m1) kw)) with (no_candidates kw).
  change (no_candidates (with_tags (Some m2) kw)) with (no_candidates kw).
  destruct (no_candidates kw); [reflexivity|].
  rewrite !synthesize_spec. cbn [executed fmap list_fmap sent_sql].
  f_equal. f_equal. unfold synthesized. rewrite Hp, Hq. f_equal.
  apply (skeleton_environment_queryset project e1 e2 kw).
Qed.
End SqlText.

(** ** What the joins, the lateral lookups and the conditions select *)

Lemma assoc_app_notin {A} (a : string) (l1 l2 : list (string * A)) :
  a ∉ l1.*1 -> assoc a (l1 ++ l2) = assoc a l2.
Proof.
  induction l1 as [|[k x] l1 IH]; simpl; intros Hn; [reflexivity|].
  apply not_elem_of_cons in Hn as [Hne Hn].
  destruct (String.eqb_spec a k); [congruence | auto].
Qed.

Lemma assoc_Some_elem {A} (a : string) (l : list (string * A)) x :
  assoc a l = Some x -> (a, x) ∈ l.
Proof.
  induction l as [|[k y] l IH]; simpl; [discriminate|].
  destruct (String.eqb_spec a k) as [->|Hne].
  - intros [= ->]. apply elem_of_cons. now left.
  - intros H. apply elem_of_cons. right. auto.
Qed.

Lemma assoc_NoDup {A} (a : string) (l : list (string * A)) x :
  NoDup l.*1 -> (a, x) ∈ l -> assoc a l = Some x.
Proof.
  induction l as [|[k y] l IH]; simpl; intros Hnd Hin.
  - now apply elem_of_nil in Hin.
  - apply NoDup_cons in Hnd as [Hk Hnd].
    apply elem_of_cons in Hin as [[= -> ->]|Hin].
    + now rewrite String.eqb_refl.
    + destruct (String.eqb_spec a k) as [->|Hne]; [|auto].
      exfalso. apply Hk. apply list_elem_of_fmap. now exists (k, x).
Qed.

Section Joins.
Variable sort_value : Type.
Variable table : list GroupTagValue.
Variable c : candidate_row sort_value.

Definition group_row (t : GroupTagValue) : Prop :=
  t ∈ table /\ tv_group_id t = c_group_id c.

Definition joined (names : list string) (bs : bindings) : Prop :=
  bs.*1 = rev names /\ Forall (fun b => group_row b.2) bs.

Lemma bound_group_id_cons i t e :
  bound_group_id sort_value c ((join_name i, t) :: e) (join_name i) = tv_group_id t.
Proof.
  unfold bound_group_id. simpl assoc.
  destruct (String.eqb_spec (join_name i) "candidates") as [H|_].
  - now apply join_name_not_candidates in H.
  - now rewrite String.eqb_refl.
Qed.

Lemma eval_joins_chain n : forall current i envs e',
  (forall e, e ∈ envs -> bound_group_id sort_value c e current = c_group_id c) ->
  e' ∈ eval_joins sort_value table c (join_chain current i n) envs
  <-> exists e bs, e ∈ envs /\ e' = bs ++ e /\ joined (join_name <$> seq i n) bs.
Proof.
  induction n as [|n IH]; intros current i envs e' Hinv.
  - simpl. split.
    + intros He. exists e', []. repeat split; auto; constructor.
    + intros (e & bs & He & -> & Hbs & _). simpl in Hbs.
      apply fmap_nil_inv in Hbs. now subst.
  - cbn [join_chain eval_joins join_alias join_previous_alias].
    rewrite IH; clear IH.
    + split.
      * intros (e1 & bs1 & He1 & -> & Hn1 & Hf1).
        apply list_elem_of_In, in_flat_map in He1 as (e & He & He1).
        apply in_map_iff in He1 as (t & <- & Ht).
        apply filter_In in Ht as [Ht Hg].
        apply list_elem_of_In in He, Ht.
        rewrite (Hinv e He) in Hg. apply Z.eqb_eq in Hg.
        exists e, (bs1 ++ [(join_name i, t)]). split; [assumption|]. split.
        { now rewrite <- app_assoc. }
        split.
        { rewrite fmap_app, Hn1. simpl. reflexivity. }
        { apply Forall_app. split; [assumption|].
          constructor; [|constructor]. split; simpl; [assumption | congruence]. }
      * intros (e & bs & He & -> & Hn & Hf). simpl in Hn.
        apply fmap_app_inv in Hn as (bs1 & bs2 & Hn1 & Hn2 & ->).
        destruct bs2 as [|[a t] [|? ?]]; try discriminate Hn2.
        simpl in Hn2. injection Hn2 as Ha. subst a.
        apply Forall_app in Hf as [Hf1 Hf2].
        apply Forall_cons in Hf2 as [[Ht Hg] _]. simpl in Ht, Hg.
        exists ((join_name i, t) :: e), bs1. split; [|split].
        { apply list_elem_of_In, in_flat_map. exists e.
          split; [now apply list_elem_of_In|].
          apply in_map_iff. exists t. split; [reflexivity|].
          apply filter_In. split; [now apply list_elem_of_In|].
          rewrite (Hinv e He). apply Z.eqb_eq. congruence. }
        { now rewrite <- app_assoc. }
        { split; [now symmetry | assumption]. }
    + intros e1 He1.
      apply list_elem_of_In, in_flat_map in He1 as (e & He & He1).
      apply in_map_iff in He1 as (t & <- & Ht).
      apply filter_In in Ht as [Ht Hg].
      apply list_elem_of_In in He.
      rewrite (Hinv e He) in Hg. apply Z.eqb_eq in Hg.
      rewrite bound_group_id_cons. congruence.
Qed.

Definition has_key (key : scalar) : Prop :=
  exists t, group_row t /\ SStr (tv_key t) = key.

Definition lateral_aliases (lats : list (lateral_query * scalar)) : list string :=
  (fun lk => lateral_alias lk.1) <$> lats.

Lemma eval_laterals_elim lats : forall envs e',
  e' ∈ eval_laterals sort_value table c lats envs ->
  exists e bs, e ∈ envs /\ e' = bs ++ e /\ bs.*1 = rev (lateral_aliases lats)
               /\ Forall (fun lk => has_key lk.2) lats.
Proof.
  induction lats as [|[l key] lats IH]; intros envs e' He'.
  - exists e', []. repeat split; auto; constructor.
  - cbn [eval_laterals] in He'. apply IH in He' as (e1 & bs1 & He1 & -> & Hn1 & Hf1).
    apply list_elem_of_In, in_flat_map in He1 as (e & He & He1).
    apply in_map_iff in He1 as (t & <- & Ht).
    apply list_elem_of_In, elem_of_take in Ht as (j & Ht & _).
    apply list_elem_of_lookup_2, list_elem_of_In, filter_In in Ht as [Ht Hf].
    apply andb_true_iff in Hf as [Hg Hk].
    apply Z.eqb_eq in Hg. apply bool_decide_eq_true in Hk.
    exists e, (bs1 ++ [(lateral_alias l, t)]). split; [now apply list_elem_of_In|].
    split; [now rewrite <- app_assoc|]. split.
    + rewrite fmap_app, Hn1. reflexivity.
    + constructor; [|assumption]. exists t. repeat split; auto.
      now apply list_elem_of_In.
Qed.

Lemma eval_laterals_intro lats : forall envs e,
  e ∈ envs -> Forall (fun lk => has_key lk.2) lats ->
  exists bs, bs ++ e ∈ eval_laterals sort_value table c lats envs
             /\ bs.*1 = rev (lateral_aliases lats).
Proof.
  induction lats as [|[l key] lats IH]; intros envs e He Hf.
  - exists []. split; [assumption | reflexivity].
  - apply Forall_cons in Hf as [(t0 & [Ht0 Hg0] & Hk0) Hf]. simpl in Hk0.
    cbn [eval_laterals].
    set (f := fun t => Z.eqb (tv_group_id t) (c_group_id c)
                       && bool_decide (SStr (tv_key t) = key)).
    assert (Hin : t0 ∈ List.filter f table).
    { apply list_elem_of_In, filter_In. split; [now apply list_elem_of_In|].
      unfold f. apply andb_true_iff. split;
        [now apply Z.eqb_eq | now apply bool_decide_eq_true]. }
    destruct (List.filter f table) as [|t1 rest] eqn:Hfilter.
    { now apply elem_of_nil in Hin. }
    destruct (IH (flat_map (fun e => map (fun t => (lateral_alias l, t) :: e)
                                        (take 1 (List.filter f table))) envs)
                 ((lateral_alias l, t1) :: e)) as (bs & Hbs & Hn); [|assumption|].
    { apply list_elem_of_In, in_flat_map. exists e.
      split; [now apply list_elem_of_In|]. rewrite Hfilter. simpl. now left. }
    exists (bs ++ [(lateral_alias l, t1)]). split.
    + rewrite <- app_assoc. rewrite Hfilter in Hbs. exact Hbs.
    + rewrite fmap_app, Hn. reflexivity.
Qed.

Definition where_params (cs : list (string * (string * string)))
  : list (where_condition * (scalar * scalar)) :=
  (fun x => ({| where_alias := x.1 |}, (SStr x.2.1, SStr x.2.2))) <$> cs.

Definition satisfied (jb : bindings) (x : string * (string * string)) : Prop :=
  exists t, (x.1, t) ∈ jb /\ tv_key t = x.2.1 /\ tv_value t = x.2.2.

Lemma eval_where_spec cs lb jb :
  (forall x, x ∈ cs -> x.1 ∉ lb.*1) -> NoDup jb.*1 ->
  eval_where (where_params cs) (lb ++ jb) = true <-> Forall (satisfied jb) cs.
Proof.
  intros Hlb Hnd. unfold eval_where, where_params.
  rewrite forallb_forall, Forall_forall. split.
  - intros H x Hx. specialize (H ({| where_alias := x.1 |}, (SStr x.2.1, SStr x.2.2))).
    simpl in H. rewrite assoc_app_notin in H by now apply Hlb.
    destruct (assoc x.1 jb) as [t|] eqn:Ht.
    + apply assoc_Some_elem in Ht.
      assert (Hc : bool_decide (SStr (tv_key t) = SStr x.2.1)
                   && bool_decide (SStr (tv_value t) = SStr x.2.2) = true).
      { apply H. apply list_elem_of_In, list_elem_of_fmap. now exists x. }
      apply andb_true_iff in Hc as [Hk Hv].
      apply bool_decide_eq_true in Hk, Hv. exists t.
      split; [assumption|]. split; congruence.
    + exfalso. assert (false = true); [|discriminate].
      apply H. apply list_elem_of_In, list_elem_of_fmap. now exists x.
  - intros H wc Hwc. apply list_elem_of_In, list_elem_of_fmap in Hwc as (x & -> & Hx).
    simpl. rewrite assoc_app_notin by now apply Hlb.
    destruct (H x Hx) as (t & Ht & Hk & Hv).
    rewrite (assoc_NoDup _ _ _ Hnd Ht). apply andb_true_iff.
    split; apply bool_decide_eq_true; congruence.
Qed.

Definition has_pair (kv : string * string) : Prop :=
  exists t, group_row t /\ tv_key t = kv.1 /\ tv_value t = kv.2.

Lemma joined_satisfied names : forall items,
  length names = length items -> NoDup names ->
  (exists jb, joined names jb /\ Forall (satisfied jb) (zip names items))
  <-> Forall has_pair items.
Proof.
  induction names as [|a names IH]; intros [|kv items] Hlen Hnd;
    try discriminate Hlen.
  - split; [constructor|]. intros _. exists []. repeat split; constructor.
  - injection Hlen as Hlen. apply NoDup_cons in Hnd as [Ha Hnd].
    specialize (IH items Hlen Hnd). split.
    + intros (jb & [Hn Hf] & Hs). simpl in Hn, Hs.
      apply fmap_app_inv in Hn as (jb1 & jb2 & Hn1 & Hn2 & ->).
      destruct jb2 as [|[a' t] [|? ?]]; try discriminate Hn2.
      simpl in Hn2. injection Hn2 as <-.
      apply Forall_cons in Hs as [(t' & Ht' & Hk & Hv) Hs].
      apply Forall_app in Hf as [Hf1 Hf2].
      constructor.
      * exists t'. split; [|now split].
        assert (Hall : Forall (fun b => group_row b.2) (jb1 ++ [(a, t)]))
          by (apply Forall_app; now split).
        rewrite Forall_forall in Hall. apply (Hall (a, t')). assumption.
      * apply IH. exists jb1. split; [split; [now symmetry | assumption]|].
        rewrite Forall_forall in Hs |- *. intros x Hx.
        destruct (Hs x Hx) as (t'' & Ht'' & Hkv).
        exists t''. split; [|assumption].
        apply elem_of_app in Ht'' as [?|Ht'']; [assumption|].
        apply list_elem_of_singleton in Ht''. injection Ht'' as Hxa _.
        exfalso. apply Ha. rewrite <- Hxa.
        destruct x as [x1 x2]. apply elem_of_zip_l in Hx. exact Hx.
    + intros Hf. apply Forall_cons in Hf as [(t & Hrow & Hk & Hv) Hf].
      apply IH in Hf as (jb & [Hn Hrows] & Hs).
      exists (jb ++ [(a, t)]). split; [split|].
      * rewrite fmap_app, Hn. reflexivity.
      * apply Forall_app. split; [assumption|]. constructor; [exact Hrow | constructor].
      * simpl. constructor.
        { exists t. split; [|now split]. apply elem_of_app. right.
          now apply list_elem_of_singleton. }
        { rewrite Forall_forall in Hs |- *. intros x Hx.
          destruct (Hs x Hx) as (t' & Ht' & Hkv). exists t'.
          split; [|assumption]. apply elem_of_app. now left. }
Qed.
End Joins.

(** Binding the parameters of a compiled queryset gives the queryset back. *)
Lemma bind_kwargs_params kwargs rest :
  bind_kwargs (map (fun kw => (kw.1, shape_of kw.2)) kwargs)
    (flat_map (fun kw => value_params kw.2) kwargs ++ rest) = Some (kwargs, rest).
Proof.
  induction kwargs as [|[k [s|l]] kwargs IH]; simpl; [reflexivity| |].
  - rewrite IH. reflexivity.
  - rewrite <- app_assoc. rewrite bool_decide_true by (rewrite length_app; lia).
    rewrite drop_app_length, take_app_length, IH. reflexivity.
Qed.

Lemma bind_Q_params q rest :
  bind_Q (map_Q shape_of q) (Q_params q ++ rest) = Some (q, rest).
Proof.
  revert rest. induction q as [kwargs|a IHa b IHb]; intros rest; simpl.
  - now rewrite bind_kwargs_params.
  - rewrite <- app_assoc, IHa. simpl. now rewrite IHb.
Qed.

Lemma bind_clauses_params cs rest :
  bind_clauses (map (map_clause shape_of) cs) (flat_map clause_params cs ++ rest)
  = Some (cs, rest).
Proof.
  induction cs as [|[q|q] cs IH]; simpl; [reflexivity| |];
    rewrite <- app_assoc, bind_Q_params; simpl; now rewrite IH.
Qed.

Lemma bind_queryset_params qs rest :
  bind_queryset (skeleton qs) (queryset_params qs ++ rest) = Some (qs, rest).
Proof.
  unfold bind_queryset, skeleton, queryset_params, map_queryset.
  cbn [qs_clauses]. rewrite bind_clauses_params. now destruct qs.
Qed.

(** Name resolution succeeds on the synthesized statement. *)
Lemma join_chain_aliases current i n :
  join_alias <$> join_chain current i n = join_name <$> seq i n.
Proof.
  revert current i. induction n as [|n IH]; intros current i; simpl;
    [reflexivity | now rewrite IH].
Qed.

Lemma lateral_nodes_aliases i n :
  lateral_alias <$> lateral_nodes i n = lateral_name <$> seq i n.
Proof. unfold lateral_nodes. rewrite <- list_fmap_compose. reflexivity. Qed.

Lemma synthesized_aliases_NoDup cfg queryset m :
  NoDup (declared_aliases (synthesized cfg queryset m)).
Proof.
  unfold declared_aliases, synthesized. cbn [stmt_joins stmt_laterals].
  change (map join_alias) with (fmap (M:=list) join_alias).
  change (map lateral_alias) with (fmap (M:=list) lateral_alias).
  rewrite join_chain_aliases, lateral_nodes_aliases.
  apply NoDup_cons. split.
  - intros H. apply elem_of_app in H as [H|H];
      apply list_elem_of_fmap in H as (j & H & _); symmetry in H.
    + now apply join_name_not_candidates in H.
    + now apply lateral_name_not_candidates in H.
  - apply NoDup_app. split; [|split].
    + apply (NoDup_fmap_2 _), NoDup_seq.
    + intros a Ha Hb.
      apply list_elem_of_fmap in Ha as (i & -> & _).
      apply list_elem_of_fmap in Hb as (j & Hb & _).
      now apply join_name_not_lateral in Hb.
    + apply (NoDup_fmap_2 _), NoDup_seq.
Qed.

Lemma joins_resolved_chain n : forall known current i,
  current ∈ known -> joins_resolved known (join_chain current i n) = true.
Proof.
  induction n as [|n IH]; intros known current i Hin; simpl; [reflexivity|].
  rewrite bool_decide_true by assumption. simpl. apply IH. apply elem_of_cons. now left.
Qed.

Lemma analyse_synthesized cfg queryset m :
  qs_model queryset = MGroupTagValue ->
  analyse (synthesized cfg queryset m) = true.
Proof.
  intros Hmodel. unfold analyse.
  rewrite bool_decide_true by apply synthesized_aliases_NoDup.
  unfold synthesized at 1 2 3. cbn [stmt_joins stmt_laterals stmt_where stmt_candidates].
  rewrite joins_resolved_chain by (apply elem_of_cons; now left).
  rewrite (bool_decide_true (qs_values _ = _)) by reflexivity.
  rewrite (bool_decide_true (qs_model _ = _)) by exact Hmodel.
  rewrite !andb_true_r, andb_true_l. apply forallb_forall. intros w Hw.
  apply bool_decide_eq_true. apply list_elem_of_In in Hw.
  unfold where_nodes in Hw. apply list_elem_of_fmap in Hw as (j & -> & Hj).
  apply elem_of_app. left.
  change (map join_alias) with (fmap (M:=list) join_alias).
  rewrite join_chain_aliases. apply list_elem_of_fmap. now exists j.
Qed.

(** [ORDER BY] permutes its input and leaves it sorted. *)
Section Ordering.
Variable sort_value : Type.
Variable sort_value_leb : sort_value -> sort_value -> bool.
Hypothesis leb_total : forall a b, sort_value_leb a b = true \/ sort_value_leb b a = true.

Definition descending (a b : candidate_row sort_value) : Prop :=
  sort_value_leb (c_sort_key b) (c_sort_key a) = true.

Lemma insert_desc_perm r l : insert_desc sort_value sort_value_leb r l ≡ₚ r :: l.
Proof.
  induction l as [|x l IH]; simpl; [reflexivity|].
  destruct (sort_value_leb _ _); [reflexivity|].
  rewrite IH. apply Permutation_swap.
Qed.

Lemma order_by_perm l : order_by_sort_key_desc sort_value sort_value_leb l ≡ₚ l.
Proof.
  induction l as [|x l IH]; simpl; [reflexivity|].
  now rewrite insert_desc_perm, IH.
Qed.

Lemma insert_desc_sorted r l :
  Sorted descending l -> Sorted descending (insert_desc sort_value sort_value_leb r l).
Proof.
  induction l as [|x l IH]; simpl; intros Hs.
  - repeat constructor.
  - destruct (sort_value_leb (c_sort_key x) (c_sort_key r)) eqn:Hle.
    + constructor; [assumption|]. constructor. exact Hle.
    + apply Sorted_inv in Hs as [Hs Hhd]. constructor; [auto|].
      assert (Hrx : descending x r).
      { unfold descending. destruct (leb_total (c_sort_key r) (c_sort_key x)); congruence. }
      destruct l as [|y l]; simpl.
      * constructor. exact Hrx.
      * destruct (sort_value_leb (c_sort_key y) (c_sort_key r)).
        { constructor. exact Hrx. }
        { constructor. now apply HdRel_inv in Hhd. }
Qed.

Lemma order_by_sorted l :
  Sorted descending (order_by_sort_key_desc sort_value sort_value_leb l).
Proof.
  induction l as [|x l IH]; simpl; [constructor | now apply insert_desc_sorted].
Qed.
End Ordering.

Lemma pairs_flat_map (items : list (string * string)) :
  pairs (flat_map (fun kv => [SStr kv.1; SStr kv.2]) items)
  = (fun kv => (SStr kv.1, SStr kv.2)) <$> items.
Proof. induction items as [|kv items IH]; simpl; [reflexivity | now rewrite IH]. Qed.

Lemma combine_fmap {A B C D} (f : A -> C) (g : B -> D) (l1 : list A) (l2 : list B) :
  combine (f <$> l1) (g <$> l2) = (fun x => (f x.1, g x.2)) <$> zip l1 l2.
Proof.
  revert l2. induction l1 as [|a l1 IH]; intros [|b l2]; simpl; try reflexivity.
  now rewrite IH.
Qed.

Lemma Forall_combine_snd {A B} (P : B -> Prop) (l1 : list A) (l2 : list B) :
  length l1 = length l2 ->
  Forall (fun x => P x.2) (combine l1 l2) <-> Forall P l2.
Proof.
  revert l2. induction l1 as [|a l1 IH]; intros [|b l2] Hlen; try discriminate Hlen;
    simpl; [split; constructor|].
  injection Hlen as Hlen. rewrite !Forall_cons, IH by assumption. reflexivity.
Qed.

Lemma where_params_zip (f : nat -> string) (l : list nat) (items : list (string * string)) :
  ((fun x : nat * (string * string) =>
      ({| where_alias := f x.1 |}, (SStr x.2.1, SStr x.2.2))) <$> zip l items)
  = where_params (zip (f <$> l) items).
Proof.
  revert items. induction l as [|i l IH]; intros [|kv items]; simpl; try reflexivity.
  unfold where_params in *. simpl. now rewrite IH.
Qed.

Lemma NoDup_rev_stdlib {A} (l : list A) : NoDup l -> NoDup (rev l).
Proof. intros H. now rewrite <- Permutation_rev. Qed.

Section Candidate.
Variable sort_value : Type.
Variable table : list GroupTagValue.
Variable c : candidate_row sort_value.

Definition has_tag (key : string) : Prop :=
  exists t, group_row sort_value table c t /\ tv_key t = key.

Lemma candidate_passes (items : list (string * string)) (keys : list string) :
  (exists e,
      e ∈ eval_laterals sort_value table c
            (combine (lateral_nodes 0 (length keys)) (SStr <$> keys))
            (eval_joins sort_value table c
               (join_chain "candidates" 0 (length items)) [[]])
      /\ eval_where
           (combine (where_nodes 0 (length items))
              (pairs (flat_map (fun kv => [SStr kv.1; SStr kv.2]) items))) e = true)
  <-> Forall (has_pair sort_value table c) items /\ Forall has_tag keys.
Proof.
  rewrite pairs_flat_map. unfold where_nodes. rewrite combine_fmap.
  set (names := join_name <$> seq 0 (length items)).
  set (lats := combine (lateral_nodes 0 (length keys)) (SStr <$> keys)).
  assert (Hwp : ((fun x : nat * (string * string) =>
                    ({| where_alias := join_name x.1 |}, (SStr x.2.1, SStr x.2.2)))
                   <$> zip (seq 0 (length items)) items)
                = where_params (zip names items)).
  { unfold names. apply where_params_zip. }
  rewrite Hwp. clear Hwp.
  assert (Hlen : length names = length items).
  { unfold names. now rewrite length_fmap, length_seq. }
  assert (Hnd : NoDup names).
  { unfold names. apply (NoDup_fmap_2 _), NoDup_seq. }
  assert (Hlats : Forall (fun lk => has_key sort_value table c lk.2) lats
                  <-> Forall has_tag keys).
  { unfold lats. rewrite (Forall_combine_snd (has_key sort_value table c)).
    - rewrite Forall_fmap. apply Forall_iff. intros k. unfold has_key, has_tag, compose.
      split; intros (t & Ht & Hk); exists t; (split; [assumption|congruence]).
    - unfold lateral_nodes. now rewrite !length_fmap, length_seq. }
  assert (Hjoin : forall e,
    e ∈ eval_joins sort_value table c (join_chain "candidates" 0 (length items)) [[]]
    <-> joined sort_value table c names e).
  { intros e. rewrite eval_joins_chain.
    - split.
      + intros (e0 & bs & He0 & -> & Hj). apply list_elem_of_singleton in He0.
        subst e0. now rewrite app_nil_r.
      + intros Hj. exists [], e. split; [now apply list_elem_of_singleton|].
        split; [now rewrite app_nil_r | assumption].
    - intros e0 _. reflexivity. }
  assert (Hfresh : forall lb : bindings, lb.*1 = rev (lateral_aliases lats) ->
                   forall x, x ∈ zip names items -> x.1 ∉ lb.*1).
  { intros lb Hlb [a kv] Hx Hin. simpl in Hin. apply elem_of_zip_l in Hx.
    unfold names in Hx. apply list_elem_of_fmap in Hx as (i & -> & _).
    rewrite Hlb in Hin. apply list_elem_of_In in Hin. apply <- in_rev in Hin.
    apply list_elem_of_In in Hin.
    unfold lateral_aliases, lats in Hin.
    apply list_elem_of_fmap in Hin as ([l key] & Hl & Hin). simpl in Hl.
    apply elem_of_zip_l in Hin. unfold lateral_nodes in Hin.
    apply list_elem_of_fmap in Hin as (j & -> & _).
    simpl in Hl. now apply join_name_not_lateral in Hl. }
  split.
  - intros (e & He & Hw).
    apply eval_laterals_elim in He as (jb & lb & Hjb & -> & Hlb & Hkeys).
    apply Hjoin in Hjb.
    rewrite eval_where_spec in Hw.
    + split; [|now apply Hlats].
      apply (joined_satisfied sort_value table c names items Hlen Hnd).
      now exists jb.
    + now apply Hfresh.
    + destruct Hjb as [-> _]. now apply NoDup_rev_stdlib.
  - intros [Hitems Hkeys].
    apply (joined_satisfied sort_value table c names items Hlen Hnd) in Hitems
      as (jb & Hjb & Hsat).
    destruct (eval_laterals_intro sort_value table c lats
                (eval_joins sort_value table c
                   (join_chain "candidates" 0 (length items)) [[]]) jb)
      as (lb & Hlb & Hn).
    + now apply Hjoin.
    + now apply Hlats.
    + exists (lb ++ jb). split; [assumption|].
      apply eval_where_spec; [now apply Hfresh | | assumption].
      destruct Hjb as [-> _]. now apply NoDup_rev_stdlib.
Qed.
End Candidate.

(** ** The tag intersection *)

Definition in_environment (db : Database) (project : Project) (environment : string)
    (g : Z) : Prop :=
  exists t, t ∈ GroupTagValue_objects db /\ tv_project_id t = project_id project
            /\ tv_group_id t = g /\ tv_key t = "environment" /\ tv_value t = environment.

Definition carries_key (db : Database) (g : Z) (key : string) : Prop :=
  exists t, t ∈ GroupTagValue_objects db /\ tv_group_id t = g /\ tv_key t = key.

Definition carries_pair (db : Database) (g : Z) (key v : string) : Prop :=
  exists t, t ∈ GroupTagValue_objects db /\ tv_group_id t = g
            /\ tv_key t = key /\ tv_value t = v.

Definition plain_environment_queryset (project : Project) (environment : string)
    (ids : gset Z) : QuerySet value :=
  filter_kw
    (filter_kw (objects MGroupTagValue)
       [("project_id", VScalar (SInt (project_id project)));
        ("key", VScalar (SStr "environment"));
        ("value", VScalar (SStr environment))])
    [("group_id__in", VList (SInt <$> elements ids))].

Lemma tagvalue_exact t name column v :
  parse_lookup name = ([name], LExact) ->
  tagvalue_column t name = Some column ->
  eval_lookup (tagvalue_column t) (name, VScalar v) = bool_decide (column = v).
Proof. intros Hp Hc. unfold eval_lookup. cbn [fst snd]. now rewrite Hp, Hc. Qed.

Lemma tagvalue_group_id_in t l :
  eval_lookup (tagvalue_column t) ("group_id__in", VList l)
  = bool_decide (SInt (tv_group_id t) ∈ l).
Proof. reflexivity. Qed.

Lemma plain_environment_matches project environment ids name strategy fields t :
  matches tagvalue_kwargs
    (values (extra_select (plain_environment_queryset project environment ids) name strategy)
       fields) t = true
  <-> tv_project_id t = project_id project /\ tv_key t = "environment"
      /\ tv_value t = environment /\ tv_group_id t ∈ ids.
Proof.
  unfold matches, plain_environment_queryset. simpl.
  rewrite (tagvalue_exact t "project_id" (SInt (tv_project_id t))) by reflexivity.
  rewrite (tagvalue_exact t "key" (SStr (tv_key t))) by reflexivity.
  rewrite (tagvalue_exact t "value" (SStr (tv_value t))) by reflexivity.
  rewrite tagvalue_group_id_in.
  rewrite !andb_true_r, !andb_true_iff, !bool_decide_eq_true.
  assert (Hinj : Inj (=) (=) SInt) by (intros ? ? [=]; assumption).
  rewrite (list_elem_of_fmap_inj SInt).
  rewrite elem_of_elements.
  split.
  - intros [([= ?] & [= ?] & [= ?]) ?]. auto.
  - intros (-> & -> & -> & ?). auto.
Qed.

Lemma equality_constraints_delete (m : gmap string tag_value) key v :
  (key, v) ∈ map_to_list (equality_constraints (delete "environment" m))
  <-> key <> "environment" /\ m !! key = Some (Specific v).
Proof.
  rewrite elem_of_map_to_list.
  destruct (partition_tags_lookup (delete "environment" m)) as [_ H].
  rewrite partition_tags_constraints in H. simpl in H. rewrite H.
  destruct (decide (key = "environment")) as [->|Hne].
  - rewrite lookup_delete_eq. split; [discriminate | now intros [? _]].
  - rewrite lookup_delete_ne by congruence. split; [now split | now intros [_ ?]].
Qed.

Lemma presence_constraints_delete (m : gmap string tag_value) key :
  key ∈ elements (presence_constraints (delete "environment" m))
  <-> key <> "environment" /\ m !! key = Some ANY.
Proof.
  rewrite elem_of_elements.
  destruct (partition_tags_lookup (delete "environment" m)) as [H _].
  rewrite partition_tags_constraints in H. simpl in H. rewrite H.
  destruct (decide (key = "environment")) as [->|Hne].
  - rewrite lookup_delete_eq. split; [discriminate | now intros [? _]].
  - rewrite lookup_delete_ne by congruence. split; [now split | now intros [_ ?]].
Qed.

Lemma elem_of_repeated {A B} (P : B -> bool) (envs : A -> list B) (l : list A) (r : A) :
  r ∈ flat_map (fun c => map (fun _ => c) (List.filter P (envs c))) l
  <-> r ∈ l /\ exists e, e ∈ envs r /\ P e = true.
Proof.
  rewrite list_elem_of_In, in_flat_map. split.
  - intros (c & Hc & Hr). apply in_map_iff in Hr as (e & -> & He).
    apply filter_In in He as [He HP]. split; [now apply list_elem_of_In|].
    exists e. split; [now apply list_elem_of_In | assumption].
  - intros (Hr & e & He & HP). exists r. split; [now apply list_elem_of_In|].
    apply in_map_iff. exists e. split; [reflexivity|]. apply filter_In.
    split; [now apply list_elem_of_In | assumption].
Qed.

Section TagIntersection.
Variable sort_value : Type.
Variable sort_value_leb : sort_value -> sort_value -> bool.
Variable eval_sort_expression : string -> GroupTagValue -> sort_value.
Hypothesis leb_total :
  forall a b, sort_value_leb a b = true \/ sort_value_leb b a = true.
Variable cfg : Settings.
Variable db : Database.
Variable project : Project.
Variable environment_id : Z.

Local Abbreviation run :=
  (filter_candidates sort_value sort_value_leb eval_sort_expression
     cfg db project environment_id).

End TagIntersection.

(** ** Querysets on groups, block by block *)

Lemma matches_add_clause {V R} (ev : R -> list (string * V) -> bool) qs c r :
  matches ev (add_clause qs c) r = matches ev qs r && eval_clause ev r c.
Proof.
  unfold matches. cbn [qs_empty qs_clauses add_clause].
  rewrite forallb_app. simpl. now rewrite andb_true_r, andb_assoc.
Qed.

Lemma matches_none {V R} (ev : R -> list (string * V) -> bool) qs r :
  matches ev (none qs) r = false.
Proof. reflexivity. Qed.

Lemma selects_filter_kw db qs kwargs g :
  selects db (filter_kw qs kwargs) g = selects db qs g && group_kwargs db g kwargs.
Proof. apply matches_add_clause. Qed.

Lemma selects_objects db g : selects db (objects MGroup) g = true.
Proof. reflexivity. Qed.

(** A block of statements is local when it only adds conditions. *)
Definition local (db : Database) (block : QuerySet arg -> QuerySet arg) : Prop :=
  forall qs g, selects db (block qs) g = selects db qs g && selects db (block (objects MGroup)) g.

Lemma local_id db : local db (fun qs => qs).
Proof. intros qs g. now rewrite selects_objects, andb_true_r. Qed.

Lemma local_filter_kw db kwargs : local db (fun qs => filter_kw qs kwargs).
Proof. intros qs g. now rewrite !selects_filter_kw, selects_objects. Qed.

Lemma local_add_clause db c : local db (fun qs => add_clause qs c).
Proof.
  intros qs g. unfold selects. now rewrite !matches_add_clause.
Qed.

Lemma local_compose db f h : local db f -> local db h -> local db (fun qs => h (f qs)).
Proof.
  intros Hf Hh qs g. rewrite Hh, Hf, (Hh (f (objects MGroup))). now rewrite andb_assoc.
Qed.

Ltac local_cases :=
  repeat match goal with
    | |- local _ (fun qs => match ?x with _ => _ end) => destruct x
    | |- local _ (fun qs => if ?x then _ else _) => destruct x
    | |- local _ (fun qs => qs) => apply local_id
    | |- local _ (fun qs => filter_kw qs _) => apply local_filter_kw
    | |- local _ (fun qs => filter_q qs _) => apply local_add_clause
    | |- local _ (fun qs => exclude_kw qs _) => apply local_add_clause
    | |- local _ (fun qs => add_scalar_filter qs _ _ _ _) => apply local_filter_kw
    end.

Section Blocks.
Variable cfg : Settings.
Variable db : Database.
Variable project : Project.
Variable kw : Kwargs.

Lemma local_filter_query : local db (filter_query kw).
Proof. unfold filter_query. local_cases. Qed.

Lemma local_filter_status : local db (filter_status kw).
Proof. unfold filter_status. local_cases. Qed.

Lemma local_filter_bookmarked_by : local db (filter_bookmarked_by project kw).
Proof. unfold filter_bookmarked_by. local_cases. Qed.

Lemma local_filter_assignment : local db (filter_assignment project kw).
Proof. unfold filter_assignment. cbv zeta. local_cases. Qed.

Lemma local_filter_subscribed_by : local db (filter_subscribed_by project kw).
Proof. unfold filter_subscribed_by. local_cases. Qed.

Lemma local_filter_first_release : local db (filter_first_release project kw).
Proof. unfold filter_first_release. local_cases. Qed.

Lemma local_filter_age : local db (filter_age kw).
Proof. unfold filter_age. cbv zeta. local_cases. Qed.

Lemma local_filter_last_seen : local db (filter_last_seen kw).
Proof. unfold filter_last_seen. cbv zeta. local_cases. Qed.

Lemma local_filter_active_at : local db (filter_active_at kw).
Proof. unfold filter_active_at. cbv zeta. local_cases. Qed.

Lemma local_filter_times_seen : local db (filter_times_seen kw).
Proof. unfold filter_times_seen. local_cases. Qed.

Lemma local_filter_times_seen_range : local db (filter_times_seen_range kw).
Proof. unfold filter_times_seen_range. cbv zeta. local_cases. Qed.

Lemma local_filter_date : local db (filter_date cfg db project kw).
Proof. unfold filter_date. local_cases. Qed.
End Blocks.

Section Pipeline.
Variable cfg : Settings.
Variable db : Database.
Variable project : Project.
Variable kw : Kwargs.

(** The ids the tag store matched, when the tags are looked up. *)
Definition tag_matches : option (list Z) :=
  match tags kw with
  | Some t =>
      if truthy t
      then Some (get_group_ids_for_search_filter cfg (project_id project)
                   (environment_id kw) t)
      else None
  | None => None
  end.

(** The call gets past both short-circuits and finds a sort clause. *)
Definition continues : bool :=
  negb (bool_decide (first_release kw = Some EMPTY))
  && negb (bool_decide (tag_matches = Some []))
  && is_not_None (score_clause cfg kw).

Definition tag_restriction (g : Group) : bool :=
  match tag_matches with
  | Some matched => bool_decide (SInt (group_id g) ∈ SInt <$> matched)
  | None => true
  end.

Definition empty : QuerySet arg := objects MGroup.

Lemma selects_range_filters qs g :
  selects db (range_filters cfg db project kw qs) g =
  selects db qs g
  && selects db (filter_age kw empty) g
  && selects db (filter_last_seen kw empty) g
  && selects db (filter_active_at kw empty) g
  && selects db (filter_times_seen kw empty) g
  && selects db (filter_times_seen_range kw empty) g
  && selects db (filter_date cfg db project kw empty) g.
Proof.
  unfold range_filters. cbv zeta.
  rewrite local_filter_date, local_filter_times_seen_range, local_filter_times_seen,
    local_filter_active_at, local_filter_last_seen, local_filter_age.
  reflexivity.
Qed.

Lemma selects_ownership_filters g :
  selects db (ownership_filters project kw) g =
  bool_decide (group_project_id g = project_id project)
  && selects db (filter_query kw empty) g
  && selects db (filter_status kw empty) g
  && selects db (filter_bookmarked_by project kw empty) g
  && selects db (filter_assignment project kw empty) g
  && selects db (filter_subscribed_by project kw empty) g.
Proof.
  unfold ownership_filters. cbv zeta.
  rewrite local_filter_subscribed_by, local_filter_assignment,
    local_filter_bookmarked_by, local_filter_status, local_filter_query.
  do 5 f_equal. rewrite selects_filter_kw.
  change (group_kwargs db g [("project", plain (SInt (project_id project)))])
    with (bool_decide (SInt (group_project_id g) = SInt (project_id project)) && true && true).
  rewrite !andb_true_r. simpl. apply bool_decide_ext. split; congruence.
Qed.

Lemma in_result_build_queryset g :
  in_result db (_build_queryset cfg db project kw) g =
  continues
  && selects db (ownership_filters project kw) g
  && selects db (filter_first_release project kw empty) g
  && tag_restriction g
  && selects db (filter_age kw empty) g
  && selects db (filter_last_seen kw empty) g
  && selects db (filter_active_at kw empty) g
  && selects db (filter_times_seen kw empty) g
  && selects db (filter_times_seen_range kw empty) g
  && selects db (filter_date cfg db project kw empty) g.
Proof.
  unfold _build_queryset, continues, tag_restriction, tag_matches. cbv zeta.
  assert (Hsel : forall qs clause,
            selects db (extra_select (range_filters cfg db project kw qs)
                          "sort_value" clause) g
            = selects db (range_filters cfg db project kw qs) g) by reflexivity.
  pose proof (local_filter_first_release db project kw (ownership_filters project kw) g)
    as Hrel.
  set (base := filter_first_release project kw (ownership_filters project kw)) in *.
  assert (Hgate : truthy (first_release kw) && bool_decide (first_release kw = Some EMPTY)
                  = bool_decide (first_release kw = Some EMPTY)).
  { destruct (first_release kw) as [[|v]|]; [reflexivity| |reflexivity].
    rewrite bool_decide_false by discriminate. apply andb_false_r. }
  rewrite Hgate. clear Hgate.
  destruct (bool_decide (first_release kw = Some EMPTY)); [reflexivity|].
  cbn [negb andb].
  destruct (tags kw) as [t|]; [destruct (truthy t)|].
  - destruct (get_group_ids_for_search_filter cfg (project_id project)
                (environment_id kw) t) as [|id matched] eqn:Hmatched.
    + reflexivity.
    + rewrite bool_decide_false by discriminate. cbn [truthy truthy_list negb andb].
      destruct (score_clause cfg kw) as [clause|]; [|reflexivity].
      cbn [in_result is_not_None andb].
      rewrite Hsel, selects_range_filters, selects_filter_kw, Hrel.
      do 6 f_equal.
      change (group_kwargs db g [("id__in", Plain (VList (SInt <$> id :: matched)))])
        with (bool_decide (SInt (group_id g) ∈ SInt <$> id :: matched) && true && true).
      now rewrite !andb_true_r.
  - rewrite bool_decide_false by discriminate. cbn [negb andb].
    destruct (score_clause cfg kw) as [clause|]; [|reflexivity].
    cbn [in_result is_not_None andb].
    rewrite Hsel, selects_range_filters, Hrel. now rewrite andb_true_r.
  - rewrite bool_decide_false by discriminate. cbn [negb andb].
    destruct (score_clause cfg kw) as [clause|]; [|reflexivity].
    cbn [in_result is_not_None andb].
    rewrite Hsel, selects_range_filters, Hrel. now rewrite andb_true_r.
Qed.
End Pipeline.

(** ** What the comparison lookups mean *)

Definition scalar_Z (s : scalar) : option Z :=
  match s with
  | SInt n => Some n
  | STime t => Some (timestamp t)
  | _ => None
  end.

Definition lower_bound (bound : option Z) (inclusive : bool) (x : Z) : bool :=
  match bound with
  | Some b => if inclusive then Z.leb b x else Z.ltb b x
  | None => true
  end.

Definition upper_bound (bound : option Z) (inclusive : bool) (x : Z) : bool :=
  match bound with
  | Some b => if inclusive then Z.leb x b else Z.ltb x b
  | None => true
  end.

Lemma compare_gt a b : compare_is Gt (Some (Z.compare a b)) = Z.ltb b a.
Proof.
  unfold compare_is, Z.ltb. rewrite (Z.compare_antisym a b).
  destruct (Z.compare a b); reflexivity.
Qed.

Lemma compare_lt a b : compare_is Lt (Some (Z.compare a b)) = Z.ltb a b.
Proof. unfold compare_is, Z.ltb. destruct (Z.compare a b); reflexivity. Qed.

Lemma compare_eq a b : compare_is Eq (Some (Z.compare a b)) = Z.eqb a b.
Proof.
  unfold compare_is. destruct (Z.eqb_spec a b) as [->|Hne].
  - now rewrite Z.compare_refl.
  - destruct (Z.compare a b) eqn:Hc; try reflexivity.
    now apply Z.compare_eq in Hc.
Qed.

Lemma ltb_or_eqb a b : Z.ltb a b || Z.eqb a b = Z.leb a b.
Proof.
  destruct (Z.ltb_spec a b), (Z.eqb_spec a b), (Z.leb_spec a b); simpl; try reflexivity; lia.
Qed.

Lemma gtb_or_eqb a b : Z.ltb b a || Z.eqb a b = Z.leb b a.
Proof.
  destruct (Z.ltb_spec b a), (Z.eqb_spec a b), (Z.leb_spec b a); simpl; try reflexivity; lia.
Qed.

Lemma apply_lookup_time lt (c t : datetime) :
  apply_lookup lt (STime c) (VScalar (STime t)) =
  match lt with
  | LGt => Z.ltb (timestamp t) (timestamp c)
  | LGte => Z.leb (timestamp t) (timestamp c)
  | LLt => Z.ltb (timestamp c) (timestamp t)
  | LLte => Z.leb (timestamp c) (timestamp t)
  | LExact => bool_decide (STime c = STime t)
  | _ => false
  end.
Proof.
  destruct lt; unfold apply_lookup, scalar_compare;
    rewrite ?compare_gt, ?compare_lt, ?compare_eq;
    try reflexivity; [apply gtb_or_eqb | apply ltb_or_eqb].
Qed.

Lemma apply_lookup_int lt (c n : Z) :
  apply_lookup lt (SInt c) (VScalar (SInt n)) =
  match lt with
  | LGt => Z.ltb n c
  | LGte => Z.leb n c
  | LLt => Z.ltb c n
  | LLte => Z.leb c n
  | LExact => bool_decide (SInt c = SInt n)
  | _ => false
  end.
Proof.
  destruct lt; unfold apply_lookup, scalar_compare;
    rewrite ?compare_gt, ?compare_lt, ?compare_eq;
    try reflexivity; [apply gtb_or_eqb | apply ltb_or_eqb].
Qed.

(** ** Lookups on the columns of a group *)

Lemma group_column_lookup db g key name lt column v :
  parse_lookup key = ([name], lt) ->
  group_column g name = Some column ->
  group_lookup db g (key, Plain v) = apply_lookup lt column v.
Proof. intros Hp Hc. unfold group_lookup. cbn [fst snd]. now rewrite Hp, Hc. Qed.

Lemma group_kwargs_columns db g kwargs :
  relation_lookups "bookmark_set" kwargs = [] ->
  relation_lookups "assignee_set" kwargs = [] ->
  relation_lookups "first_release" kwargs = [] ->
  group_kwargs db g kwargs = forallb (group_lookup db g) kwargs.
Proof.
  intros Hb Ha Hr. unfold group_kwargs. cbn [forallb]. unfold group_relation.
  rewrite Hb, Ha, Hr. now rewrite andb_true_r.
Qed.

Ltac eval_columns :=
  rewrite ?selects_filter_kw, ?selects_objects; cbn [app];
  rewrite ?group_kwargs_columns by reflexivity; cbn [forallb];
  repeat (erewrite group_column_lookup by reflexivity);
  unfold plain; repeat (erewrite group_column_lookup by reflexivity);
  rewrite ?apply_lookup_time, ?apply_lookup_int;
  cbn [lower_bound upper_bound andb timestamp]; rewrite ?andb_true_r.

Section RangeBlocks.
Variable db : Database.
Variable kw : Kwargs.
Variable g : Group.

Lemma selects_filter_age :
  selects db (filter_age kw empty) g =
  lower_bound (timestamp <$> age_from kw) (age_from_inclusive kw)
    (timestamp (group_first_seen g))
  && upper_bound (timestamp <$> age_to kw) (age_to_inclusive kw)
       (timestamp (group_first_seen g)).
Proof.
  unfold filter_age, empty. cbv zeta.
  destruct (age_from kw), (age_to kw), (age_from_inclusive kw), (age_to_inclusive kw);
    cbn [orb truthy truthy_optional truthy_datetime fmap option_fmap option_map];
    eval_columns; reflexivity.
Qed.

Lemma selects_filter_last_seen :
  selects db (filter_last_seen kw empty) g =
  lower_bound (timestamp <$> last_seen_from kw) (last_seen_from_inclusive kw)
    (timestamp (group_last_seen g))
  && upper_bound (timestamp <$> last_seen_to kw) (last_seen_to_inclusive kw)
       (timestamp (group_last_seen g)).
Proof.
  unfold filter_last_seen, empty. cbv zeta.
  destruct (last_seen_from kw), (last_seen_to kw), (last_seen_from_inclusive kw),
    (last_seen_to_inclusive kw);
    cbn [orb truthy truthy_optional truthy_datetime fmap option_fmap option_map];
    eval_columns; reflexivity.
Qed.

Lemma selects_filter_active_at :
  selects db (filter_active_at kw empty) g =
  lower_bound (timestamp <$> active_at_from kw) (active_at_from_inclusive kw)
    (timestamp (group_active_at g))
  && upper_bound (timestamp <$> active_at_to kw) (active_at_to_inclusive kw)
       (timestamp (group_active_at g)).
Proof.
  unfold filter_active_at, empty. cbv zeta.
  destruct (active_at_from kw), (active_at_to kw), (active_at_from_inclusive kw),
    (active_at_to_inclusive kw);
    cbn [orb truthy truthy_optional truthy_datetime fmap option_fmap option_map];
    eval_columns; reflexivity.
Qed.

Lemma selects_filter_times_seen_range :
  selects db (filter_times_seen_range kw empty) g =
  lower_bound (times_seen_lower kw) (times_seen_lower_inclusive kw) (group_times_seen g)
  && upper_bound (times_seen_upper kw) (times_seen_upper_inclusive kw)
       (group_times_seen g).
Proof.
  unfold filter_times_seen_range, empty. cbv zeta.
  destruct (times_seen_lower kw), (times_seen_upper kw), (times_seen_lower_inclusive kw),
    (times_seen_upper_inclusive kw);
    cbn [orb is_not_None]; eval_columns; reflexivity.
Qed.

Lemma selects_filter_times_seen :
  selects db (filter_times_seen kw empty) g =
  match times_seen kw with
  | Some n => Z.eqb (group_times_seen g) n
  | None => true
  end.
Proof.
  unfold filter_times_seen, empty. destruct (times_seen kw) as [n|]; [|reflexivity].
  eval_columns. destruct (Z.eqb_spec (group_times_seen g) n) as [->|Hne].
  - now apply bool_decide_eq_true.
  - apply bool_decide_eq_false. congruence.
Qed.

Lemma selects_filter_status :
  selects db (filter_status kw empty) g =
  match status kw with
  | None => negb (bool_decide (SStatus (group_status g) ∈ status_in))
  | Some s => bool_decide (group_status g = s)
  end.
Proof.
  unfold filter_status, empty. destruct (status kw) as [s|].
  - eval_columns. apply bool_decide_ext. split; congruence.
  - unfold exclude_kw, selects. rewrite matches_add_clause. cbn [eval_clause eval_Q].
    rewrite group_kwargs_columns by reflexivity. cbn [forallb].
    erewrite group_column_lookup by reflexivity. simpl. now rewrite andb_true_r.
Qed.
End RangeBlocks.

Lemma lower_bound_boundary inclusive x : lower_bound (Some x) inclusive x = inclusive.
Proof. destruct inclusive; simpl; [apply Z.leb_refl | apply Z.ltb_irrefl]. Qed.

Lemma upper_bound_boundary inclusive x : upper_bound (Some x) inclusive x = inclusive.
Proof. destruct inclusive; simpl; [apply Z.leb_refl | apply Z.ltb_irrefl]. Qed.

(** A bound [b] with its flag is respected at the boundary when a row
    whose column equals the bound is kept exactly when the flag is set. *)
Definition respects_boundary {R B} (result : option B -> bool -> R -> bool)
    (column : R -> B) : Prop :=
  forall inclusive r,
    result (Some (column r)) inclusive r = inclusive && result None inclusive r.

Ltac frame setter :=
  repeat match goal with
    | |- context [?f (setter ?a ?i ?k)] =>
        progress change (f (setter a i k)) with (f k)
    end.

Section Boundaries.
Variable cfg : Settings.
Variable db : Database.
Variable project : Project.
Variable kw : Kwargs.

Local Abbreviation build k := (in_result db (_build_queryset cfg db project k)).

Lemma build_age_from :
  respects_boundary (fun b i => build (with_age_from b i kw)) group_first_seen.
Proof.
  intros inclusive g. rewrite !in_result_build_queryset.
  frame with_age_from. rewrite !selects_filter_age.
  cbn [age_from age_from_inclusive age_to age_to_inclusive with_age_from
       fmap option_fmap option_map].
  rewrite lower_bound_boundary. cbn [lower_bound]. btauto.
Qed.

Lemma build_age_to :
  respects_boundary (fun b i => build (with_age_to b i kw)) group_first_seen.
Proof.
  intros inclusive g. rewrite !in_result_build_queryset.
  frame with_age_to. rewrite !selects_filter_age.
  cbn [age_from age_from_inclusive age_to age_to_inclusive with_age_to
       fmap option_fmap option_map].
  rewrite upper_bound_boundary. cbn [upper_bound]. btauto.
Qed.

Lemma build_last_seen_from :
  respects_boundary (fun b i => build (with_last_seen_from b i kw)) group_last_seen.
Proof.
  intros inclusive g. rewrite !in_result_build_queryset.
  frame with_last_seen_from. rewrite !selects_filter_last_seen.
  cbn [last_seen_from last_seen_from_inclusive last_seen_to last_seen_to_inclusive with_last_seen_from
       fmap option_fmap option_map].
  rewrite lower_bound_boundary. cbn [lower_bound]. btauto.
Qed.

Lemma build_last_seen_to :
  respects_boundary (fun b i => build (with_last_seen_to b i kw)) group_last_seen.
Proof.
  intros inclusive g. rewrite !in_result_build_queryset.
  frame with_last_seen_to. rewrite !selects_filter_last_seen.
  cbn [last_seen_from last_seen_from_inclusive last_seen_to last_seen_to_inclusive with_last_seen_to
       fmap option_fmap option_map].
  rewrite upper_bound_boundary. cbn [upper_bound]. btauto.
Qed.

Lemma build_active_at_from :
  respects_boundary (fun b i => build (with_active_at_from b i kw)) group_active_at.
Proof.
  intros inclusive g. rewrite !in_result_build_queryset.
  frame with_active_at_from. rewrite !selects_filter_active_at.
  cbn [active_at_from active_at_from_inclusive active_at_to active_at_to_inclusive with_active_at_from
       fmap option_fmap option_map].
  rewrite lower_bound_boundary. cbn [lower_bound]. btauto.
Qed.

Lemma build_active_at_to :
  respects_boundary (fun b i => build (with_active_at_to b i kw)) group_active_at.
Proof.
  intros inclusive g. rewrite !in_result_build_queryset.
  frame with_active_at_to. rewrite !selects_filter_active_at.
  cbn [active_at_from active_at_from_inclusive active_at_to active_at_to_inclusive with_active_at_to
       fmap option_fmap option_map].
  rewrite upper_bound_boundary. cbn [upper_bound]. btauto.
Qed.

Lemma build_times_seen_lower :
  respects_boundary (fun b i => build (with_times_seen_lower b i kw)) group_times_seen.
Proof.
  intros inclusive g. rewrite !in_result_build_queryset.
  frame with_times_seen_lower. rewrite !selects_filter_times_seen_range.
  cbn [times_seen_lower times_seen_lower_inclusive times_seen_upper times_seen_upper_inclusive with_times_seen_lower
       fmap option_fmap option_map].
  rewrite lower_bound_boundary. cbn [lower_bound]. btauto.
Qed.

Lemma build_times_seen_upper :
  respects_boundary (fun b i => build (with_times_seen_upper b i kw)) group_times_seen.
Proof.
  intros inclusive g. rewrite !in_result_build_queryset.
  frame with_times_seen_upper. rewrite !selects_filter_times_seen_range.
  cbn [times_seen_lower times_seen_lower_inclusive times_seen_upper times_seen_upper_inclusive with_times_seen_upper
       fmap option_fmap option_map].
  rewrite upper_bound_boundary. cbn [upper_bound]. btauto.
Qed.
End Boundaries.

Definition with_group_status (s : GroupStatus) (g : Group) : Group :=
  {| group_id := group_id g; group_project_id := group_project_id g;
     group_status := s; group_first_seen := group_first_seen g;
     group_last_seen := group_last_seen g; group_active_at := group_active_at g;
     group_times_seen := group_times_seen g; group_message := group_message g;
     group_culprit := group_culprit g; group_first_release := group_first_release g |}.

(** A condition is blind to the status when it cannot tell two groups
    apart that differ in their status only. *)
Definition status_blind (condition : Group -> bool) : Prop :=
  forall s g, condition (with_group_status s g) = condition g.

Section StatusBlind.
Variable cfg : Settings.
Variable db : Database.
Variable project : Project.
Variable kw : Kwargs.

Lemma blind_filter_query : status_blind (selects db (filter_query kw empty)).
Proof.
  intros s g. unfold filter_query.
  destruct (query kw) as [q|]; [destruct (truthy q)|]; reflexivity.
Qed.

Lemma blind_filter_bookmarked_by :
  status_blind (selects db (filter_bookmarked_by project kw empty)).
Proof.
  intros s g. unfold filter_bookmarked_by.
  destruct (bookmarked_by kw) as [u|]; reflexivity.
Qed.

Lemma blind_filter_assignment :
  status_blind (selects db (filter_assignment project kw empty)).
Proof.
  intros s g. unfold filter_assignment.
  destruct (assigned_to kw) as [u|], (unassigned kw) as [b|]; reflexivity.
Qed.

Lemma blind_filter_subscribed_by :
  status_blind (selects db (filter_subscribed_by project kw empty)).
Proof.
  intros s g. unfold filter_subscribed_by.
  destruct (subscribed_by kw) as [u|]; reflexivity.
Qed.

Lemma blind_filter_first_release :
  status_blind (selects db (filter_first_release project kw empty)).
Proof.
  intros s g. unfold filter_first_release.
  destruct (first_release kw) as [[|v]|]; try reflexivity.
  destruct (truthy v); reflexivity.
Qed.

Lemma blind_filter_date :
  status_blind (selects db (filter_date cfg db project kw empty)).
Proof.
  intros s g. unfold filter_date.
  destruct (truthy (date_from kw) || truthy (date_to kw)); [|reflexivity].
  unfold date_restriction. cbv zeta.
  destruct (negb _ || _); reflexivity.
Qed.

Lemma blind_tag_restriction : status_blind (tag_restriction cfg project kw).
Proof.
  intros s g. unfold tag_restriction. now cbn [group_id with_group_status].
Qed.
End StatusBlind.

Definition deletion_or_merge (s : GroupStatus) : bool :=
  bool_decide (s ∈ [PENDING_DELETION; DELETION_IN_PROGRESS; PENDING_MERGE]).

Lemma status_in_deletion_or_merge s :
  bool_decide (SStatus s ∈ status_in) = deletion_or_merge s.
Proof. destruct s; reflexivity. Qed.

Section DefaultStatus.
Variable cfg : Settings.
Variable db : Database.
Variable project : Project.
Variable kw : Kwargs.

Local Abbreviation build k := (in_result db (_build_queryset cfg db project k)).

Lemma build_status_factor g s :
  selects db (filter_status kw empty) (with_group_status s g) = true ->
  build kw g =
  selects db (filter_status kw empty) g && build kw (with_group_status s g).
Proof.
  intros Hs.
  rewrite !in_result_build_queryset, !selects_ownership_filters.
  rewrite !selects_filter_age, !selects_filter_last_seen, !selects_filter_active_at,
    !selects_filter_times_seen, !selects_filter_times_seen_range.
  rewrite (blind_filter_query db kw s g), (blind_filter_bookmarked_by db project kw s g),
    (blind_filter_assignment db project kw s g),
    (blind_filter_subscribed_by db project kw s g),
    (blind_filter_first_release db project kw s g),
    (blind_filter_date cfg db project kw s g),
    (blind_tag_restriction cfg project kw s g).
  cbn [with_group_status group_project_id group_first_seen group_last_seen
       group_active_at group_times_seen].
  rewrite Hs.
  btauto.
Qed.
End DefaultStatus.

(** ** The candidate resolver, block by block *)

Section CandidateBlocks.
Variable db : Database.
Variable project : Project.
Variable kw : Kwargs.

Definition candidate_assignment (queryset : QuerySet arg) : QuerySet arg :=
  match assigned_to kw with
  | Some u =>
      filter_kw queryset
        [("assignee_set__project", plain (SInt (project_id project)));
         ("assignee_set__user", plain (SInt (user_id u)))]
  | None => queryset
  end.

Definition candidate_unassigned (queryset : QuerySet arg) : QuerySet arg :=
  match unassigned kw with
  | Some b => filter_kw queryset [("assignee_set__isnull", plain (SBool b))]
  | None => queryset
  end.

Definition candidate_active_at (queryset : QuerySet arg) : QuerySet arg :=
  let queryset :=
    match active_at_from kw with
    | Some t => add_scalar_filter queryset "active_at" "gt" (plain (STime t))
                  (active_at_from_inclusive kw)
    | None => queryset
    end in
  match active_at_to kw with
  | Some t => add_scalar_filter queryset "active_at" "lt" (plain (STime t))
                (active_at_to_inclusive kw)
  | None => queryset
  end.

Definition candidate_filters : QuerySet arg :=
  candidate_active_at
    (filter_subscribed_by project kw
       (candidate_unassigned
          (candidate_assignment
             (filter_bookmarked_by project kw
                (filter_status kw
                   (filter_query kw
                      (filter_kw (objects MGroup)
                         [("project", plain (SInt (project_id project)))]))))))).

Lemma find_candidates_queryset_spec :
  find_candidates_queryset project kw =
  if is_not_None (assigned_to kw) && is_not_None (unassigned kw)
  then Raise AssertionError
  else if is_not_None (first_release kw) then Raise NotImplementedError
  else Return candidate_filters.
Proof.
  unfold find_candidates_queryset, candidate_filters, candidate_active_at,
    candidate_unassigned, candidate_assignment.
  destruct (assigned_to kw), (unassigned kw), (first_release kw); reflexivity.
Qed.

Lemma local_candidate_assignment : local db candidate_assignment.
Proof. unfold candidate_assignment. local_cases. Qed.

Lemma local_candidate_unassigned : local db candidate_unassigned.
Proof. unfold candidate_unassigned. local_cases. Qed.

Lemma local_candidate_active_at : local db candidate_active_at.
Proof.
  unfold candidate_active_at. cbv zeta.
  destruct (active_at_from kw), (active_at_to kw); unfold add_scalar_filter;
    intros qs g; rewrite ?selects_filter_kw, ?selects_objects, ?andb_true_r;
    cbn [andb]; rewrite ?andb_assoc; reflexivity.
Qed.

Lemma selects_candidate_active_at g :
  selects db (candidate_active_at empty) g =
  lower_bound (timestamp <$> active_at_from kw) (active_at_from_inclusive kw)
    (timestamp (group_active_at g))
  && upper_bound (timestamp <$> active_at_to kw) (active_at_to_inclusive kw)
       (timestamp (group_active_at g)).
Proof.
  unfold candidate_active_at, add_scalar_filter, empty. cbv zeta.
  destruct (active_at_from kw), (active_at_to kw), (active_at_from_inclusive kw),
    (active_at_to_inclusive kw);
    cbn [fmap option_fmap option_map]; eval_columns; reflexivity.
Qed.

(** The call returns a queryset: no assertion fails and no release
    is asked for. *)
Definition resolves : bool :=
  negb (is_not_None (assigned_to kw) && is_not_None (unassigned kw))
  && negb (is_not_None (first_release kw)).

Lemma in_result_find_candidates g :
  in_result db (find_candidates_queryset project kw) g =
  resolves
  && bool_decide (group_project_id g = project_id project)
  && selects db (filter_query kw empty) g
  && selects db (filter_status kw empty) g
  && selects db (filter_bookmarked_by project kw empty) g
  && selects db (candidate_assignment empty) g
  && selects db (candidate_unassigned empty) g
  && selects db (filter_subscribed_by project kw empty) g
  && selects db (candidate_active_at empty) g.
Proof.
  rewrite find_candidates_queryset_spec. unfold resolves.
  destruct (is_not_None (assigned_to kw) && is_not_None (unassigned kw)); [reflexivity|].
  destruct (is_not_None (first_release kw)); [reflexivity|].
  cbn [negb andb in_result]. unfold candidate_filters.
  rewrite local_candidate_active_at, local_filter_subscribed_by,
    local_candidate_unassigned, local_candidate_assignment,
    local_filter_bookmarked_by, local_filter_status, local_filter_query.
  do 7 f_equal. rewrite selects_filter_kw.
  change (group_kwargs db g [("project", plain (SInt (project_id project)))])
    with (bool_decide (SInt (group_project_id g) = SInt (project_id project)) && true && true).
  rewrite !andb_true_r. simpl. apply bool_decide_ext. split; congruence.
Qed.

Lemma blind_candidate_assignment : status_blind (selects db (candidate_assignment empty)).
Proof.
  intros s g. unfold candidate_assignment. destruct (assigned_to kw); reflexivity.
Qed.

Lemma blind_candidate_unassigned : status_blind (selects db (candidate_unassigned empty)).
Proof.
  intros s g. unfold candidate_unassigned. destruct (unassigned kw); reflexivity.
Qed.

Lemma find_candidates_status_factor g s :
  selects db (filter_status kw empty) (with_group_status s g) = true ->
  in_result db (find_candidates_queryset project kw) g =
  selects db (filter_status kw empty) g
  && in_result db (find_candidates_queryset project kw) (with_group_status s g).
Proof.
  intros Hs. rewrite !in_result_find_candidates, !selects_candidate_active_at.
  rewrite (blind_filter_query db kw s g), (blind_filter_bookmarked_by db project kw s g),
    (blind_candidate_assignment s g), (blind_candidate_unassigned s g),
    (blind_filter_subscribed_by db project kw s g).
  cbn [with_group_status group_project_id group_active_at].
  rewrite Hs. btauto.
Qed.
End CandidateBlocks.

Section CandidateBoundaries.
Variable db : Database.
Variable project : Project.
Variable kw : Kwargs.

Local Abbreviation candidates_of k :=
  (in_result db (find_candidates_queryset project k)).

Lemma find_candidates_active_at_from :
  respects_boundary (fun b i => candidates_of (with_active_at_from b i kw))
    group_active_at.
Proof.
  intros inclusive g. rewrite !in_result_find_candidates.
  frame with_active_at_from. rewrite !selects_candidate_active_at.
  cbn [active_at_from active_at_from_inclusive active_at_to active_at_to_inclusive
       with_active_at_from fmap option_fmap option_map].
  rewrite lower_bound_boundary. cbn [lower_bound]. btauto.
Qed.

Lemma find_candidates_active_at_to :
  respects_boundary (fun b i => candidates_of (with_active_at_to b i kw))
    group_active_at.
Proof.
  intros inclusive g. rewrite !in_result_find_candidates.
  frame with_active_at_to. rewrite !selects_candidate_active_at.
  cbn [active_at_from active_at_from_inclusive active_at_to active_at_to_inclusive
       with_active_at_to fmap option_fmap option_map].
  rewrite upper_bound_boundary. cbn [upper_bound]. btauto.
Qed.
End CandidateBoundaries.

(** ** [add_scalar_filter] on the rows of the tag store *)

Lemma tagvalue_scalar_filter (qs : QuerySet value) t field operator v
    (inclusive : bool) lt column :
  parse_lookup (field +:+ "__" +:+ operator +:+ (if inclusive then "e" else ""))
    = ([field], lt) ->
  tagvalue_column t field = Some column ->
  matches tagvalue_kwargs (add_scalar_filter qs field operator (VScalar v) inclusive) t
  = matches tagvalue_kwargs qs t && apply_lookup lt column (VScalar v).
Proof.
  intros Hp Hc. unfold add_scalar_filter, filter_kw. rewrite matches_add_clause.
  f_equal. cbn [eval_clause eval_Q]. unfold tagvalue_kwargs. cbn [forallb].
  unfold eval_lookup. cbn [fst snd]. rewrite Hp, Hc. apply andb_true_r.
Qed.

Lemma tag_time_lower (qs : QuerySet value) t field bound inclusive column :
  parse_lookup (field +:+ "__" +:+ "gt" +:+ "e") = ([field], LGte) ->
  parse_lookup (field +:+ "__" +:+ "gt" +:+ "") = ([field], LGt) ->
  tagvalue_column t field = Some (STime column) ->
  matches tagvalue_kwargs
    match bound with
    | Some b => add_scalar_filter qs field "gt" (VScalar (STime b)) inclusive
    | None => qs
    end t
  = matches tagvalue_kwargs qs t
    && lower_bound (timestamp <$> bound) inclusive (timestamp column).
Proof.
  intros He Hn Hc. destruct bound as [b|]; [|now rewrite andb_true_r].
  destruct inclusive; erewrite tagvalue_scalar_filter by eassumption;
    now rewrite apply_lookup_time.
Qed.

Lemma tag_time_upper (qs : QuerySet value) t field bound inclusive column :
  parse_lookup (field +:+ "__" +:+ "lt" +:+ "e") = ([field], LLte) ->
  parse_lookup (field +:+ "__" +:+ "lt" +:+ "") = ([field], LLt) ->
  tagvalue_column t field = Some (STime column) ->
  matches tagvalue_kwargs
    match bound with
    | Some b => add_scalar_filter qs field "lt" (VScalar (STime b)) inclusive
    | None => qs
    end t
  = matches tagvalue_kwargs qs t
    && upper_bound (timestamp <$> bound) inclusive (timestamp column).
Proof.
  intros He Hn Hc. destruct bound as [b|]; [|now rewrite andb_true_r].
  destruct inclusive; erewrite tagvalue_scalar_filter by eassumption;
    now rewrite apply_lookup_time.
Qed.

Lemma tag_int_lower (qs : QuerySet value) t field bound inclusive column :
  parse_lookup (field +:+ "__" +:+ "gt" +:+ "e") = ([field], LGte) ->
  parse_lookup (field +:+ "__" +:+ "gt" +:+ "") = ([field], LGt) ->
  tagvalue_column t field = Some (SInt column) ->
  matches tagvalue_kwargs
    match bound with
    | Some b => add_scalar_filter qs field "gt" (VScalar (SInt b)) inclusive
    | None => qs
    end t
  = matches tagvalue_kwargs qs t && lower_bound bound inclusive column.
Proof.
  intros He Hn Hc. destruct bound as [b|]; [|now rewrite andb_true_r].
  destruct inclusive; erewrite tagvalue_scalar_filter by eassumption;
    now rewrite apply_lookup_int.
Qed.

Lemma tag_int_upper (qs : QuerySet value) t field bound inclusive column :
  parse_lookup (field +:+ "__" +:+ "lt" +:+ "e") = ([field], LLte) ->
  parse_lookup (field +:+ "__" +:+ "lt" +:+ "") = ([field], LLt) ->
  tagvalue_column t field = Some (SInt column) ->
  matches tagvalue_kwargs
    match bound with
    | Some b => add_scalar_filter qs field "lt" (VScalar (SInt b)) inclusive
    | None => qs
    end t
  = matches tagvalue_kwargs qs t && upper_bound bound inclusive column.
Proof.
  intros He Hn Hc. destruct bound as [b|]; [|now rewrite andb_true_r].
  destruct inclusive; erewrite tagvalue_scalar_filter by eassumption;
    now rewrite apply_lookup_int.
Qed.

(** The environment rows among the candidates, before the range filters. *)
Definition environment_rows (project : Project) (environment : tag_value)
    (kw : Kwargs) : QuerySet value :=
  let queryset :=
    filter_kw (objects MGroupTagValue)
      [("project_id", VScalar (SInt (project_id project)));
       ("key", VScalar (SStr "environment"));
       ("value", VScalar (tag_scalar environment))] in
  match candidates kw with
  | Some ids => filter_kw queryset [("group_id__in", VList (SInt <$> elements ids))]
  | None => queryset
  end.

(** The queryset the statement is compiled from, without its sort key. *)
Definition tag_queryset (project : Project) (environment : tag_value) (kw : Kwargs)
  : QuerySet value :=
  times_seen_bounds (environment_queryset project environment kw) kw.

Section TagRanges.
Variable project : Project.
Variable environment : tag_value.
Variable kw : Kwargs.
Variable t : GroupTagValue.

Lemma matches_tag_queryset :
  matches tagvalue_kwargs (tag_queryset project environment kw) t =
  matches tagvalue_kwargs (environment_rows project environment kw) t
  && lower_bound (timestamp <$> age_from kw) (age_from_inclusive kw)
       (timestamp (tv_first_seen t))
  && upper_bound (timestamp <$> age_to kw) (age_to_inclusive kw)
       (timestamp (tv_first_seen t))
  && lower_bound (timestamp <$> last_seen_from kw) (last_seen_from_inclusive kw)
       (timestamp (tv_last_seen t))
  && upper_bound (timestamp <$> last_seen_to kw) (last_seen_to_inclusive kw)
       (timestamp (tv_last_seen t))
  && lower_bound (times_seen_lower kw) (times_seen_lower_inclusive kw) (tv_times_seen t)
  && upper_bound (times_seen_upper kw) (times_seen_upper_inclusive kw) (tv_times_seen t).
Proof.
  unfold tag_queryset, times_seen_bounds, environment_queryset. cbv zeta.
  fold (environment_rows project environment kw).
  rewrite (tag_int_upper _ t "times_seen" _ _ (tv_times_seen t)) by reflexivity.
  rewrite (tag_int_lower _ t "times_seen" _ _ (tv_times_seen t)) by reflexivity.
  rewrite (tag_time_upper _ t "last_seen" _ _ (tv_last_seen t)) by reflexivity.
  rewrite (tag_time_lower _ t "last_seen" _ _ (tv_last_seen t)) by reflexivity.
  rewrite (tag_time_upper _ t "first_seen" _ _ (tv_first_seen t)) by reflexivity.
  rewrite (tag_time_lower _ t "first_seen" _ _ (tv_first_seen t)) by reflexivity.
  reflexivity.
Qed.
End TagRanges.

Section TagBoundaries.
Variable project : Project.
Variable environment : tag_value.
Variable kw : Kwargs.

Local Abbreviation rows_of k :=
  (matches tagvalue_kwargs (tag_queryset project environment k)).

Ltac tag_boundary setter lemma :=
  intros inclusive t; rewrite !matches_tag_queryset;
  frame setter;
  cbn [age_from age_from_inclusive age_to age_to_inclusive
       last_seen_from last_seen_from_inclusive last_seen_to last_seen_to_inclusive
       times_seen_lower times_seen_lower_inclusive
       times_seen_upper times_seen_upper_inclusive
       with_age_from with_age_to with_last_seen_from with_last_seen_to
       with_times_seen_lower with_times_seen_upper
       fmap option_fmap option_map];
  rewrite lemma; cbn [lower_bound upper_bound]; btauto.

Lemma tag_rows_age_from :
  respects_boundary (fun b i => rows_of (with_age_from b i kw)) tv_first_seen.
Proof. tag_boundary with_age_from lower_bound_boundary. Qed.

Lemma tag_rows_age_to :
  respects_boundary (fun b i => rows_of (with_age_to b i kw)) tv_first_seen.
Proof. tag_boundary with_age_to upper_bound_boundary. Qed.

Lemma tag_rows_last_seen_from :
  respects_boundary (fun b i => rows_of (with_last_seen_from b i kw)) tv_last_seen.
Proof. tag_boundary with_last_seen_from lower_bound_boundary. Qed.

Lemma tag_rows_last_seen_to :
  respects_boundary (fun b i => rows_of (with_last_seen_to b i kw)) tv_last_seen.
Proof. tag_boundary with_last_seen_to upper_bound_boundary. Qed.

Lemma tag_rows_times_seen_lower :
  respects_boundary (fun b i => rows_of (with_times_seen_lower b i kw)) tv_times_seen.
Proof. tag_boundary with_times_seen_lower lower_bound_boundary. Qed.

Lemma tag_rows_times_seen_upper :
  respects_boundary (fun b i => rows_of (with_times_seen_upper b i kw)) tv_times_seen.
Proof. tag_boundary with_times_seen_upper upper_bound_boundary. Qed.
End TagBoundaries.

(** ** [add_scalar_filter] at the boundary *)

Definition ordered (s : scalar) : bool :=
  match s with SInt _ | STime _ => true | _ => false end.

Lemma apply_lookup_boundary (inclusive : bool) (c : scalar) :
  ordered c = true ->
  apply_lookup (if inclusive then LGte else LGt) c (VScalar c) = inclusive
  /\ apply_lookup (if inclusive then LLte else LLt) c (VScalar c) = inclusive.
Proof.
  destruct c; try discriminate; intros _; destruct inclusive;
    rewrite ?apply_lookup_int, ?apply_lookup_time;
    auto using Z.leb_refl, Z.ltb_irrefl.
Qed.

Definition group_scalar_fields : list string :=
  ["first_seen"; "last_seen"; "active_at"; "times_seen"].

Definition tagvalue_scalar_fields : list string :=
  ["first_seen"; "last_seen"; "times_seen"].

Lemma add_scalar_filter_group db qs g field c (inclusive : bool) :
  field ∈ group_scalar_fields -> group_column g field = Some c ->
  selects db (add_scalar_filter qs field "gt" (plain c) inclusive) g
    = selects db qs g && inclusive
  /\ selects db (add_scalar_filter qs field "lt" (plain c) inclusive) g
    = selects db qs g && inclusive.
Proof.
  intros Hf Hc. unfold add_scalar_filter. rewrite !selects_filter_kw.
  assert (Hord : ordered c = true).
  { unfold group_scalar_fields in Hf.
    repeat (apply elem_of_cons in Hf as [->|Hf]; [injection Hc as <-; reflexivity|]).
    now apply elem_of_nil in Hf. }
  destruct (apply_lookup_boundary inclusive c Hord) as [Hlow Hup].
  unfold group_scalar_fields in Hf.
  repeat (apply elem_of_cons in Hf as [->|Hf];
    [destruct inclusive; (split; f_equal;
       rewrite group_kwargs_columns by reflexivity; cbn [forallb]; unfold plain;
       erewrite group_column_lookup by (eassumption || reflexivity);
       rewrite andb_true_r; assumption)|]).
  now apply elem_of_nil in Hf.
Qed.

Lemma add_scalar_filter_tagvalue (qs : QuerySet value) t field c (inclusive : bool) :
  field ∈ tagvalue_scalar_fields -> tagvalue_column t field = Some c ->
  matches tagvalue_kwargs (add_scalar_filter qs field "gt" (VScalar c) inclusive) t
    = matches tagvalue_kwargs qs t && inclusive
  /\ matches tagvalue_kwargs (add_scalar_filter qs field "lt" (VScalar c) inclusive) t
    = matches tagvalue_kwargs qs t && inclusive.
Proof.
  intros Hf Hc.
  assert (Hord : ordered c = true).
  { unfold tagvalue_scalar_fields in Hf.
    repeat (apply elem_of_cons in Hf as [->|Hf]; [injection Hc as <-; reflexivity|]).
    now apply elem_of_nil in Hf. }
  destruct (apply_lookup_boundary inclusive c Hord) as [Hlow Hup].
  unfold tagvalue_scalar_fields in Hf.
  repeat (apply elem_of_cons in Hf as [->|Hf];
    [destruct inclusive; (split;
       erewrite tagvalue_scalar_filter by (eassumption || reflexivity);
       f_equal; assumption)|]).
  now apply elem_of_nil in Hf.
Qed.

(** ** The short-circuits of [_build_queryset] *)

Ltac frame1 setter :=
  repeat match goal with
    | |- context [?f (setter ?a ?k)] =>
        progress change (f (setter a k)) with (f k)
    end.

Section ShortCircuits.
Variable cfg : Settings.
Variable db : Database.
Variable project : Project.
Variable kw : Kwargs.

Lemma build_empty_release :
  first_release kw = Some EMPTY ->
  _build_queryset cfg db project kw = Return (none (ownership_filters project kw)).
Proof. intros Hr. unfold _build_queryset. now rewrite Hr. Qed.

Lemma build_no_tag_matches t :
  first_release kw <> Some EMPTY ->
  tags kw = Some t -> truthy t = true ->
  get_group_ids_for_search_filter cfg (project_id project) (environment_id kw) t = [] ->
  _build_queryset cfg db project kw
  = Return (none (filter_first_release project kw (ownership_filters project kw))).
Proof.
  intros Hr Ht Htruthy Hm. unfold _build_queryset.
  rewrite (bool_decide_false _ Hr), andb_false_r, Ht, Htruthy, Hm. reflexivity.
Qed.

Lemma build_tag_matches t g :
  first_release kw <> Some EMPTY ->
  tags kw = Some t -> truthy t = true ->
  get_group_ids_for_search_filter cfg (project_id project) (environment_id kw) t <> [] ->
  in_result db (_build_queryset cfg db project kw) g
  = bool_decide
      (group_id g ∈ get_group_ids_for_search_filter cfg (project_id project)
                      (environment_id kw) t)
    && in_result db (_build_queryset cfg db project (with_tags None kw)) g.
Proof.
  intros Hr Ht Htruthy Hm. rewrite !in_result_build_queryset.
  unfold continues, tag_restriction, tag_matches.
  cbn [tags with_tags first_release environment_id].
  rewrite Ht, Htruthy.
  rewrite (bool_decide_false (Some _ = Some [])) by congruence.
  rewrite (bool_decide_false (None = Some [])) by discriminate.
  frame1 with_tags.
  assert (Hin : bool_decide
                  (SInt (group_id g)
                     ∈ SInt <$> get_group_ids_for_search_filter cfg (project_id project)
                                  (environment_id kw) t)
                = bool_decide
                    (group_id g ∈ get_group_ids_for_search_filter cfg
                                    (project_id project) (environment_id kw) t)).
  { assert (Hinj : Inj (=) (=) SInt) by (intros ? ? [=]; assumption).
    apply bool_decide_ext. apply (list_elem_of_fmap_inj SInt). }
  rewrite Hin. btauto.
Qed.
End ShortCircuits.

(** ** The date window *)

Lemma event_column_lookup e key name lt column v :
  parse_lookup key = ([name], lt) ->
  event_column e name = Some column ->
  eval_lookup (event_column e) (key, v) = apply_lookup lt column v.
Proof. intros Hp Hc. unfold eval_lookup. cbn [fst snd]. now rewrite Hp, Hc. Qed.

Lemma event_kwargs_app e l1 l2 :
  event_kwargs e (l1 ++ l2) = event_kwargs e l1 && event_kwargs e l2.
Proof. apply forallb_app. Qed.

(** The events of the project inside the window, with the free text
    applied to their message when there is one. *)
Definition in_window (project : Project) (kw : Kwargs) (e : Event) : bool :=
  Z.eqb (event_project_id e) (project_id project)
  && lower_bound (timestamp <$> date_from kw) (date_from_inclusive kw)
       (timestamp (event_datetime e))
  && upper_bound (timestamp <$> date_to kw) (date_to_inclusive kw)
       (timestamp (event_datetime e))
  && match query kw with
     | Some q => if truthy q then icontains (event_message e) q else true
     | None => true
     end.

Section DateWindow.
Variable cfg : Settings.
Variable db : Database.
Variable project : Project.
Variable kw : Kwargs.

Lemma matches_event_group_ids e :
  matches event_kwargs (event_group_ids project kw) e = in_window project kw e.
Proof.
  unfold event_group_ids, in_window. cbv zeta.
  change (matches event_kwargs (slice_to (values (distinct ?q) ?f) ?n) e)
    with (matches event_kwargs q e).
  assert (Hproject :
    eval_lookup (event_column e) ("project_id", VScalar (SInt (project_id project)))
    = Z.eqb (event_project_id e) (project_id project)).
  { erewrite event_column_lookup by reflexivity. cbn [apply_lookup].
    destruct (Z.eqb_spec (event_project_id e) (project_id project)) as [->|Hne].
    - now apply bool_decide_eq_true.
    - apply bool_decide_eq_false. congruence. }
  assert (Hfilter : forall qs kwargs,
    matches event_kwargs (filter_kw qs kwargs) e
    = matches event_kwargs qs e && event_kwargs e kwargs).
  { intros qs kwargs. unfold filter_kw. now rewrite matches_add_clause. }
  assert (Hobjects : matches event_kwargs (objects MEvent) e = true) by reflexivity.
  destruct (query kw) as [q|]; [destruct (truthy q)|];
    destruct (date_from kw) as [t0|], (date_to kw) as [t1|],
      (date_from_inclusive kw), (date_to_inclusive kw);
    rewrite !Hfilter, Hobjects;
    cbn [fmap option_fmap option_map lower_bound upper_bound app andb];
    unfold event_kwargs; cbn [forallb]; rewrite Hproject;
    repeat (erewrite event_column_lookup by reflexivity);
    rewrite ?apply_lookup_time; cbn [apply_lookup];
    rewrite ?andb_true_r, ?andb_assoc; reflexivity.
Qed.

(** The identifier set derived from the [Event] table. *)
Definition window_ids : list scalar := evaluate db (event_group_ids project kw).

Lemma event_group_ids_shape :
  qs_model (event_group_ids project kw) = MEvent
  /\ qs_distinct (event_group_ids project kw) = true
  /\ qs_high_mark (event_group_ids project kw) = Some 1000%nat
  /\ qs_values (event_group_ids project kw) = ["group_id"].
Proof.
  unfold event_group_ids. cbv zeta.
  destruct (query kw) as [q|]; [destruct (truthy q)|]; repeat split; reflexivity.
Qed.

Lemma window_ids_spec :
  window_ids =
  take 1000 (remove_dups
               ((fun e => SInt (event_group_id e))
                  <$> List.filter (in_window project kw) (Event_objects db))).
Proof.
  destruct event_group_ids_shape as (Hmodel & Hdistinct & Hmark & Hvalues).
  unfold window_ids, evaluate. rewrite Hmodel.
  unfold select_values. rewrite Hdistinct, Hmark, Hvalues.
  f_equal. f_equal.
  rewrite (filter_ext _ _ matches_event_group_ids).
  generalize (List.filter (in_window project kw) (Event_objects db)) as l.
  induction l as [|x l IH]; [reflexivity|].
  cbn [omap list_omap fmap list_fmap].
  change (event_column x (hd "" ["group_id"])) with (Some (SInt (event_group_id x))).
  cbv iota beta. now f_equal.
Qed.

Lemma window_ids_bounded : (length window_ids <= 1000)%nat.
Proof. rewrite window_ids_spec, length_take. lia. Qed.

Lemma window_ids_distinct : NoDup window_ids.
Proof.
  rewrite window_ids_spec. eapply sublist_NoDup; [|apply sublist_take].
  apply NoDup_remove_dups.
Qed.

Lemma window_ids_sound x :
  x ∈ window_ids ->
  exists e, e ∈ Event_objects db /\ x = SInt (event_group_id e)
            /\ in_window project kw e = true.
Proof.
  rewrite window_ids_spec. intros Hx.
  apply elem_of_take in Hx as (i & Hx & _).
  apply list_elem_of_lookup_2, elem_of_remove_dups, list_elem_of_fmap in Hx
    as (e & -> & He).
  apply list_elem_of_In, filter_In in He as [He Hw].
  exists e. split; [now apply list_elem_of_In|]. now split.
Qed.

Lemma date_restriction_materialized :
  db_for_read cfg MGroup <> db_for_read cfg MEvent
  \/ startswith (engine cfg) "mysql" = true ->
  date_restriction cfg db project kw = Plain (VList window_ids).
Proof.
  intros H. unfold date_restriction. cbv zeta.
  destruct (String.eqb_spec (db_for_read cfg MGroup) (db_for_read cfg MEvent)) as [Heq|Hne];
    cbn [negb orb]; [|reflexivity].
  destruct H as [H|H]; [contradiction|]. now rewrite H.
Qed.

Lemma selects_filter_date g :
  selects db (filter_date cfg db project kw empty) g =
  if truthy (date_from kw) || truthy (date_to kw)
  then bool_decide (SInt (group_id g) ∈ window_ids)
  else true.
Proof.
  unfold filter_date. destruct (truthy (date_from kw) || truthy (date_to kw));
    [|reflexivity].
  unfold empty. rewrite selects_filter_kw, selects_objects.
  rewrite group_kwargs_columns by reflexivity. cbn [forallb andb].
  unfold date_restriction. cbv zeta.
  destruct (negb _ || _); rewrite andb_true_r; reflexivity.
Qed.
End DateWindow.

(** * The claims *)

Lemma Zleb_total (a b : Z) : Z.leb a b = true \/ Z.leb b a = true.
Proof.
  destruct (Z.leb_spec a b); [left; reflexivity | right; apply Z.leb_le; lia].
Defined.

Example example_search_result :
  result (filter_candidates Z Z.leb example_sort_value postgres example_database
            example_project 1 example_search) = Return [2; 1].
Proof. vm_compute. reflexivity. Qed.

Example default_query_result :
  group_id <$> List.filter
    (in_result example_database
       (_build_queryset postgres example_database example_project defaults))
    (Group_objects example_database) = [1; 2; 4].
Proof. vm_compute. reflexivity. Qed.

(** ** C9 *)

(** C9. [filter_candidates] needs the key ['environment'] in the
    caller's [tags] mapping and removes it from that mapping: after
    every call the entry is gone and every other entry is unchanged; a
    mapping without the key makes the call raise [KeyError] before any
    statement is sent to the database. *)
Theorem filter_candidates_pops_environment
    (sort_value : Type) (sort_value_leb : sort_value -> sort_value -> bool)
    (eval_sort_expression : string -> GroupTagValue -> sort_value)
    (cfg : Settings) (db : Database) (project : Project) (environment_id : Z)
    (kw : Kwargs) (m : gmap string tag_value) :
  tags kw = Some m ->
  let c := filter_candidates sort_value sort_value_leb eval_sort_expression
             cfg db project environment_id kw in
  tags_after c = Some (delete "environment" m)
  /\ delete "environment" m !! "environment" = None
  /\ (forall key, key <> "environment" -> delete "environment" m !! key = m !! key)
  /\ (m !! "environment" = None -> result c = Raise KeyError /\ executed c = []).
Proof.
  intros Hm c. split; [now apply filter_candidates_tags_after|].
  split; [apply lookup_delete_eq|]. split.
  - intros key Hne. apply lookup_delete_ne. congruence.
  - intros He. now apply (filter_candidates_missing_environment _ _ _ _ _ _ _ kw m).
Qed.

Lemma filter_candidates_pops_environment_witness :
  tags example_search = Some example_tags
  /\ tags_after (filter_candidates Z Z.leb example_sort_value postgres example_database
                   example_project 1 example_search)
     = Some (delete "environment" example_tags).
Proof.
  split; [reflexivity|].
  apply (filter_candidates_pops_environment Z Z.leb example_sort_value postgres
           example_database example_project 1 example_search example_tags).
  reflexivity.
Defined.

(** ** C10 *)

(** C10, as amended.  For every call of [filter_candidates] whose
    [tags] mapping contains ['environment'] and whose exact [times_seen]
    is not [None], the call fails with [AttributeError] and no statement
    is sent to the database. *)
Theorem filter_candidates_exact_times_seen
    (sort_value : Type) (sort_value_leb : sort_value -> sort_value -> bool)
    (eval_sort_expression : string -> GroupTagValue -> sort_value)
    (cfg : Settings) (db : Database) (project : Project) (environment_id : Z)
    (kw : Kwargs) (m : gmap string tag_value) (n : Z) :
  tags kw = Some m -> is_Some (m !! "environment") -> times_seen kw = Some n ->
  let c := filter_candidates sort_value sort_value_leb eval_sort_expression
             cfg db project environment_id kw in
  result c = Raise AttributeError /\ executed c = [].
Proof. intros Hm He Hn c. now apply (filter_candidates_times_seen _ _ _ _ _ _ _ kw m n). Qed.

Lemma filter_candidates_exact_times_seen_witness :
  result (filter_candidates Z Z.leb example_sort_value postgres example_database
            example_project 1 (with_times_seen (Some 5) example_search))
  = Raise AttributeError.
Proof.
  apply (filter_candidates_exact_times_seen Z Z.leb example_sort_value postgres
           example_database example_project 1
           (with_times_seen (Some 5) example_search) example_tags 5).
  - reflexivity.
  - exists (Specific "prod"). reflexivity.
  - reflexivity.
Defined.

(** With a [tags] mapping that lacks ['environment'] the call fails with
    [KeyError], not with [AttributeError], although [times_seen] is 5. *)
Lemma filter_candidates_exact_times_seen_key_error :
  times_seen (with_times_seen (Some 5) (with_tags (Some ∅) defaults)) = Some 5
  /\ result (filter_candidates Z Z.leb example_sort_value postgres example_database
              example_project 1 (with_times_seen (Some 5) (with_tags (Some ∅) defaults)))
     = Raise KeyError
  /\ result (filter_candidates Z Z.leb example_sort_value postgres example_database
              example_project 1 (with_times_seen (Some 5) (with_tags (Some ∅) defaults)))
     <> Raise AttributeError.
Proof. split; [reflexivity|]. split; [reflexivity | discriminate]. Qed.

(** ** C8 *)




(** ** C2 *)

Lemma filter_assignment_ignores_unassigned project kw u queryset :
  assigned_to kw = Some u ->
  filter_assignment project kw queryset
  = filter_assignment project (with_unassigned None kw) queryset.
Proof.
  intros Hu. unfold filter_assignment. cbn [assigned_to unassigned with_unassigned].
  now rewrite Hu.
Qed.

(** C2, at the failing input [assigned_to = user 7, unassigned = True].
    [_build_queryset] raises nothing: it returns the queryset it returns
    without [unassigned], which selects the issue assigned to user 7;
    [find_candidates] fails its assertion on the same arguments. *)
Theorem build_queryset_ignores_unassigned :
  _build_queryset postgres example_database example_project conflicting_assignment
  = _build_queryset postgres example_database example_project
      (with_unassigned None conflicting_assignment)
  /\ returned (_build_queryset postgres example_database example_project
                 conflicting_assignment) = true
  /\ group_id <$> List.filter
       (in_result example_database
          (_build_queryset postgres example_database example_project
             conflicting_assignment))
       (Group_objects example_database) = [2]
  /\ find_candidates_queryset example_project conflicting_assignment
     = Raise AssertionError.
Proof. repeat split; vm_compute; reflexivity. Qed.

(** ** C3 *)

Lemma environment_parameters project e kw name expression fields :
  exists rest,
    queryset_params
      (values (extra_select (times_seen_bounds (environment_queryset project e kw) kw)
                 name expression) fields)
    = SInt (project_id project) :: SStr "environment" :: tag_scalar e :: rest.
Proof.
  unfold environment_queryset, times_seen_bounds.
  destruct (candidates kw), (age_from kw), (age_to kw), (last_seen_from kw),
    (last_seen_to kw), (times_seen_lower kw), (times_seen_upper kw);
    eexists; reflexivity.
Qed.

(** C3. The text of the statement [filter_candidates] sends depends on
    the shape of the tag constraints only: two calls that differ in
    their [tags] but have as many presence constraints and as many
    equality constraints send the same text.  The environment value,
    every tag key and every tag value are among the parameters of the
    statement. *)
Theorem statement_text_ignores_values
    (sort_value : Type) (sort_value_leb : sort_value -> sort_value -> bool)
    (eval_sort_expression : string -> GroupTagValue -> sort_value)
    (cfg : Settings) (db : Database) (project : Project) (environment_id : Z)
    (kw : Kwargs) (m1 m2 : gmap string tag_value) :
  is_Some (m1 !! "environment") -> is_Some (m2 !! "environment") ->
  size (presence_constraints (delete "environment" m1))
    = size (presence_constraints (delete "environment" m2)) ->
  size (equality_constraints (delete "environment" m1))
    = size (equality_constraints (delete "environment" m2)) ->
  let c1 := filter_candidates sort_value sort_value_leb eval_sort_expression
              cfg db project environment_id (with_tags (Some m1) kw) in
  let c2 := filter_candidates sort_value sort_value_leb eval_sort_expression
              cfg db project environment_id (with_tags (Some m2) kw) in
  sent_sql <$> executed c1 = sent_sql <$> executed c2
  /\ forall x, x ∈ executed c1 ->
       sent_sql x = format_statement cfg (sent_nodes x)
       /\ (forall e, m1 !! "environment" = Some e -> tag_scalar e ∈ sent_parameters x)
       /\ (forall key, key <> "environment" -> is_Some (m1 !! key) ->
             SStr key ∈ sent_parameters x)
       /\ (forall key v, key <> "environment" -> m1 !! key = Some (Specific v) ->
             SStr v ∈ sent_parameters x).
Proof.
  intros He1 He2 Hp Hq c1 c2.
  split; [now apply filter_candidates_same_text|].
  intros x Hx. destruct He1 as [e1 He1]. unfold c1, filter_candidates in Hx.
  cbn [tags with_tags times_seen sort_by] in Hx. rewrite He1 in Hx.
  destruct (is_not_None (times_seen kw)); [now apply elem_of_nil in Hx|].
  destruct (assoc (sort_by kw) sort_strategies) as [strategy|];
    [|now apply elem_of_nil in Hx].
  destruct (is_postgres cfg); [|now apply elem_of_nil in Hx].
  rewrite as_nested_sql_candidates in Hx.
  destruct (no_candidates (with_tags (Some m1) kw)); [now apply elem_of_nil in Hx|].
  rewrite synthesize_spec in Hx. cbn [executed] in Hx.
  apply list_elem_of_singleton in Hx. subst x. cbn [sent_sql sent_nodes sent_parameters].
  split; [reflexivity|].
  destruct (environment_parameters project e1 (with_tags (Some m1) kw)
              "sort_key" strategy ["group_id"; "sort_key"]) as [rest Hps].
  rewrite Hps. split; [|split].
  - intros e He. rewrite He1 in He. injection He as <-.
    do 2 (apply elem_of_cons; right). apply elem_of_cons. now left.
  - intros key Hne [v Hv]. apply elem_of_app. right.
    destruct v as [|s].
    + apply elem_of_app. left. apply list_elem_of_fmap. exists key.
      split; [reflexivity|]. apply presence_constraints_delete. now split.
    + apply elem_of_app. right. apply list_elem_of_In, in_flat_map.
      exists (key, s). split; [|now left].
      apply list_elem_of_In, equality_constraints_delete. now split.
  - intros key v Hne Hv. apply elem_of_app. right. apply elem_of_app. right.
    apply list_elem_of_In, in_flat_map. exists (key, v). split; [|right; now left].
    apply list_elem_of_In, equality_constraints_delete. now split.
Qed.

Lemma statement_text_ignores_values_witness :
  sent_sql <$> executed
    (filter_candidates Z Z.leb example_sort_value postgres example_database
       example_project 1 (with_tags (Some example_tags) example_search))
  = sent_sql <$> executed
      (filter_candidates Z Z.leb example_sort_value postgres example_database
         example_project 1 (with_tags (Some other_tags) example_search)).
Proof.
  apply (statement_text_ignores_values Z Z.leb example_sort_value postgres
           example_database example_project 1 example_search example_tags other_tags).
  - exists (Specific "prod"). reflexivity.
  - exists (Specific "staging"). reflexivity.
  - vm_compute. reflexivity.
  - vm_compute. reflexivity.
Defined.

(** ** C4 *)

(** [add_scalar_filter] with the operators [gt] and [lt] keeps a row
    whose column equals the bound exactly when the flag is set. *)
Definition group_filter_respects_flag (db : Database) (g : Group) (field : string)
    (column : scalar) : Prop :=
  forall (qs : QuerySet arg) (inclusive : bool),
    selects db (add_scalar_filter qs field "gt" (plain column) inclusive) g
      = selects db qs g && inclusive
    /\ selects db (add_scalar_filter qs field "lt" (plain column) inclusive) g
      = selects db qs g && inclusive.

Definition tagvalue_filter_respects_flag (t : GroupTagValue) (field : string)
    (column : scalar) : Prop :=
  forall (qs : QuerySet value) (inclusive : bool),
    matches tagvalue_kwargs (add_scalar_filter qs field "gt" (VScalar column) inclusive) t
      = matches tagvalue_kwargs qs t && inclusive
    /\ matches tagvalue_kwargs (add_scalar_filter qs field "lt" (VScalar column) inclusive) t
      = matches tagvalue_kwargs qs t && inclusive.


Example age_from_inclusive_example :
  in_result example_database
    (_build_queryset postgres example_database example_project
       (with_age_from (Some (at_ 10)) true defaults))
    (issue 1 UNRESOLVED 10 20 3) = true
  /\ in_result example_database
       (_build_queryset postgres example_database example_project
          (with_age_from (Some (at_ 10)) false defaults))
       (issue 1 UNRESOLVED 10 20 3) = false.
Proof. split; vm_compute; reflexivity. Qed.

(** ** C5 *)


(** ** C6 *)



(** ** C7 *)

(** C7. The identifiers derived from the [Event] table are at most 1000,
    are distinct, and each is the group of an event of the project
    inside the window whose message contains the free text when there is
    one.  When [Group] and [Event] are read from different databases, or
    the engine is MySQL, the restriction handed to [id__in] is the
    evaluated list of these identifiers; in every case a window makes
    the queryset select the issues whose id is among them. *)
Theorem date_window (cfg : Settings) (db : Database) (project : Project) (kw : Kwargs) :
  let ids := window_ids db project kw in
  (length ids <= 1000)%nat
  /\ NoDup ids
  /\ (forall x, x ∈ ids ->
        exists e, e ∈ Event_objects db /\ x = SInt (event_group_id e)
                  /\ in_window project kw e = true)
  /\ (db_for_read cfg MGroup <> db_for_read cfg MEvent
      \/ startswith (engine cfg) "mysql" = true ->
      date_restriction cfg db project kw = Plain (VList ids))
  /\ (truthy (date_from kw) || truthy (date_to kw) = true ->
      forall qs g,
        filter_date cfg db project kw qs
          = filter_kw qs [("id__in", date_restriction cfg db project kw)]
        /\ selects db (filter_date cfg db project kw qs) g
           = selects db qs g && bool_decide (SInt (group_id g) ∈ ids)).
Proof.
  intros ids. split; [apply window_ids_bounded|]. split; [apply window_ids_distinct|].
  split; [apply window_ids_sound|]. split; [apply date_restriction_materialized|].
  intros Hwindow qs g. split.
  - unfold filter_date. now rewrite Hwindow.
  - rewrite local_filter_date, selects_filter_date, Hwindow. reflexivity.
Qed.

Lemma date_window_witness :
  date_restriction mysql example_database example_project window_search
  = Plain (VList (window_ids example_database example_project window_search))
  /\ window_ids example_database example_project window_search = [SInt 2; SInt 1].
Proof.
  split.
  - apply (date_window mysql example_database example_project window_search).
    right. reflexivity.
  - vm_compute. reflexivity.
Defined.

(** ** C1 *)



(** * Further properties of the search backends *)

(** ** What each filter of a [Group] queryset means *)

Definition text_matches (kw : Kwargs) (g : Group) : bool :=
  match query kw with
  | Some q =>
      if truthy q
      then icontains (group_message g) q || icontains (group_culprit g) q
      else true
  | None => true
  end.

(** A row of a membership table that links the group to the user in
    the project. *)
Definition links (project : Project) (u : User) (g : Group) (m : Membership) : bool :=
  Z.eqb (m_group_id m) (group_id g)
  && Z.eqb (m_project_id m) (project_id project)
  && Z.eqb (m_user_id m) (user_id u).

Definition bookmark_matches (db : Database) (project : Project) (kw : Kwargs)
    (g : Group) : bool :=
  match bookmarked_by kw with
  | Some u => existsb (links project u g) (GroupBookmark_objects db)
  | None => true
  end.

Definition has_assignee (db : Database) (g : Group) : bool :=
  existsb (fun m => Z.eqb (m_group_id m) (group_id g)) (GroupAssignee_objects db).

Definition assignment_matches (db : Database) (project : Project) (kw : Kwargs)
    (g : Group) : bool :=
  match assigned_to kw, unassigned kw with
  | Some u, _ => existsb (links project u g) (GroupAssignee_objects db)
  | None, Some b => Bool.eqb b (negb (has_assignee db g))
  | None, None => true
  end.

Definition subscription_matches (db : Database) (project : Project) (kw : Kwargs)
    (g : Group) : bool :=
  match subscribed_by kw with
  | Some u =>
      existsb (fun m => links project u g m && m_is_active m)
        (GroupSubscription_objects db)
  | None => true
  end.

Definition release_matches (project : Project) (kw : Kwargs) (g : Group) : bool :=
  match first_release kw with
  | Some (Version v) =>
      if truthy v then
        match group_first_release g with
        | Some r => Z.eqb (release_organization_id r) (organization_id project)
                    && String.eqb (release_version r) v
        | None => false
        end
      else true
  | _ => true
  end.

Lemma bool_decide_SInt a b : bool_decide (SInt a = SInt b) = Z.eqb a b.
Proof.
  destruct (Z.eqb_spec a b) as [->|Hne].
  - now apply bool_decide_eq_true.
  - apply bool_decide_eq_false. congruence.
Qed.

Lemma bool_decide_SStr a b : bool_decide (SStr a = SStr b) = String.eqb a b.
Proof.
  destruct (String.eqb_spec a b) as [->|Hne].
  - now apply bool_decide_eq_true.
  - apply bool_decide_eq_false. congruence.
Qed.

Lemma bool_decide_SBool a b : bool_decide (SBool a = SBool b) = Bool.eqb a b.
Proof. destruct a, b; reflexivity. Qed.

Lemma existsb_fmap_filter {A B} (f : A -> B) (p : A -> bool) (q : B -> bool) (l : list A) :
  existsb q (f <$> List.filter p l) = existsb (fun a => p a && q (f a)) l.
Proof.
  induction l as [|a l IH]; [reflexivity|]. cbn [List.filter existsb].
  destruct (p a); [rewrite fmap_cons; cbn [existsb andb]|cbn [andb orb]]; now rewrite IH.
Qed.

Lemma selects_filter_query db kw g :
  selects db (filter_query kw empty) g = text_matches kw g.
Proof.
  unfold filter_query, text_matches, empty.
  destruct (query kw) as [q|]; [|reflexivity].
  destruct (truthy q); [|reflexivity].
  unfold filter_q, selects. rewrite matches_add_clause.
  cbn [eval_clause eval_Q]. rewrite !group_kwargs_columns by reflexivity.
  cbn [forallb]. unfold plain.
  erewrite !group_column_lookup by reflexivity.
  cbn [apply_lookup]. now rewrite !andb_true_r.
Qed.

Lemma eval_membership_row db (m : Membership) a b :
  forallb
    (fun sub : string * lookup_type * arg =>
       match membership_column m sub.1.1 with
       | Some c => eval_arg db sub.1.2 c sub.2
       | None => false
       end)
    [("project", LExact, plain (SInt a)); ("user", LExact, plain (SInt b))]
  = Z.eqb (m_project_id m) a && Z.eqb (m_user_id m) b.
Proof.
  cbn [forallb fst snd]. unfold plain.
  change (membership_column m "project") with (Some (SInt (m_project_id m))).
  change (membership_column m "user") with (Some (SInt (m_user_id m))).
  cbn [eval_arg apply_lookup]. now rewrite !bool_decide_SInt, andb_true_r.
Qed.

Ltac membership_kwargs :=
  unfold group_kwargs; cbn [forallb]; unfold group_lookup, group_relation;
  cbn [fst snd];
  repeat match goal with
    | |- context [parse_lookup ?k] =>
        let r := eval vm_compute in (parse_lookup k) in
        change (parse_lookup k) with r
    | |- context [relation_lookups ?r ?k] =>
        let v := eval cbv in (relation_lookups r k) in
        change (relation_lookups r k) with v
    end.

Lemma related_bookmark_set db g :
  related db g "bookmark_set"
  = Some (membership_column <$>
            List.filter (fun m => Z.eqb (m_group_id m) (group_id g))
              (GroupBookmark_objects db)).
Proof. reflexivity. Qed.

Lemma related_assignee_set db g :
  related db g "assignee_set"
  = Some (membership_column <$>
            List.filter (fun m => Z.eqb (m_group_id m) (group_id g))
              (GroupAssignee_objects db)).
Proof. reflexivity. Qed.

Lemma related_first_release db g :
  related db g "first_release"
  = Some (release_column <$> option_list (group_first_release g)).
Proof. reflexivity. Qed.

Lemma existsb_ext_eq {A} (f h : A -> bool) (l : list A) :
  (forall a, f a = h a) -> existsb f l = existsb h l.
Proof. intros Hfh. induction l as [|a l IH]; simpl; [reflexivity|]. now rewrite Hfh, IH. Qed.

Lemma group_kwargs_bookmark_rows db g a b :
  group_kwargs db g
    [("bookmark_set__project", plain (SInt a)); ("bookmark_set__user", plain (SInt b))]
  = existsb (fun m => Z.eqb (m_group_id m) (group_id g)
                      && (Z.eqb (m_project_id m) a && Z.eqb (m_user_id m) b))
      (GroupBookmark_objects db).
Proof.
  membership_kwargs. cbv beta iota.
  rewrite related_bookmark_set. cbn [is_not_None andb default]. unfold id.
  rewrite andb_true_r, existsb_fmap_filter.
  apply existsb_ext_eq. intros m.
  fold (plain (SInt a)). fold (plain (SInt b)).
  now rewrite eval_membership_row.
Qed.

Lemma group_kwargs_bookmark db project u g :
  group_kwargs db g
    [("bookmark_set__project", plain (SInt (project_id project)));
     ("bookmark_set__user", plain (SInt (user_id u)))]
  = existsb (links project u g) (GroupBookmark_objects db).
Proof.
  rewrite group_kwargs_bookmark_rows. apply existsb_ext_eq. intros m.
  unfold links. now rewrite andb_assoc.
Qed.

Lemma group_kwargs_assignee_rows db g a b :
  group_kwargs db g
    [("assignee_set__project", plain (SInt a)); ("assignee_set__user", plain (SInt b))]
  = existsb (fun m => Z.eqb (m_group_id m) (group_id g)
                      && (Z.eqb (m_project_id m) a && Z.eqb (m_user_id m) b))
      (GroupAssignee_objects db).
Proof.
  membership_kwargs. cbv beta iota.
  rewrite related_assignee_set. cbn [is_not_None andb default]. unfold id.
  rewrite andb_true_r, existsb_fmap_filter.
  apply existsb_ext_eq. intros m.
  fold (plain (SInt a)). fold (plain (SInt b)).
  now rewrite eval_membership_row.
Qed.

Lemma group_kwargs_assignee db project u g :
  group_kwargs db g
    [("assignee_set__project", plain (SInt (project_id project)));
     ("assignee_set__user", plain (SInt (user_id u)))]
  = existsb (links project u g) (GroupAssignee_objects db).
Proof.
  rewrite group_kwargs_assignee_rows. apply existsb_ext_eq. intros m.
  unfold links. now rewrite andb_assoc.
Qed.

Lemma is_nil_fmap_filter {A B} (f : A -> B) (p : A -> bool) (l : list A) :
  is_nil (f <$> List.filter p l) = negb (existsb p l).
Proof.
  induction l as [|a l IH]; [reflexivity|]. cbn [List.filter existsb].
  destruct (p a); [reflexivity|]. exact IH.
Qed.

Lemma group_kwargs_isnull db g b :
  group_kwargs db g [("assignee_set__isnull", plain (SBool b))]
  = Bool.eqb b (negb (has_assignee db g)).
Proof.
  membership_kwargs. cbv beta iota.
  change (group_column g "assignee_set") with (@None scalar). cbv beta iota.
  rewrite related_assignee_set. unfold plain. cbv beta iota.
  rewrite is_nil_fmap_filter. cbn [andb]. now rewrite !andb_true_r.
Qed.

Lemma selects_filter_bookmarked_by db project kw g :
  selects db (filter_bookmarked_by project kw empty) g = bookmark_matches db project kw g.
Proof.
  unfold filter_bookmarked_by, bookmark_matches, empty.
  destruct (bookmarked_by kw) as [u|]; [|reflexivity].
  cbn [truthy truthy_user]. rewrite selects_filter_kw, selects_objects.
  apply group_kwargs_bookmark.
Qed.

Lemma selects_filter_assignment db project kw g :
  selects db (filter_assignment project kw empty) g = assignment_matches db project kw g.
Proof.
  unfold filter_assignment, assignment_matches, empty. cbv zeta.
  destruct (assigned_to kw) as [u|].
  - cbn [truthy truthy_user]. rewrite selects_filter_kw, selects_objects.
    apply group_kwargs_assignee.
  - destruct (unassigned kw) as [b|]; [|reflexivity].
    rewrite selects_filter_kw, selects_objects. apply group_kwargs_isnull.
Qed.

Lemma selects_candidate_assignment db project kw g :
  selects db (candidate_assignment project kw empty) g
  = match assigned_to kw with
    | Some u => existsb (links project u g) (GroupAssignee_objects db)
    | None => true
    end.
Proof.
  unfold candidate_assignment, empty. destruct (assigned_to kw) as [u|]; [|reflexivity].
  rewrite selects_filter_kw, selects_objects. apply group_kwargs_assignee.
Qed.

Lemma selects_candidate_unassigned db kw g :
  selects db (candidate_unassigned kw empty) g
  = match unassigned kw with
    | Some b => Bool.eqb b (negb (has_assignee db g))
    | None => true
    end.
Proof.
  unfold candidate_unassigned, empty. destruct (unassigned kw) as [b|]; [|reflexivity].
  rewrite selects_filter_kw, selects_objects. apply group_kwargs_isnull.
Qed.

Lemma elem_of_omap_filter {A} (f : A -> option scalar) (p : A -> bool) (l : list A) x :
  bool_decide (x ∈ omap f (List.filter p l))
  = existsb (fun a => p a && bool_decide (f a = Some x)) l.
Proof.
  induction l as [|a l IH]; [reflexivity|]. cbn [List.filter existsb].
  destruct (p a) eqn:Hp; cbn [andb orb]; [|exact IH].
  cbn [omap list_omap]. destruct (f a) as [y|] eqn:Hf.
  - destruct (decide (y = x)) as [->|Hne].
    + rewrite (bool_decide_true (Some x = Some x)) by reflexivity.
      apply bool_decide_eq_true, elem_of_cons. now left.
    + rewrite (bool_decide_false (Some y = Some x)) by congruence.
      cbn [orb]. rewrite <- IH. apply bool_decide_ext.
      rewrite elem_of_cons. split; [intros [?|?]; [congruence|assumption] | now right].
  - rewrite (bool_decide_false (None = Some x)) by discriminate. exact IH.
Qed.

Lemma subscription_row project u (m : Membership) :
  matches membership_kwargs
    (values
       (filter_kw (objects MGroupSubscription)
          [("project", VScalar (SInt (project_id project)));
           ("user", VScalar (SInt (user_id u)));
           ("is_active", VScalar (SBool true))])
       ["group"]) m
  = Z.eqb (m_project_id m) (project_id project) && Z.eqb (m_user_id m) (user_id u)
    && m_is_active m.
Proof.
  unfold matches. cbn [qs_empty qs_clauses values filter_kw add_clause objects app negb
                       forallb eval_clause eval_Q andb].
  unfold membership_kwargs. cbn [forallb]. unfold eval_lookup. cbn [fst snd].
  change (parse_lookup "project") with (["project"], LExact).
  change (parse_lookup "user") with (["user"], LExact).
  change (parse_lookup "is_active") with (["is_active"], LExact).
  cbv beta iota.
  change (membership_column m "project") with (Some (SInt (m_project_id m))).
  change (membership_column m "user") with (Some (SInt (m_user_id m))).
  change (membership_column m "is_active") with (Some (SBool (m_is_active m))).
  cbn [apply_lookup]. rewrite !bool_decide_SInt, bool_decide_SBool, !andb_true_r.
  destruct (m_is_active m); now rewrite ?andb_assoc.
Qed.

Lemma selects_filter_subscribed_by db project kw g :
  selects db (filter_subscribed_by project kw empty) g
  = subscription_matches db project kw g.
Proof.
  unfold filter_subscribed_by, subscription_matches, empty.
  destruct (subscribed_by kw) as [u|]; [|reflexivity].
  rewrite selects_filter_kw, selects_objects. cbn [andb].
  rewrite group_kwargs_columns by reflexivity. cbn [forallb]. unfold group_lookup.
  cbn [fst snd].
  change (parse_lookup "id__in") with (["id"], LIn). cbv beta iota.
  change (group_column g "id") with (Some (SInt (group_id g))). cbv beta iota.
  cbn [eval_arg]. rewrite andb_true_r.
  unfold evaluate. cbn [qs_model values filter_kw add_clause objects].
  unfold select_values.
  cbn [qs_distinct qs_high_mark qs_values values filter_kw add_clause objects List.hd].
  rewrite elem_of_omap_filter. apply existsb_ext_eq. intros m.
  rewrite subscription_row.
  change (membership_column m "group") with (Some (SInt (m_group_id m))).
  unfold links.
  assert (Hid : bool_decide (Some (SInt (m_group_id m)) = Some (SInt (group_id g)))
                = Z.eqb (m_group_id m) (group_id g)).
  { rewrite <- bool_decide_SInt. apply bool_decide_ext. split; congruence. }
  rewrite Hid. btauto.
Qed.

Lemma selects_filter_first_release db project kw g :
  selects db (filter_first_release project kw empty) g = release_matches project kw g.
Proof.
  unfold filter_first_release, release_matches, empty.
  destruct (first_release kw) as [[|v]|]; try reflexivity.
  destruct (truthy v); [|reflexivity].
  rewrite selects_filter_kw, selects_objects. cbn [andb].
  generalize (organization_id project) as org. intros org.
  membership_kwargs. cbv beta iota.
  rewrite related_first_release. cbn [is_not_None andb default]. unfold id.
  rewrite andb_true_r.
  destruct (group_first_release g) as [r|]; [|reflexivity].
  change (release_column <$> option_list (Some r)) with [release_column r].
  cbn [existsb forallb fst snd].
  change (release_column r "organization_id") with (Some (SInt (release_organization_id r))).
  change (release_column r "version") with (Some (SStr (release_version r))).
  cbn [eval_arg apply_lookup].
  now rewrite bool_decide_SInt, bool_decide_SStr, !andb_true_r, orb_false_r.
Qed.

Definition status_matches (kw : Kwargs) (g : Group) : bool :=
  match status kw with
  | None => negb (deletion_or_merge (group_status g))
  | Some s => bool_decide (group_status g = s)
  end.

Definition range_matches (kw : Kwargs) (g : Group) : bool :=
  lower_bound (timestamp <$> age_from kw) (age_from_inclusive kw)
    (timestamp (group_first_seen g))
  && upper_bound (timestamp <$> age_to kw) (age_to_inclusive kw)
       (timestamp (group_first_seen g))
  && lower_bound (timestamp <$> last_seen_from kw) (last_seen_from_inclusive kw)
       (timestamp (group_last_seen g))
  && upper_bound (timestamp <$> last_seen_to kw) (last_seen_to_inclusive kw)
       (timestamp (group_last_seen g))
  && lower_bound (times_seen_lower kw) (times_seen_lower_inclusive kw) (group_times_seen g)
  && upper_bound (times_seen_upper kw) (times_seen_upper_inclusive kw) (group_times_seen g).

Definition active_at_matches (kw : Kwargs) (g : Group) : bool :=
  lower_bound (timestamp <$> active_at_from kw) (active_at_from_inclusive kw)
    (timestamp (group_active_at g))
  && upper_bound (timestamp <$> active_at_to kw) (active_at_to_inclusive kw)
       (timestamp (group_active_at g)).

Definition times_seen_matches (kw : Kwargs) (g : Group) : bool :=
  match times_seen kw with
  | Some n => Z.eqb (group_times_seen g) n
  | None => true
  end.

(** The issue has an event in the window (one of the first 1000
    distinct groups of such events). *)
Definition date_matches (db : Database) (project : Project) (kw : Kwargs) (g : Group)
  : bool :=
  if truthy (date_from kw) || truthy (date_to kw)
  then bool_decide (SInt (group_id g) ∈ window_ids db project kw)
  else true.

(** The filters the two entry points share. *)
Definition ownership_matches (db : Database) (project : Project) (kw : Kwargs)
    (g : Group) : bool :=
  bool_decide (group_project_id g = project_id project)
  && text_matches kw g
  && status_matches kw g
  && bookmark_matches db project kw g
  && assignment_matches db project kw g
  && subscription_matches db project kw g.

Section Conjunction.
Variable cfg : Settings.
Variable db : Database.
Variable project : Project.
Variable kw : Kwargs.

Lemma selects_status_matches g :
  selects db (filter_status kw empty) g = status_matches kw g.
Proof.
  rewrite selects_filter_status. unfold status_matches.
  destruct (status kw); [reflexivity|]. now rewrite status_in_deletion_or_merge.
Qed.

Lemma selects_ownership_matches g :
  selects db (ownership_filters project kw) g = ownership_matches db project kw g.
Proof.
  rewrite selects_ownership_filters, selects_filter_query, selects_status_matches,
    selects_filter_bookmarked_by, selects_filter_assignment, selects_filter_subscribed_by.
  reflexivity.
Qed.

Lemma build_queryset_matches g :
  in_result db (_build_queryset cfg db project kw) g =
  continues cfg project kw
  && ownership_matches db project kw g
  && release_matches project kw g
  && tag_restriction cfg project kw g
  && range_matches kw g
  && active_at_matches kw g
  && times_seen_matches kw g
  && date_matches db project kw g.
Proof.
  rewrite in_result_build_queryset, selects_ownership_matches, selects_filter_first_release,
    selects_filter_age, selects_filter_last_seen, selects_filter_active_at,
    selects_filter_times_seen, selects_filter_times_seen_range, selects_filter_date.
  unfold range_matches, active_at_matches, times_seen_matches, date_matches.
  btauto.
Qed.
End Conjunction.

(** ** Outcome of [_build_queryset] *)

Section Outcome.
Variable cfg : Settings.
Variable db : Database.
Variable project : Project.
Variable kw : Kwargs.

Lemma build_queryset_cases :
  _build_queryset cfg db project kw =
  if bool_decide (first_release kw = Some EMPTY)
  then Return (none (ownership_filters project kw))
  else if bool_decide (tag_matches cfg project kw = Some [])
  then Return (none (filter_first_release project kw (ownership_filters project kw)))
  else
    let queryset := filter_first_release project kw (ownership_filters project kw) in
    let queryset :=
      match tag_matches cfg project kw with
      | Some matched => filter_kw queryset [("id__in", Plain (VList (SInt <$> matched)))]
      | None => queryset
      end in
    match score_clause cfg kw with
    | Some clause =>
        Return (extra_select (range_filters cfg db project kw queryset) "sort_value" clause)
    | None => Raise KeyError
    end.
Proof.
  unfold _build_queryset, tag_matches. cbv zeta.
  assert (Hgate : truthy (first_release kw) && bool_decide (first_release kw = Some EMPTY)
                  = bool_decide (first_release kw = Some EMPTY)).
  { destruct (first_release kw) as [[|v]|]; [reflexivity| |reflexivity].
    rewrite bool_decide_false by discriminate. apply andb_false_r. }
  rewrite Hgate. clear Hgate.
  destruct (bool_decide (first_release kw = Some EMPTY)); [reflexivity|].
  destruct (tags kw) as [t|]; [destruct (truthy t)|].
  - destruct (get_group_ids_for_search_filter cfg (project_id project)
                (environment_id kw) t) as [|id matched]; [reflexivity|].
    rewrite bool_decide_false by discriminate. reflexivity.
  - rewrite bool_decide_false by discriminate. reflexivity.
  - rewrite bool_decide_false by discriminate. reflexivity.
Qed.
End Outcome.

Lemma build_queryset_raises cfg db project kw :
  (forall e, _build_queryset cfg db project kw = Raise e -> e = KeyError)
  /\ (_build_queryset cfg db project kw = Raise KeyError
      <-> score_clause cfg kw = None
          /\ first_release kw <> Some EMPTY
          /\ tag_matches cfg project kw <> Some []).
Proof.
  rewrite build_queryset_cases. cbv zeta.
  destruct (bool_decide_reflect (first_release kw = Some EMPTY)) as [He|He].
  { split; [discriminate|]. split; [discriminate | tauto]. }
  destruct (bool_decide_reflect (tag_matches cfg project kw = Some [])) as [Ht|Ht].
  { split; [discriminate|]. split; [discriminate | tauto]. }
  destruct (score_clause cfg kw) as [clause|].
  - split; [discriminate|]. split; [discriminate | intros (? & _); discriminate].
  - split; [congruence|]. tauto.
Qed.

(** What a block of filters leaves untouched. *)
Definition frame_of {V} (qs : QuerySet V)
  : Model * bool * list (string * string) * bool * list string * option nat :=
  (qs_model qs, qs_empty qs, qs_extra_select qs, qs_distinct qs, qs_values qs,
   qs_high_mark qs).

Definition framed (block : QuerySet arg -> QuerySet arg) : Prop :=
  forall qs, frame_of (block qs) = frame_of qs.

Ltac framed_cases :=
  repeat match goal with
    | |- framed (fun qs => match ?x with _ => _ end) => destruct x
    | |- framed (fun qs => if ?x then _ else _) => destruct x
    | |- framed _ => intros qs; reflexivity
    end.

Lemma framed_compose f h : framed f -> framed h -> framed (fun qs => h (f qs)).
Proof. intros Hf Hh qs. now rewrite Hh, Hf. Qed.

Section Frames.
Variable cfg : Settings.
Variable db : Database.
Variable project : Project.
Variable kw : Kwargs.

Lemma framed_filter_query : framed (filter_query kw).
Proof. unfold filter_query. framed_cases. Qed.
Lemma framed_filter_status : framed (filter_status kw).
Proof. unfold filter_status. framed_cases. Qed.
Lemma framed_filter_bookmarked_by : framed (filter_bookmarked_by project kw).
Proof. unfold filter_bookmarked_by. framed_cases. Qed.
Lemma framed_filter_assignment : framed (filter_assignment project kw).
Proof. unfold filter_assignment. cbv zeta. framed_cases. Qed.
Lemma framed_filter_subscribed_by : framed (filter_subscribed_by project kw).
Proof. unfold filter_subscribed_by. framed_cases. Qed.
Lemma framed_filter_first_release : framed (filter_first_release project kw).
Proof. unfold filter_first_release. framed_cases. Qed.
Lemma framed_filter_age : framed (filter_age kw).
Proof. unfold filter_age. cbv zeta. framed_cases. Qed.
Lemma framed_filter_last_seen : framed (filter_last_seen kw).
Proof. unfold filter_last_seen. cbv zeta. framed_cases. Qed.
Lemma framed_filter_active_at : framed (filter_active_at kw).
Proof. unfold filter_active_at. cbv zeta. framed_cases. Qed.
Lemma framed_filter_times_seen : framed (filter_times_seen kw).
Proof. unfold filter_times_seen. framed_cases. Qed.
Lemma framed_filter_times_seen_range : framed (filter_times_seen_range kw).
Proof. unfold filter_times_seen_range. cbv zeta. framed_cases. Qed.
Lemma framed_filter_date : framed (filter_date cfg db project kw).
Proof. unfold filter_date. framed_cases. Qed.

Lemma framed_range_filters : framed (range_filters cfg db project kw).
Proof.
  unfold range_filters. cbv zeta. intros qs.
  rewrite framed_filter_date, framed_filter_times_seen_range, framed_filter_times_seen,
    framed_filter_active_at, framed_filter_last_seen, framed_filter_age.
  reflexivity.
Qed.

Lemma frame_ownership_filters :
  frame_of (ownership_filters project kw) = (MGroup, false, [], false, [], None).
Proof.
  unfold ownership_filters. cbv zeta.
  rewrite framed_filter_subscribed_by, framed_filter_assignment,
    framed_filter_bookmarked_by, framed_filter_status, framed_filter_query.
  reflexivity.
Qed.

Lemma build_queryset_frame qs :
  _build_queryset cfg db project kw = Return qs ->
  (frame_of qs = (MGroup, true, [], false, [], None)
   /\ (first_release kw = Some EMPTY \/ tag_matches cfg project kw = Some []))
  \/ (exists clause,
        score_clause cfg kw = Some clause
        /\ frame_of qs = (MGroup, false, [("sort_value", clause)], false, [], None)).
Proof.
  rewrite build_queryset_cases. cbv zeta.
  pose proof frame_ownership_filters as Hown.
  pose proof (framed_filter_first_release (ownership_filters project kw)) as Hrel.
  rewrite Hown in Hrel.
  destruct (bool_decide_reflect (first_release kw = Some EMPTY)) as [He|He].
  { injection 1 as <-. left. split; [|now left].
    unfold frame_of in *. cbn [qs_model qs_empty qs_extra_select qs_distinct qs_values
                                qs_high_mark none]. congruence. }
  destruct (bool_decide_reflect (tag_matches cfg project kw = Some [])) as [Ht|Ht].
  { injection 1 as <-. left. split; [|now right].
    unfold frame_of in *. cbn [qs_model qs_empty qs_extra_select qs_distinct qs_values
                                qs_high_mark none]. congruence. }
  destruct (score_clause cfg kw) as [clause|]; [|discriminate].
  injection 1 as <-. right. exists clause. split; [reflexivity|].
  set (base := match tag_matches cfg project kw with Some _ => _ | None => _ end).
  assert (Hbase : frame_of base = (MGroup, false, [], false, [], None)).
  { unfold base. destruct (tag_matches cfg project kw); exact Hrel. }
  pose proof (framed_range_filters base) as Hrange. rewrite Hbase in Hrange.
  unfold frame_of in *.
  cbn [qs_model qs_empty qs_extra_select qs_distinct qs_values qs_high_mark extra_select].
  injection Hrange as -> -> -> -> -> ->. reflexivity.
Qed.
End Frames.

Lemma truthy_empty_dict {A} : truthy (∅ : gmap string A) = false.
Proof. unfold truthy, truthy_dict. now rewrite bool_decide_true. Qed.

Section Falsy.
Variable cfg : Settings.
Variable db : Database.
Variable project : Project.
Variable kw : Kwargs.

Lemma build_queryset_empty_query :
  _build_queryset cfg db project (with_query (Some "") kw)
  = _build_queryset cfg db project (with_query None kw).
Proof. reflexivity. Qed.

Lemma build_queryset_empty_version :
  _build_queryset cfg db project (with_first_release (Some (Version "")) kw)
  = _build_queryset cfg db project (with_first_release None kw).
Proof. reflexivity. Qed.

Lemma build_queryset_empty_tags :
  _build_queryset cfg db project (with_tags (Some ∅) kw)
  = _build_queryset cfg db project (with_tags None kw).
Proof.
  unfold _build_queryset. cbv zeta. cbn [tags with_tags].
  rewrite truthy_empty_dict. reflexivity.
Qed.

Lemma build_queryset_zero_times_seen g :
  in_result db (_build_queryset cfg db project (with_times_seen (Some 0) kw)) g
  = Z.eqb (group_times_seen g) 0
    && in_result db (_build_queryset cfg db project (with_times_seen None kw)) g.
Proof.
  rewrite !build_queryset_matches. frame1 with_times_seen.
  unfold times_seen_matches. cbn [times_seen with_times_seen]. btauto.
Qed.
End Falsy.

(** ** [find_candidates], as a set of issues *)

Section Candidates.
Variable db : Database.
Variable project : Project.
Variable kw : Kwargs.

Lemma selects_candidate_filters g :
  is_not_None (assigned_to kw) && is_not_None (unassigned kw) = false ->
  selects db (candidate_filters project kw) g
  = ownership_matches db project kw g && active_at_matches kw g.
Proof.
  intros Hboth.
  pose proof (in_result_find_candidates db project kw g) as H.
  rewrite find_candidates_queryset_spec in H. unfold resolves in H. rewrite Hboth in H.
  assert (Hsel : selects db (candidate_filters project kw) g =
            bool_decide (group_project_id g = project_id project)
            && selects db (filter_query kw empty) g
            && selects db (filter_status kw empty) g
            && selects db (filter_bookmarked_by project kw empty) g
            && selects db (candidate_assignment project kw empty) g
            && selects db (candidate_unassigned kw empty) g
            && selects db (filter_subscribed_by project kw empty) g
            && selects db (candidate_active_at kw empty) g).
  { unfold candidate_filters.
    rewrite local_candidate_active_at, local_filter_subscribed_by,
      local_candidate_unassigned, local_candidate_assignment,
      local_filter_bookmarked_by, local_filter_status, local_filter_query.
    do 7 f_equal. rewrite selects_filter_kw.
    change (group_kwargs db g [("project", plain (SInt (project_id project)))])
      with (bool_decide (SInt (group_project_id g) = SInt (project_id project))
            && true && true).
    rewrite !andb_true_r. simpl. apply bool_decide_ext. split; congruence. }
  rewrite Hsel. clear H Hsel.
  rewrite selects_filter_query, selects_status_matches, selects_filter_bookmarked_by,
    selects_candidate_assignment, selects_candidate_unassigned,
    selects_filter_subscribed_by, selects_candidate_active_at.
  unfold ownership_matches, assignment_matches, active_at_matches.
  destruct (assigned_to kw) as [u|], (unassigned kw) as [b|];
    try discriminate Hboth; btauto.
Qed.

Lemma find_candidates_cases environment_id :
  find_candidates db project kw environment_id =
  if is_not_None (assigned_to kw) && is_not_None (unassigned kw)
  then Raise AssertionError
  else if is_not_None (first_release kw) then Raise NotImplementedError
  else Return (list_to_set
                 (group_id <$>
                    List.filter
                      (fun g => ownership_matches db project kw g && active_at_matches kw g)
                      (Group_objects db))).
Proof.
  unfold find_candidates. rewrite find_candidates_queryset_spec.
  destruct (is_not_None (assigned_to kw) && is_not_None (unassigned kw)) eqn:Hboth;
    [reflexivity|].
  destruct (is_not_None (first_release kw)); [reflexivity|].
  cbn [mbind outcome_bind]. do 3 f_equal.
  apply filter_ext. intros g. now apply selects_candidate_filters.
Qed.
End Candidates.

(** The arguments of [find_candidates], as a search of the primary
    path with every other argument at its default. *)
Definition candidate_arguments (kw : Kwargs) : Kwargs :=
  {| query := query kw; status := status kw; tags := None;
     bookmarked_by := bookmarked_by kw; assigned_to := assigned_to kw;
     first_release := first_release kw; sort_by := "date";
     unassigned := unassigned kw; subscribed_by := subscribed_by kw;
     age_from := None; age_from_inclusive := true;
     age_to := None; age_to_inclusive := true;
     last_seen_from := None; last_seen_from_inclusive := true;
     last_seen_to := None; last_seen_to_inclusive := true;
     date_from := None; date_from_inclusive := true;
     date_to := None; date_to_inclusive := true;
     active_at_from := active_at_from kw;
     active_at_from_inclusive := active_at_from_inclusive kw;
     active_at_to := active_at_to kw;
     active_at_to_inclusive := active_at_to_inclusive kw;
     times_seen := None;
     times_seen_lower := None; times_seen_lower_inclusive := true;
     times_seen_upper := None; times_seen_upper_inclusive := true;
     environment_id := None; candidates := None |}.

Lemma find_candidates_agrees cfg db project kw environment_id :
  assigned_to kw = None \/ unassigned kw = None ->
  first_release kw = None ->
  is_Some (score_clause cfg defaults) ->
  find_candidates db project kw environment_id
  = Return (list_to_set
              (group_id <$>
                 List.filter
                   (in_result db (_build_queryset cfg db project (candidate_arguments kw)))
                   (Group_objects db))).
Proof.
  intros Hone Hrel [clause Hclause]. rewrite find_candidates_cases.
  assert (Hboth : is_not_None (assigned_to kw) && is_not_None (unassigned kw) = false).
  { destruct Hone as [-> | ->]; [reflexivity | apply andb_false_r]. }
  rewrite Hboth, Hrel. cbn [is_not_None]. do 3 f_equal.
  apply filter_ext. intros g. rewrite build_queryset_matches.
  assert (Hcont : continues cfg project (candidate_arguments kw) = true).
  { unfold continues, tag_matches. cbn [first_release tags candidate_arguments].
    rewrite Hrel.
    change (score_clause cfg (candidate_arguments kw)) with (score_clause cfg defaults).
    rewrite Hclause. reflexivity. }
  rewrite Hcont.
  change (ownership_matches db project (candidate_arguments kw) g)
    with (ownership_matches db project kw g).
  change (active_at_matches (candidate_arguments kw) g) with (active_at_matches kw g).
  unfold release_matches, tag_restriction, tag_matches, range_matches, times_seen_matches,
    date_matches.
  cbn [first_release tags candidate_arguments age_from age_to last_seen_from last_seen_to
       times_seen times_seen_lower times_seen_upper date_from date_to
       fmap option_fmap option_map lower_bound upper_bound truthy truthy_optional orb andb].
  rewrite Hrel. cbn [andb]. now rewrite !andb_true_r.
Qed.

Lemma build_queryset_in_project cfg db project kw g :
  in_result db (_build_queryset cfg db project kw) g = true ->
  group_project_id g = project_id project.
Proof.
  rewrite build_queryset_matches. unfold ownership_matches.
  rewrite !andb_true_iff, bool_decide_eq_true. tauto.
Qed.

Lemma find_candidates_in_project db project kw environment_id ids id :
  find_candidates db project kw environment_id = Return ids -> id ∈ ids ->
  exists g, g ∈ Group_objects db /\ group_id g = id
            /\ group_project_id g = project_id project.
Proof.
  rewrite find_candidates_cases.
  destruct (is_not_None (assigned_to kw) && is_not_None (unassigned kw)); [discriminate|].
  destruct (is_not_None (first_release kw)); [discriminate|].
  injection 1 as <-. rewrite elem_of_list_to_set, list_elem_of_fmap.
  intros (g & -> & Hg). apply list_elem_of_In, filter_In in Hg as [Hg Hm].
  exists g. split; [now apply list_elem_of_In|]. split; [reflexivity|].
  unfold ownership_matches in Hm.
  rewrite !andb_true_iff, bool_decide_eq_true in Hm. tauto.
Qed.

Lemma NoDup_fmap_filter {A B} (f : A -> B) (p : A -> bool) (l : list A) :
  NoDup (f <$> l) -> NoDup (f <$> List.filter p l).
Proof.
  induction l as [|a l IH]; [intros; constructor|].
  rewrite fmap_cons, NoDup_cons. intros [Hnotin Hnd]. cbn [List.filter].
  destruct (p a); [|now apply IH].
  rewrite fmap_cons. apply NoDup_cons. split; [|now apply IH].
  intros Hin. apply Hnotin. apply list_elem_of_fmap in Hin as (x & -> & Hx).
  apply list_elem_of_fmap. exists x. split; [reflexivity|].
  apply list_elem_of_In, filter_In in Hx as [Hx _]. now apply list_elem_of_In.
Qed.

Lemma date_window_cap cfg db project kw :
  truthy (date_from kw) || truthy (date_to kw) = true ->
  NoDup (group_id <$> Group_objects db) ->
  (length (List.filter (in_result db (_build_queryset cfg db project kw))
             (Group_objects db)) <= 1000)%nat.
Proof.
  intros Hwindow Hids.
  set (selected := List.filter _ _).
  transitivity (length (window_ids db project kw)); [|apply window_ids_bounded].
  rewrite <- (length_fmap (fun g => SInt (group_id g)) selected).
  apply submseteq_length, NoDup_submseteq.
  - rewrite (list_fmap_compose group_id SInt). apply NoDup_fmap_2; [intros ? ?; congruence|].
    now apply NoDup_fmap_filter.
  - intros x Hx. apply list_elem_of_fmap in Hx as (g & -> & Hg).
    apply list_elem_of_In, filter_In in Hg as [_ Hg].
    rewrite build_queryset_matches in Hg. apply andb_prop in Hg as [_ Hg].
    unfold date_matches in Hg. rewrite Hwindow in Hg. now apply bool_decide_eq_true in Hg.
Qed.

(** ** The entry points, as calls of the paginator *)

Lemma environment_query_never_returns {Page} project kw :
  returned (@EnvironmentDjangoSearchBackend_query Page project kw) = false
  /\ (EnvironmentDjangoSearchBackend_query project kw = @Raise Page AssertionError
      <-> environment_id kw = None)
  /\ (EnvironmentDjangoSearchBackend_query project kw = @Raise Page NotImplementedError
      <-> environment_id kw <> None).
Proof.
  unfold EnvironmentDjangoSearchBackend_query.
  destruct (environment_id kw) as [e|]; cbn [is_not_None assert mbind outcome_bind].
  - destruct (is_not_None (date_from kw)), (is_not_None (date_to kw));
      (split; [reflexivity|]); (split; [split; discriminate | split; [discriminate|reflexivity]]).
  - split; [reflexivity|]. split; [tauto|]. split; [discriminate | congruence].
Qed.

(** The column a sort clause orders by: the clause without its sign. *)
Definition sort_column (sort_clause : string) : string :=
  match sort_clause with
  | String "-" name => name
  | _ => sort_clause
  end.

Definition is_datetime (s : option scalar) : bool :=
  match s with Some (STime _) => true | _ => false end.

Section QueryProperties.
Variable cfg : Settings.
Variable db : Database.
Variable Cursor : Type.
Variable Page : Type.
Variable get_result : pagination Cursor -> outcome Page.

Local Abbreviation run := (DjangoSearchBackend_query cfg db Cursor Page get_result).

Lemma query_unknown_sort_by project count_hits options kw limit cursor :
  score_clause cfg kw = None ->
  (first_release kw <> Some EMPTY -> tag_matches cfg project kw <> Some [] ->
   run project count_hits options kw limit cursor = Raise KeyError)
  /\ (first_release kw = Some EMPTY ->
      exists p,
        run project count_hits options kw limit cursor = get_result p
        /\ paginated p = none (ownership_filters project kw)
        /\ forall g, selects db (paginated p) g = false).
Proof.
  intros Hclause. split.
  - intros He Ht. unfold DjangoSearchBackend_query. cbv zeta.
    destruct (build_queryset_raises cfg db project kw) as [_ Hraise].
    rewrite (proj2 Hraise) by tauto. reflexivity.
  - intros He. unfold DjangoSearchBackend_query. cbv zeta.
    rewrite build_empty_release by assumption. cbn [mbind outcome_bind].
    destruct (if String.eqb (sort_by kw) "date" then _ else _) as [cls clause].
    eexists. split; [reflexivity|]. cbn [paginated]. split; [reflexivity|].
    intros g. apply matches_none.
Qed.

Lemma query_paginates project count_hits options kw limit cursor qs :
  _build_queryset cfg db project kw = Return qs ->
  exists p,
    run project count_hits options kw limit cursor = get_result p
    /\ paginated p = qs
    /\ order_by p = paginator_key p
    /\ (exists column, paginator_key p = "-" +:+ column)
    /\ (paginator_cls p = DateTimePaginator
        <-> forall g, is_datetime (group_column g (sort_column (paginator_key p))) = true)
    /\ (paginator_key p = "-sort_value" ->
        qs_empty qs = true \/ is_Some (assoc "sort_value" (qs_extra_select qs)))
    /\ page_limit p = default (Some 100) limit
    /\ paginator_options p = default ∅ options.
Proof.
  intros Hqs. unfold DjangoSearchBackend_query. cbv zeta. rewrite Hqs.
  cbn [mbind outcome_bind].
  assert (Hframe := build_queryset_frame cfg db project kw qs Hqs).
  assert (Hsv : qs_empty qs = true \/ is_Some (assoc "sort_value" (qs_extra_select qs))).
  { destruct Hframe as [[Hf _]|(clause & _ & Hf)]; unfold frame_of in Hf.
    - left. congruence.
    - right. injection Hf as _ _ -> _ _ _. now exists clause. }
  destruct (String.eqb (sort_by kw) "date");
    [|destruct (String.eqb (sort_by kw) "priority");
      [|destruct (String.eqb (sort_by kw) "new");
        [|destruct (String.eqb (sort_by kw) "freq")]]];
    (eexists; split; [reflexivity|]);
    cbn [paginated order_by paginator_key paginator_cls page_limit paginator_options];
    (split; [reflexivity|]); (split; [reflexivity|]);
    (split; [eexists; reflexivity|]);
    (split; [|split; [first [discriminate | intros _; exact Hsv]|split; reflexivity]]).
  - split; [intros _ g; reflexivity | reflexivity].
  - split; [discriminate|]. intros H.
    specialize (H {| group_id := 0; group_project_id := 0; group_status := UNRESOLVED;
                     group_first_seen := at_ 0; group_last_seen := at_ 0;
                     group_active_at := at_ 0; group_times_seen := 0;
                     group_message := ""; group_culprit := "";
                     group_first_release := None |}). discriminate H.
  - split; [intros _ g; reflexivity | reflexivity].
  - split; [discriminate|]. intros H.
    specialize (H {| group_id := 0; group_project_id := 0; group_status := UNRESOLVED;
                     group_first_seen := at_ 0; group_last_seen := at_ 0;
                     group_active_at := at_ 0; group_times_seen := 0;
                     group_message := ""; group_culprit := "";
                     group_first_release := None |}). discriminate H.
  - split; [discriminate|]. intros H.
    specialize (H {| group_id := 0; group_project_id := 0; group_status := UNRESOLVED;
                     group_first_seen := at_ 0; group_last_seen := at_ 0;
                     group_active_at := at_ 0; group_times_seen := 0;
                     group_message := ""; group_culprit := "";
                     group_first_release := None |}). discriminate H.
Qed.
End QueryProperties.

(** ** The candidate rows of [filter_candidates], in general *)

(** The tag store row vouches for a group: it is the row of the
    environment in the project, the group is a candidate when
    candidates are given, and the row is inside every bound. *)
Definition environment_tag_row (project : Project) (environment : string) (kw : Kwargs)
    (t : GroupTagValue) : bool :=
  Z.eqb (tv_project_id t) (project_id project)
  && String.eqb (tv_key t) "environment"
  && String.eqb (tv_value t) environment
  && match candidates kw with
     | Some ids => bool_decide (tv_group_id t ∈ ids)
     | None => true
     end
  && lower_bound (timestamp <$> age_from kw) (age_from_inclusive kw)
       (timestamp (tv_first_seen t))
  && upper_bound (timestamp <$> age_to kw) (age_to_inclusive kw)
       (timestamp (tv_first_seen t))
  && lower_bound (timestamp <$> last_seen_from kw) (last_seen_from_inclusive kw)
       (timestamp (tv_last_seen t))
  && upper_bound (timestamp <$> last_seen_to kw) (last_seen_to_inclusive kw)
       (timestamp (tv_last_seen t))
  && lower_bound (times_seen_lower kw) (times_seen_lower_inclusive kw) (tv_times_seen t)
  && upper_bound (times_seen_upper kw) (times_seen_upper_inclusive kw) (tv_times_seen t).

Lemma matches_filter_kw_tagvalue (qs : QuerySet value) kwargs t :
  matches tagvalue_kwargs (filter_kw qs kwargs) t
  = matches tagvalue_kwargs qs t && tagvalue_kwargs t kwargs.
Proof. apply matches_add_clause. Qed.

Lemma matches_environment_rows project environment kw t :
  matches tagvalue_kwargs (environment_rows project (Specific environment) kw) t
  = Z.eqb (tv_project_id t) (project_id project)
    && String.eqb (tv_key t) "environment"
    && String.eqb (tv_value t) environment
    && match candidates kw with
       | Some ids => bool_decide (tv_group_id t ∈ ids)
       | None => true
       end.
Proof.
  unfold environment_rows. cbv zeta.
  assert (Hbase : matches tagvalue_kwargs
            (filter_kw (objects MGroupTagValue)
               [("project_id", VScalar (SInt (project_id project)));
                ("key", VScalar (SStr "environment"));
                ("value", VScalar (tag_scalar (Specific environment)))]) t
          = Z.eqb (tv_project_id t) (project_id project)
            && String.eqb (tv_key t) "environment"
            && String.eqb (tv_value t) environment).
  { rewrite matches_filter_kw_tagvalue. unfold tagvalue_kwargs. cbn [forallb tag_scalar].
    erewrite !tagvalue_exact by reflexivity.
    rewrite bool_decide_SInt, !bool_decide_SStr. cbn [andb].
    change (matches _ (objects MGroupTagValue) t) with true.
    cbn [andb]. now rewrite andb_true_r, andb_assoc. }
  destruct (candidates kw) as [ids|].
  - rewrite matches_filter_kw_tagvalue, Hbase. f_equal.
    unfold tagvalue_kwargs. cbn [forallb]. rewrite tagvalue_group_id_in, andb_true_r.
    apply bool_decide_ext. rewrite list_elem_of_fmap. split.
    + intros (x & Hx & Hin). injection Hx as ->. now apply elem_of_elements.
    + intros Hin. exists (tv_group_id t). split; [reflexivity | now apply elem_of_elements].
  - rewrite Hbase. now rewrite andb_true_r.
Qed.

Lemma matches_candidate_queryset project environment kw name strategy fields t :
  matches tagvalue_kwargs
    (values (extra_select (tag_queryset project (Specific environment) kw) name strategy)
       fields) t
  = environment_tag_row project environment kw t.
Proof.
  change (matches tagvalue_kwargs (values (extra_select ?qs name strategy) fields) t)
    with (matches tagvalue_kwargs qs t).
  rewrite matches_tag_queryset, matches_environment_rows. reflexivity.
Qed.

(** ** The statement always executes *)

Definition adaptable_queryset (qs : QuerySet value) : Prop :=
  forallb adaptable (queryset_params qs) = true.

Lemma adaptable_filter_kw (qs : QuerySet value) kwargs :
  adaptable_queryset qs ->
  forallb adaptable (flat_map (fun kw => value_params kw.2) kwargs) = true ->
  adaptable_queryset (filter_kw qs kwargs).
Proof.
  unfold adaptable_queryset, queryset_params.
  cbn [qs_clauses filter_kw add_clause]. intros Hqs Hkw.
  rewrite flat_map_app, forallb_app, Hqs. cbn [flat_map clause_params Q_params].
  now rewrite app_nil_r, Hkw.
Qed.

Lemma adaptable_scalar_filter (qs : QuerySet value) field operator s inclusive :
  adaptable_queryset qs -> adaptable s = true ->
  adaptable_queryset (add_scalar_filter qs field operator (VScalar s) inclusive).
Proof.
  intros Hqs Hs. apply adaptable_filter_kw; [assumption|].
  cbn [flat_map value_params snd app forallb]. now rewrite Hs.
Qed.

Lemma adaptable_tag_queryset project environment kw :
  adaptable_queryset (tag_queryset project (Specific environment) kw).
Proof.
  unfold tag_queryset, times_seen_bounds, environment_queryset. cbv zeta.
  repeat match goal with
    | |- adaptable_queryset (match ?x with Some _ => _ | None => _ end) => destruct x
    | |- adaptable_queryset (add_scalar_filter _ _ _ _ _) =>
        apply adaptable_scalar_filter; [|reflexivity]
    end;
    repeat match goal with
    | |- adaptable_queryset (filter_kw _ [("group_id__in", _)]) =>
        apply adaptable_filter_kw;
        [|cbn [flat_map value_params snd]; rewrite app_nil_r;
          apply forallb_forall; intros p Hp;
          apply list_elem_of_In, list_elem_of_fmap in Hp as (? & -> & _); reflexivity]
    | |- adaptable_queryset (filter_kw (objects _) _) => reflexivity
    end.
Qed.

Section Executes.
Variable sort_value : Type.
Variable sort_value_leb : sort_value -> sort_value -> bool.
Variable eval_sort_expression : string -> GroupTagValue -> sort_value.
Variable cfg : Settings.
Variable db : Database.

Lemma cursor_execute_synthesized (queryset : QuerySet value) strategy
    (m : gmap string tag_value) :
  qs_model queryset = MGroupTagValue ->
  adaptable_queryset queryset ->
  let qs := values (extra_select queryset "sort_key" strategy) ["group_id"; "sort_key"] in
  let s := synthesized cfg (extra_select queryset "sort_key" strategy) m in
  let rest := (SStr <$> elements (presence_constraints m))
                ++ flat_map (fun kv => [SStr kv.1; SStr kv.2])
                     (map_to_list (equality_constraints m)) in
  assoc "sort_key" (qs_extra_select qs) = Some strategy ->
  cursor_execute sort_value sort_value_leb eval_sort_expression db s
    (queryset_params qs ++ rest)
  = Return (c_group_id <$>
              selected_rows sort_value sort_value_leb eval_sort_expression
                (GroupTagValue_objects db) s qs strategy rest).
Proof.
  intros Hmodel Hadapt qs s rest Hkey. unfold cursor_execute.
  assert (Han : analyse s = true) by (apply analyse_synthesized; exact Hmodel).
  rewrite Han. cbn [negb].
  assert (Had : forallb adaptable (queryset_params qs ++ rest) = true).
  { rewrite forallb_app. apply andb_true_intro. split; [exact Hadapt|].
    unfold rest. rewrite forallb_app. apply andb_true_intro. split.
    - apply forallb_forall. intros p Hp.
      apply list_elem_of_In, list_elem_of_fmap in Hp as (? & -> & _). reflexivity.
    - apply forallb_forall. intros p Hp. apply in_flat_map in Hp as (kv & _ & Hp).
      destruct Hp as [<-|[<-|[]]]; reflexivity. }
  rewrite Had. cbn [negb].
  change (stmt_candidates s) with (skeleton qs).
  rewrite bind_queryset_params.
  change (qs_extra_select (skeleton qs)) with (qs_extra_select qs). rewrite Hkey.
  rewrite bool_decide_true; [reflexivity|].
  unfold rest, s, synthesized, lateral_nodes, where_nodes.
  cbn [stmt_laterals stmt_where].
  rewrite length_app, !length_fmap, !length_seq. f_equal.
  rewrite <- length_map_to_list.
  generalize (map_to_list (equality_constraints m)) as items.
  induction items as [|kv items IH]; simpl; lia.
Qed.

Lemma selected_rows_spec (queryset : QuerySet value) strategy (m : gmap string tag_value) r :
  let qs := values (extra_select queryset "sort_key" strategy) ["group_id"; "sort_key"] in
  let s := synthesized cfg (extra_select queryset "sort_key" strategy) m in
  let rest := (SStr <$> elements (presence_constraints m))
                ++ flat_map (fun kv => [SStr kv.1; SStr kv.2])
                     (map_to_list (equality_constraints m)) in
  r ∈ selected_rows sort_value sort_value_leb eval_sort_expression
        (GroupTagValue_objects db) s qs strategy rest
  <-> r ∈ candidate_rows sort_value eval_sort_expression
            (GroupTagValue_objects db) qs strategy
      /\ Forall (has_pair sort_value (GroupTagValue_objects db) r)
            (map_to_list (equality_constraints m))
      /\ Forall (has_tag sort_value (GroupTagValue_objects db) r)
            (elements (presence_constraints m)).
Proof.
  intros qs s rest. unfold selected_rows.
  rewrite (order_by_perm sort_value sort_value_leb), elem_of_repeated.
  assert (Hlat : length (stmt_laterals s) = length (elements (presence_constraints m))).
  { unfold s, synthesized, lateral_nodes. cbn [stmt_laterals].
    now rewrite length_fmap, length_seq. }
  rewrite Hlat. unfold rest. rewrite take_app_length', drop_app_length'
    by now rewrite length_fmap.
  unfold s, synthesized. cbn [stmt_joins stmt_laterals stmt_where].
  rewrite <- length_map_to_list.
  change (size (presence_constraints m))
    with (length (elements (presence_constraints m))).
  now rewrite candidate_passes.
Qed.
End Executes.

Section GeneralRows.
Variable sort_value : Type.
Variable sort_value_leb : sort_value -> sort_value -> bool.
Variable eval_sort_expression : string -> GroupTagValue -> sort_value.
Variable cfg : Settings.
Variable db : Database.
Variable project : Project.
Variable environment_id : Z.

Local Abbreviation run :=
  (filter_candidates sort_value sort_value_leb eval_sort_expression
     cfg db project environment_id).

Lemma tag_queryset_model environment kw :
  qs_model (tag_queryset project environment kw) = MGroupTagValue.
Proof.
  unfold tag_queryset, times_seen_bounds, environment_queryset. cbv zeta.
  destruct (candidates kw), (age_from kw), (age_to kw), (last_seen_from kw),
    (last_seen_to kw), (times_seen_lower kw), (times_seen_upper kw); reflexivity.
Qed.

Lemma filter_candidates_result kw m environment strategy :
  is_postgres cfg = true ->
  tags kw = Some m ->
  m !! "environment" = Some (Specific environment) ->
  times_seen kw = None ->
  assoc (sort_by kw) sort_strategies = Some strategy ->
  candidates kw <> Some ∅ ->
  let queryset := extra_select (tag_queryset project (Specific environment) kw)
                    "sort_key" strategy in
  let qs := values queryset ["group_id"; "sort_key"] in
  let m' := delete "environment" m in
  exists x,
    executed (run kw) = [x]
    /\ result (run kw)
       = Return (c_group_id <$>
                   selected_rows sort_value sort_value_leb eval_sort_expression
                     (GroupTagValue_objects db) (synthesized cfg queryset m') qs strategy
                     ((SStr <$> elements (presence_constraints m'))
                        ++ flat_map (fun kv => [SStr kv.1; SStr kv.2])
                             (map_to_list (equality_constraints m')))).
Proof.
  intros Hpg Hm He Hts Hs Hids queryset qs m'.
  destruct (filter_candidates_executed sort_value sort_value_leb eval_sort_expression
              cfg db project environment_id kw m (Specific environment) strategy
              Hm He Hts Hs Hpg Hids) as [Hex Hres].
  eexists. split; [exact Hex|]. rewrite Hres.
  apply (cursor_execute_synthesized sort_value sort_value_leb eval_sort_expression cfg db
           (tag_queryset project (Specific environment) kw) strategy m').
  - apply tag_queryset_model.
  - apply adaptable_tag_queryset.
  - pose proof (tag_queryset_model (Specific environment) kw) as Hmodel.
    unfold tag_queryset, times_seen_bounds, environment_queryset. cbv zeta.
    destruct (candidates kw), (age_from kw), (age_to kw), (last_seen_from kw),
      (last_seen_to kw), (times_seen_lower kw), (times_seen_upper kw); reflexivity.
Qed.

Lemma filter_candidates_rows kw m environment strategy :
  is_postgres cfg = true ->
  tags kw = Some m ->
  m !! "environment" = Some (Specific environment) ->
  times_seen kw = None ->
  assoc (sort_by kw) sort_strategies = Some strategy ->
  candidates kw <> Some ∅ ->
  exists ids,
    result (run kw) = Return ids
    /\ forall g, g ∈ ids <->
         (exists t, t ∈ GroupTagValue_objects db /\ tv_group_id t = g
                    /\ environment_tag_row project environment kw t = true)
         /\ (forall key, key <> "environment" -> m !! key = Some ANY ->
               carries_key db g key)
         /\ (forall key v, key <> "environment" -> m !! key = Some (Specific v) ->
               carries_pair db g key v).
Proof.
  intros Hpg Hm He Hts Hs Hids.
  destruct (filter_candidates_result kw m environment strategy Hpg Hm He Hts Hs Hids)
    as (x & _ & Hres).
  eexists. split; [exact Hres|]. intros g. rewrite list_elem_of_fmap.
  set (m' := delete "environment" m).
  assert (Hcand : forall r,
            r ∈ candidate_rows sort_value eval_sort_expression (GroupTagValue_objects db)
                  (values (extra_select (tag_queryset project (Specific environment) kw)
                             "sort_key" strategy) ["group_id"; "sort_key"]) strategy
            <-> exists t, t ∈ GroupTagValue_objects db
                  /\ environment_tag_row project environment kw t = true
                  /\ r = {| c_group_id := tv_group_id t;
                            c_sort_key := eval_sort_expression strategy t |}).
  { intros r. unfold candidate_rows.
    change (map ?f ?l) with (f <$> l). rewrite list_elem_of_fmap. split.
    - intros (t & -> & Ht). apply list_elem_of_In, filter_In in Ht as [Ht Hmatch].
      exists t. split; [now apply list_elem_of_In|]. split; [|reflexivity].
      now rewrite matches_candidate_queryset in Hmatch.
    - intros (t & Ht & Hmatch & ->). exists t. split; [reflexivity|].
      apply list_elem_of_In, filter_In. split; [now apply list_elem_of_In|].
      now rewrite matches_candidate_queryset. }
  split.
  - intros (r & -> & Hr).
    apply (selected_rows_spec sort_value sort_value_leb eval_sort_expression cfg db) in Hr
      as (Hr & Hpairs & Hkeys).
    apply Hcand in Hr as (t & Ht & Hrow & ->). cbn [c_group_id].
    split; [now exists t|]. split.
    + intros key Hne Hany. rewrite Forall_forall in Hkeys.
      destruct (Hkeys key) as (t' & [Ht' Hg'] & Hk').
      { apply presence_constraints_delete. now split. }
      now exists t'.
    + intros key v Hne Hspec. rewrite Forall_forall in Hpairs.
      destruct (Hpairs (key, v)) as (t' & [Ht' Hg'] & Hk' & Hv').
      { apply equality_constraints_delete. now split. }
      now exists t'.
  - intros ((t & Ht & Hg & Hrow) & Hkeys & Hpairs).
    exists {| c_group_id := tv_group_id t; c_sort_key := eval_sort_expression strategy t |}.
    split; [now cbn|].
    apply (selected_rows_spec sort_value sort_value_leb eval_sort_expression cfg db).
    split; [|split].
    + apply Hcand. now exists t.
    + apply Forall_forall. intros [key v] Hkv.
      apply equality_constraints_delete in Hkv as [Hne Hspec].
      destruct (Hpairs key v Hne Hspec) as (t' & Ht' & Hg' & Hk' & Hv').
      exists t'. unfold group_row. cbn [c_group_id fst snd].
      split; [split; [assumption|congruence]|]. now split.
    + apply Forall_forall. intros key Hkey.
      apply presence_constraints_delete in Hkey as [Hne Hany].
      destruct (Hkeys key Hne Hany) as (t' & Ht' & Hg' & Hk').
      exists t'. unfold group_row. cbn [c_group_id].
      split; [split; [assumption|congruence]|]. assumption.
Qed.

Lemma filter_candidates_returns kw m environment :
  tags kw = Some m ->
  m !! "environment" = Some (Specific environment) ->
  (returned (result (run kw)) = true
   <-> times_seen kw = None /\ is_Some (assoc (sort_by kw) sort_strategies)
       /\ is_postgres cfg = true /\ candidates kw <> Some ∅)
  /\ (returned (result (run kw)) = true -> exists x, executed (run kw) = [x])
  /\ (returned (result (run kw)) = false -> executed (run kw) = [])
  /\ (times_seen kw = None -> assoc (sort_by kw) sort_strategies = None ->
      result (run kw) = Raise KeyError)
  /\ (times_seen kw = None -> is_Some (assoc (sort_by kw) sort_strategies) ->
      is_postgres cfg = true -> candidates kw = Some ∅ ->
      result (run kw) = Raise EmptyResultSet).
Proof.
  intros Hm He.
  destruct (times_seen kw) as [n|] eqn:Hts.
  { destruct (filter_candidates_times_seen sort_value sort_value_leb eval_sort_expression
                cfg db project environment_id kw m n Hm (ltac:(now rewrite He)) Hts)
      as [Hr Hx].
    rewrite Hr, Hx. cbn [returned].
    split; [split; [discriminate | intros (? & _); discriminate]|].
    split; [discriminate|]. split; [reflexivity|]. split; discriminate. }
  destruct (assoc (sort_by kw) sort_strategies) as [strategy|] eqn:Hs.
  - destruct (is_postgres cfg) eqn:Hpg.
    + destruct (decide (candidates kw = Some ∅)) as [Hids|Hids].
      * destruct (filter_candidates_empty_result_set sort_value sort_value_leb
                    eval_sort_expression cfg db project environment_id kw m
                    (Specific environment) Hm He Hts (ltac:(now rewrite Hs)) Hpg Hids)
          as [Hr Hx].
        rewrite Hr, Hx. cbn [returned].
        split; [split; [discriminate | intros (_ & _ & _ & ?); contradiction]|].
        split; [discriminate|]. split; [reflexivity|]. split; [discriminate|reflexivity].
      * destruct (filter_candidates_result kw m environment strategy Hpg Hm He Hts Hs Hids)
          as (x & Hx & Hr).
        rewrite Hr, Hx. cbn [returned].
        split; [split; [intros _; repeat split; [now eexists | assumption] | reflexivity]|].
        split; [intros _; now exists x|]. split; [discriminate|].
        split; [discriminate | intros _ _ _ ?; contradiction].
    + destruct (filter_candidates_not_postgres sort_value sort_value_leb
                  eval_sort_expression cfg db project environment_id kw Hpg) as [Hr Hx].
      rewrite Hr, Hx.
      split; [split; [discriminate | intros (_ & _ & ? & _); discriminate]|].
      split; [discriminate|]. split; [reflexivity|]. split; discriminate.
  - assert (Hrun : run kw = {| tags_after := Some (delete "environment" m);
                               executed := []; result := Raise KeyError |}).
    { unfold filter_candidates. rewrite Hm, He, Hts, Hs. reflexivity. }
    rewrite Hrun. cbn [result executed returned].
    split; [split; [discriminate | intros (_ & [? ?] & _); discriminate]|].
    split; [discriminate|]. split; [reflexivity|]. split; [reflexivity|].
    intros _ [? ?]; discriminate.
Qed.
End GeneralRows.

(** ** The key [add_scalar_filter] formats, read back by the ORM *)

Lemma split_lookup_nonempty s : split_lookup s <> [].
Proof.
  induction s as [|c s IH]; [discriminate|]. cbn [split_lookup].
  destruct s as [|c' s']; [discriminate|].
  destruct (Ascii.eqb c "_" && Ascii.eqb c' "_")%bool; [discriminate|].
  destruct (split_lookup (String c' s')); discriminate.
Qed.

Lemma split_lookup_cons c c' s :
  split_lookup (String c (String c' s))
  = if (Ascii.eqb c "_" && Ascii.eqb c' "_")%bool
    then EmptyString :: split_lookup s
    else match split_lookup (String c' s) with
         | [] => [String c EmptyString]
         | h :: t => String c h :: t
         end.
Proof. reflexivity. Qed.

(** [field.endswith('_')] *)
Fixpoint ends_with_underscore (s : string) : bool :=
  match s with
  | EmptyString => false
  | String c EmptyString => Ascii.eqb c "_"
  | String _ rest => ends_with_underscore rest
  end.

Lemma split_lookup_separator field rest :
  split_lookup field = [field] -> ends_with_underscore field = false ->
  split_lookup (field +:+ "__" +:+ rest) = field :: split_lookup rest.
Proof.
  induction field as [|c f IH]; intros Hone Hend.
  - reflexivity.
  - destruct f as [|c' f'].
    + cbn [ends_with_underscore] in Hend.
      change (String c "" +:+ "__" +:+ rest) with (String c (String "_" (String "_" rest))).
      cbn [split_lookup]. rewrite Hend. cbn [andb].
      change (Ascii.eqb "_" "_") with true. cbn [andb]. reflexivity.
    + change (String c (String c' f') +:+ "__" +:+ rest)
        with (String c (String c' (f' +:+ "__" +:+ rest))).
      rewrite split_lookup_cons in Hone |- *.
      destruct (Ascii.eqb c "_" && Ascii.eqb c' "_")%bool; [discriminate Hone|].
      change (String c' (f' +:+ "__" +:+ rest)) with (String c' f' +:+ "__" +:+ rest).
      assert (Hf : split_lookup (String c' f') = [String c' f']).
      { destruct (split_lookup (String c' f')) as [|h t] eqn:Hsplit.
        - now apply split_lookup_nonempty in Hsplit.
        - injection Hone as -> ->. reflexivity. }
      rewrite IH; [reflexivity | exact Hf | exact Hend].
Qed.

(** The lookup the key of a comparison stands for. *)
Definition comparison_lookup (operator : string) (inclusive : bool) : lookup_type :=
  if String.eqb operator "gt" then (if inclusive then LGte else LGt)
  else (if inclusive then LLte else LLt).

Lemma add_scalar_filter_parses field operator (inclusive : bool) :
  split_lookup field = [field] -> ends_with_underscore field = false ->
  operator = "gt" \/ operator = "lt" ->
  parse_lookup (field +:+ "__" +:+ operator +:+ (if inclusive then "e" else ""))
  = ([field], comparison_lookup operator inclusive).
Proof.
  intros Hone Hend Hop. unfold parse_lookup. rewrite split_lookup_separator by assumption.
  destruct Hop as [-> | ->], inclusive; reflexivity.
Qed.

Lemma tagvalue_add_scalar_filter (qs : QuerySet value) t field operator v (inclusive : bool) :
  split_lookup field = [field] -> ends_with_underscore field = false ->
  operator = "gt" \/ operator = "lt" ->
  matches tagvalue_kwargs (add_scalar_filter qs field operator (VScalar v) inclusive) t
  = matches tagvalue_kwargs qs t
    && match tagvalue_column t field with
       | Some column =>
           apply_lookup (comparison_lookup operator inclusive) column (VScalar v)
       | None => false
       end.
Proof.
  intros Hone Hend Hop. unfold add_scalar_filter, filter_kw.
  rewrite matches_add_clause. cbn [eval_clause eval_Q]. f_equal.
  unfold tagvalue_kwargs. cbn [forallb]. unfold eval_lookup. cbn [fst snd].
  rewrite add_scalar_filter_parses by assumption.
  rewrite andb_true_r. reflexivity.
Qed.



Lemma group_add_scalar_filter db (qs : QuerySet arg) g field operator v (inclusive : bool)
    column :
  split_lookup field = [field] -> ends_with_underscore field = false ->
  operator = "gt" \/ operator = "lt" ->
  group_column g field = Some column ->
  selects db (add_scalar_filter qs field operator (plain v) inclusive) g
  = selects db qs g && apply_lookup (comparison_lookup operator inclusive) column (VScalar v).
Proof.
  intros Hone Hend Hop Hcolumn. unfold add_scalar_filter.
  rewrite selects_filter_kw. f_equal.
  pose proof (add_scalar_filter_parses field operator inclusive Hone Hend Hop) as Hparse.
  unfold group_kwargs, group_relation, relation_lookups, group_lookup.
  cbn [forallb flat_map fst snd]. rewrite Hparse. cbn [app].
  rewrite Hcolumn. unfold plain. cbn [eval_arg]. now rewrite !andb_true_r.
Qed.

(** ** No group twice when the tag store keeps its rows unique *)

(** The unique constraint of the tag store: one row for a group, a key
    and a value. *)
Definition tag_identity (t : GroupTagValue) : Z * string * string :=
  (tv_group_id t, tv_key t, tv_value t).

Definition unique_tag_rows (table : list GroupTagValue) : Prop :=
  NoDup (tag_identity <$> table).

Lemma NoDup_fmap_elem {A B} (f : A -> B) (l : list A) x y :
  NoDup (f <$> l) -> x ∈ l -> y ∈ l -> f x = f y -> x = y.
Proof.
  induction l as [|a l IH]; intros Hnd Hx Hy Hf.
  - now apply elem_of_nil in Hx.
  - rewrite fmap_cons in Hnd. apply NoDup_cons in Hnd as [Ha Hnd].
    apply elem_of_cons in Hx as [->|Hx], Hy as [->|Hy].
    + reflexivity.
    + exfalso. apply Ha. rewrite Hf. apply list_elem_of_fmap. now exists y.
    + exfalso. apply Ha. rewrite <- Hf. apply list_elem_of_fmap. now exists x.
    + now apply IH.
Qed.

Lemma NoDup_list_filter {A} (p : A -> bool) (l : list A) :
  NoDup l -> NoDup (List.filter p l).
Proof.
  induction l as [|a l IH]; intros Hnd; [constructor|].
  apply NoDup_cons in Hnd as [Ha Hnd]. cbn [List.filter].
  destruct (p a); [|now apply IH].
  apply NoDup_cons. split; [|now apply IH].
  intros Hin. apply Ha. apply list_elem_of_In, filter_In in Hin as [Hin _].
  now apply list_elem_of_In.
Qed.

Lemma filter_at_most_one {A} (p : A -> bool) (l : list A) :
  NoDup l ->
  (forall x y, x ∈ l -> y ∈ l -> p x = true -> p y = true -> x = y) ->
  (length (List.filter p l) <= 1)%nat.
Proof.
  induction l as [|a l IH]; intros Hnd Hone; [simpl; lia|].
  apply NoDup_cons in Hnd as [Ha Hnd]. cbn [List.filter].
  destruct (p a) eqn:Hp.
  - assert (Hnil : List.filter p l = []).
    { destruct (List.filter p l) as [|y rest] eqn:Hf; [reflexivity|].
      assert (Hy : In y (List.filter p l)) by (rewrite Hf; now left).
      apply filter_In in Hy as [Hy Hpy]. apply list_elem_of_In in Hy.
      exfalso. apply Ha.
      rewrite (Hone a y); [assumption|now left|now right|assumption|assumption]. }
    rewrite Hnil. simpl. lia.
  - apply IH; [assumption|]. intros x y Hx Hy. apply Hone; now right.
Qed.

Lemma NoDup_flat_map_cons {A B} (a : A) (rows : list (A * B) -> list B)
    (envs : list (list (A * B))) :
  NoDup envs -> (forall e, NoDup (rows e)) ->
  NoDup (flat_map (fun e => map (fun t => (a, t) :: e) (rows e)) envs).
Proof.
  intros Hnd Hrows. induction envs as [|e envs IH]; [constructor|].
  apply NoDup_cons in Hnd as [He Hnd]. cbn [flat_map].
  apply NoDup_app. split; [|split].
  - change (map ?f ?l) with (f <$> l). apply NoDup_fmap_2; [|apply Hrows].
    intros t1 t2 Heq. now injection Heq.
  - intros x Hx Hx'. change (map ?f ?l) with (f <$> l) in Hx.
    apply list_elem_of_fmap in Hx as (t & -> & _).
    apply list_elem_of_In, in_flat_map in Hx' as (e' & He' & Hx').
    apply in_map_iff in Hx' as (t' & Heq & _). injection Heq as _ <-.
    apply He. now apply list_elem_of_In.
  - now apply IH.
Qed.

Lemma flat_map_repeat_sublist {A B} (g : A -> list B) (l : list A) :
  (forall a, (length (g a) <= 1)%nat) ->
  flat_map (fun a => map (fun _ => a) (g a)) l `sublist_of` l.
Proof.
  intros Hg. induction l as [|a l IH]; [constructor|]. cbn [flat_map].
  specialize (Hg a). destruct (g a) as [|b [|b' rest]]; cbn [map app].
  - now apply sublist_cons.
  - now apply sublist_skip.
  - simpl in Hg. lia.
Qed.

Section Once.
Variable sort_value : Type.
Variable table : list GroupTagValue.
Variable c : candidate_row sort_value.
Hypothesis unique : unique_tag_rows table.

Lemma table_NoDup : NoDup table.
Proof. exact (NoDup_fmap_1 _ _ unique). Qed.

Lemma eval_joins_NoDup joins : forall envs,
  NoDup envs -> NoDup (eval_joins sort_value table c joins envs).
Proof.
  induction joins as [|j joins IH]; intros envs Hnd; [exact Hnd|].
  cbn [eval_joins]. apply IH.
  apply (NoDup_flat_map_cons (join_alias j)
           (fun e => List.filter
                       (fun t => Z.eqb (bound_group_id sort_value c e (join_previous_alias j))
                                   (tv_group_id t)) table)); [assumption|].
  intros e. apply NoDup_list_filter, table_NoDup.
Qed.

Lemma eval_laterals_empty lats : eval_laterals sort_value table c lats [] = [].
Proof. induction lats as [|[l key] lats IH]; [reflexivity|]. exact IH. Qed.

(** [LIMIT 1]: a lateral subquery extends every environment by the
    same row, or by none. *)
Lemma eval_laterals_prefix lats :
  exists o : option bindings,
    (forall envs,
       eval_laterals sort_value table c lats envs
       = match o with
         | Some pre => (fun e => pre ++ e) <$> envs
         | None => []
         end)
    /\ (forall pre, o = Some pre -> pre.*1 = rev (lateral_aliases lats)).
Proof.
  induction lats as [|[l key] lats (o & Hall & Hnames)].
  - exists (Some []). split.
    + intros envs. cbn [eval_laterals]. now rewrite list_fmap_id.
    + intros pre [= <-]. reflexivity.
  - cbn [eval_laterals].
    destruct (List.filter
                (fun t => Z.eqb (tv_group_id t) (c_group_id c)
                          && bool_decide (SStr (tv_key t) = key)) table) as [|t rest].
    + exists None. split; [|discriminate]. intros envs. cbn [take].
      assert (Hnil : flat_map (fun e : list (string * GroupTagValue) =>
                                 map (fun t => (lateral_alias l, t) :: e) []) envs = []).
      { induction envs; [reflexivity|assumption]. }
      rewrite Hnil. apply eval_laterals_empty.
    + destruct o as [pre|].
      * exists (Some (pre ++ [(lateral_alias l, t)])). split.
        { intros envs. rewrite Hall. cbn [take map].
          rewrite take_0. cbn [map].
          assert (Hmap : flat_map (fun e : list (string * GroupTagValue) =>
                                     [(lateral_alias l, t) :: e]) envs
                         = (fun e => (lateral_alias l, t) :: e) <$> envs).
          { induction envs as [|e envs IH]; [reflexivity|]. cbn [flat_map app].
            now rewrite IH. }
          rewrite Hmap, <- list_fmap_compose. apply list_fmap_ext.
          intros i e _. cbn. now rewrite <- app_assoc. }
        { intros pre' [= <-]. rewrite fmap_app, (Hnames pre eq_refl). reflexivity. }
      * exists None. split; [|discriminate]. intros envs. now rewrite Hall.
Qed.

Lemma bindings_determined (jb1 jb2 : bindings) :
  jb1.*1 = jb2.*1 -> NoDup jb1.*1 ->
  (forall a t1 t2, (a, t1) ∈ jb1 -> (a, t2) ∈ jb2 -> t1 = t2) ->
  jb1 = jb2.
Proof.
  revert jb2. induction jb1 as [|[a t] jb1 IH]; intros [|[a' t'] jb2] Hn Hnd Hsame;
    try discriminate Hn; [reflexivity|].
  rewrite !fmap_cons in Hn. cbn [fst] in Hn. injection Hn as <- Hn.
  rewrite fmap_cons in Hnd. apply NoDup_cons in Hnd as [Ha Hnd].
  f_equal.
  - f_equal. apply (Hsame a); now left.
  - apply IH; [assumption|assumption|].
    intros b t1 t2 H1 H2. apply (Hsame b); now right.
Qed.

Lemma joined_unique names (items : list (string * string)) jb1 jb2 :
  length names = length items -> NoDup names ->
  joined sort_value table c names jb1 -> joined sort_value table c names jb2 ->
  Forall (satisfied jb1) (zip names items) ->
  Forall (satisfied jb2) (zip names items) ->
  jb1 = jb2.
Proof.
  intros Hlen Hnd [Hn1 Hr1] [Hn2 Hr2] Hs1 Hs2.
  assert (Hnd1 : NoDup jb1.*1) by (rewrite Hn1; now apply NoDup_rev_stdlib).
  assert (Hnd2 : NoDup jb2.*1) by (rewrite Hn2; now apply NoDup_rev_stdlib).
  apply bindings_determined; [congruence | assumption |].
  intros a t1 t2 H1 H2.
  assert (Ha : a ∈ names).
  { apply list_elem_of_In, in_rev, list_elem_of_In. rewrite <- Hn1.
    apply list_elem_of_fmap. now exists (a, t1). }
  apply list_elem_of_lookup_1 in Ha as (i & Hi).
  destruct (lookup_lt_is_Some_2 items i) as (kv & Hkv).
  { rewrite <- Hlen. now apply lookup_lt_Some in Hi. }
  assert (Hzip : (a, kv) ∈ zip names items).
  { apply list_elem_of_lookup_2 with i. apply lookup_zip_with_Some.
    exists a, kv. auto. }
  rewrite Forall_forall in Hs1, Hs2.
  destruct (Hs1 _ Hzip) as (u1 & Hu1 & Hk1 & Hv1).
  destruct (Hs2 _ Hzip) as (u2 & Hu2 & Hk2 & Hv2).
  cbn [fst snd] in *.
  assert (u1 = t1) as ->.
  { apply (NoDup_fmap_elem fst jb1 (a, u1) (a, t1)) in Hnd1; try assumption; try reflexivity.
    now injection Hnd1. }
  assert (u2 = t2) as ->.
  { apply (NoDup_fmap_elem fst jb2 (a, u2) (a, t2)) in Hnd2; try assumption; try reflexivity.
    now injection Hnd2. }
  rewrite Forall_forall in Hr1, Hr2.
  destruct (Hr1 _ H1) as [Ht1 Hg1]. destruct (Hr2 _ H2) as [Ht2 Hg2]. cbn [snd] in *.
  apply (NoDup_fmap_elem tag_identity table); try assumption.
  unfold tag_identity. congruence.
Qed.

Lemma candidate_passes_once (items : list (string * string)) (keys : list string) :
  (length
     (List.filter
        (eval_where
           (combine (where_nodes 0 (length items))
              (pairs (flat_map (fun kv => [SStr kv.1; SStr kv.2]) items))))
        (eval_laterals sort_value table c
           (combine (lateral_nodes 0 (length keys)) (SStr <$> keys))
           (eval_joins sort_value table c
              (join_chain "candidates" 0 (length items)) [[]]))) <= 1)%nat.
Proof.
  rewrite pairs_flat_map. unfold where_nodes. rewrite combine_fmap.
  set (names := join_name <$> seq 0 (length items)).
  set (lats := combine (lateral_nodes 0 (length keys)) (SStr <$> keys)).
  assert (Hwp : ((fun x : nat * (string * string) =>
                    ({| where_alias := join_name x.1 |}, (SStr x.2.1, SStr x.2.2)))
                   <$> zip (seq 0 (length items)) items)
                = where_params (zip names items)).
  { unfold names. apply where_params_zip. }
  rewrite Hwp. clear Hwp.
  assert (Hlen : length names = length items).
  { unfold names. now rewrite length_fmap, length_seq. }
  assert (Hnd : NoDup names).
  { unfold names. apply (NoDup_fmap_2 _), NoDup_seq. }
  set (J := eval_joins sort_value table c (join_chain "candidates" 0 (length items)) [[]]).
  assert (Hjoin : forall e, e ∈ J <-> joined sort_value table c names e).
  { intros e. unfold J. rewrite eval_joins_chain.
    - split.
      + intros (e0 & bs & He0 & -> & Hj). apply list_elem_of_singleton in He0.
        subst e0. now rewrite app_nil_r.
      + intros Hj. exists [], e. split; [now apply list_elem_of_singleton|].
        split; [now rewrite app_nil_r | assumption].
    - intros e0 _. reflexivity. }
  assert (HJ : NoDup J).
  { unfold J. apply eval_joins_NoDup. apply NoDup_singleton. }
  assert (Hfresh : forall lb : bindings, lb.*1 = rev (lateral_aliases lats) ->
                   forall x, x ∈ zip names items -> x.1 ∉ lb.*1).
  { intros lb Hlb [a kv] Hx Hin. simpl in Hin. apply elem_of_zip_l in Hx.
    unfold names in Hx. apply list_elem_of_fmap in Hx as (i & -> & _).
    rewrite Hlb in Hin. apply list_elem_of_In in Hin. apply <- in_rev in Hin.
    apply list_elem_of_In in Hin.
    unfold lateral_aliases, lats in Hin.
    apply list_elem_of_fmap in Hin as ([l key] & Hl & Hin). simpl in Hl.
    apply elem_of_zip_l in Hin. unfold lateral_nodes in Hin.
    apply list_elem_of_fmap in Hin as (j & -> & _).
    simpl in Hl. now apply join_name_not_lateral in Hl. }
  destruct (eval_laterals_prefix lats) as (o & Hall & Hnames).
  rewrite Hall. destruct o as [pre|]; [|simpl; lia].
  specialize (Hnames pre eq_refl).
  apply filter_at_most_one.
  - apply NoDup_fmap_2; [|exact HJ]. intros e1 e2. apply app_inv_head.
  - intros x y Hx Hy Hpx Hpy.
    apply list_elem_of_fmap in Hx as (jb1 & -> & Hjb1).
    apply list_elem_of_fmap in Hy as (jb2 & -> & Hjb2).
    apply Hjoin in Hjb1, Hjb2. f_equal.
    rewrite eval_where_spec in Hpx, Hpy.
    + now apply (joined_unique names items).
    + now apply Hfresh.
    + destruct Hjb2 as [-> _]. now apply NoDup_rev_stdlib.
    + now apply Hfresh.
    + destruct Hjb1 as [-> _]. now apply NoDup_rev_stdlib.
Qed.
End Once.

Lemma NoDup_environment_groups (table : list GroupTagValue) (p : GroupTagValue -> bool) k v :
  unique_tag_rows table ->
  (forall t, p t = true -> tv_key t = k /\ tv_value t = v) ->
  NoDup (tv_group_id <$> List.filter p table).
Proof.
  unfold unique_tag_rows. intros Hu Hp.
  induction table as [|a table IH]; [constructor|].
  rewrite fmap_cons in Hu. apply NoDup_cons in Hu as [Ha Hu]. cbn [List.filter].
  destruct (p a) eqn:Hpa; [|now apply IH].
  rewrite fmap_cons. apply NoDup_cons. split; [|now apply IH].
  intros Hin. apply Ha. apply list_elem_of_fmap in Hin as (y & Hg & Hy).
  apply list_elem_of_In, filter_In in Hy as [Hy Hpy]. apply list_elem_of_In in Hy.
  apply list_elem_of_fmap. exists y. split; [|assumption].
  destruct (Hp a Hpa) as [Hk Hv]. destruct (Hp y Hpy) as [Hk' Hv'].
  unfold tag_identity. congruence.
Qed.

Section Distinct.
Variable sort_value : Type.
Variable sort_value_leb : sort_value -> sort_value -> bool.
Variable eval_sort_expression : string -> GroupTagValue -> sort_value.
Variable cfg : Settings.
Variable db : Database.
Variable project : Project.
Variable environment_id : Z.

Local Abbreviation run :=
  (filter_candidates sort_value sort_value_leb eval_sort_expression
     cfg db project environment_id).

Lemma filter_candidates_distinct kw m environment :
  is_postgres cfg = true ->
  tags kw = Some m ->
  m !! "environment" = Some (Specific environment) ->
  times_seen kw = None ->
  is_Some (assoc (sort_by kw) sort_strategies) ->
  candidates kw <> Some ∅ ->
  unique_tag_rows (GroupTagValue_objects db) ->
  exists ids, result (run kw) = Return ids /\ NoDup ids.
Proof.
  intros Hpg Hm He Hts [strategy Hs] Hids Hu.
  destruct (filter_candidates_result sort_value sort_value_leb eval_sort_expression
              cfg db project environment_id kw m environment strategy Hpg Hm He Hts Hs
              Hids)
    as (x & _ & Hres).
  eexists. split; [exact Hres|].
  set (m' := delete "environment" m).
  set (qs := values (extra_select (tag_queryset project (Specific environment) kw)
                       "sort_key" strategy) ["group_id"; "sort_key"]).
  set (s := synthesized cfg _ m').
  unfold selected_rows.
  rewrite (order_by_perm sort_value sort_value_leb).
  assert (Hlat : length (stmt_laterals s) = length (elements (presence_constraints m'))).
  { unfold s, synthesized, lateral_nodes. cbn [stmt_laterals].
    now rewrite length_fmap, length_seq. }
  rewrite Hlat, take_app_length', drop_app_length' by now rewrite length_fmap.
  unfold s, synthesized. cbn [stmt_joins stmt_laterals stmt_where].
  rewrite <- length_map_to_list.
  change (size (presence_constraints m'))
    with (length (elements (presence_constraints m'))).
  set (table := GroupTagValue_objects db).
  set (cands := candidate_rows sort_value eval_sort_expression table qs strategy).
  apply (sublist_NoDup _ (c_group_id <$> cands)).
  - unfold cands, candidate_rows. change (map ?f ?l) with (f <$> l).
    rewrite <- list_fmap_compose.
    change (c_group_id ∘ _) with tv_group_id.
    apply (NoDup_environment_groups table _ "environment" environment Hu).
    intros t Ht. unfold qs in Ht. rewrite matches_candidate_queryset in Ht.
    unfold environment_tag_row in Ht. rewrite !andb_true_iff in Ht.
    destruct Ht as [[[[[[[[[_ Hk] Hv] _] _] _] _] _] _] _].
    split; now apply String.eqb_eq.
  - apply fmap_sublist.
    apply (flat_map_repeat_sublist
             (fun c => List.filter _ (eval_laterals sort_value table c _ _))).
    intros c. now apply candidate_passes_once.
Qed.
End Distinct.

(** ** The properties *)

(** ** The primary path *)

(** X1. An issue is in the result of [_build_queryset] exactly when the
    call gets past its two short circuits and finds a sort clause, and
    the issue passes every filter the arguments ask for: it belongs to
    the project, its message or culprit contains the free text, its
    status is admitted, one bookmark row links it to the user in the
    project, its assignment is as asked, an active subscription of the
    user exists, its first release is the one asked for, the tag store
    matched it, it is inside every bound, and an event of the window
    belongs to it. *)
Theorem build_queryset_conjunction (cfg : Settings) (db : Database) (project : Project)
    (kw : Kwargs) (g : Group) :
  in_result db (_build_queryset cfg db project kw) g =
  continues cfg project kw
  && (bool_decide (group_project_id g = project_id project)
      && text_matches kw g
      && status_matches kw g
      && bookmark_matches db project kw g
      && assignment_matches db project kw g
      && subscription_matches db project kw g)
  && release_matches project kw g
  && tag_restriction cfg project kw g
  && range_matches kw g
  && active_at_matches kw g
  && times_seen_matches kw g
  && date_matches db project kw g.
Proof. apply build_queryset_matches. Qed.

Example conjunction_example :
  in_result example_database
    (_build_queryset postgres example_database example_project
       (with_unassigned (Some true) (with_query (Some "BOOM") defaults)))
    (issue 1 UNRESOLVED 10 20 3) = true
  /\ in_result example_database
       (_build_queryset postgres example_database example_project
          (with_unassigned (Some true) (with_query (Some "BOOM") defaults)))
       (issue 2 RESOLVED 15 30 5) = false.
Proof. split; vm_compute; reflexivity. Qed.

(** X2. Neither path returns an issue of another project: an issue
    in the result of [_build_queryset], and every id [find_candidates]
    returns, belongs to the project of the call. *)
Theorem results_stay_in_project (cfg : Settings) (db : Database) (project : Project)
    (kw : Kwargs) :
  (forall g, in_result db (_build_queryset cfg db project kw) g = true ->
             group_project_id g = project_id project)
  /\ (forall environment_id ids id,
        find_candidates db project kw environment_id = Return ids -> id ∈ ids ->
        exists g, g ∈ Group_objects db /\ group_id g = id
                  /\ group_project_id g = project_id project).
Proof.
  split.
  - intros g. apply build_queryset_in_project.
  - intros environment_id ids id. apply find_candidates_in_project.
Qed.

Lemma results_stay_in_project_witness :
  group_project_id (issue 1 UNRESOLVED 10 20 3) = project_id example_project
  /\ exists g, g ∈ Group_objects example_database /\ group_id g = 2
               /\ group_project_id g = project_id example_project.
Proof.
  destruct (results_stay_in_project postgres example_database example_project defaults)
    as [Hbuild Hfind].
  split.
  - apply Hbuild. vm_compute. reflexivity.
  - apply (Hfind 1 ({[1; 2; 4]} : gset Z) 2).
    + vm_compute. reflexivity.
    + vm_compute. reflexivity.
Defined.

(** X3. The only error of [_build_queryset] is the [KeyError] of the
    sort-clause lookup, and it is raised exactly when [sort_by] is not
    in the table of the engine and neither short circuit returned
    before the lookup: with [EMPTY] as [first_release], or with tags
    that match no issue, an unknown [sort_by] goes unnoticed. *)
Theorem build_queryset_key_error (cfg : Settings) (db : Database) (project : Project)
    (kw : Kwargs) :
  (forall e, _build_queryset cfg db project kw = Raise e -> e = KeyError)
  /\ (_build_queryset cfg db project kw = Raise KeyError
      <-> score_clause cfg kw = None
          /\ first_release kw <> Some EMPTY
          /\ tag_matches cfg project kw <> Some []).
Proof. apply build_queryset_raises. Qed.

Lemma build_queryset_key_error_witness :
  _build_queryset postgres example_database example_project
    (with_sort_by "unknown" defaults) = Raise KeyError
  /\ returned (_build_queryset postgres example_database example_project
                 (with_first_release (Some EMPTY) (with_sort_by "unknown" defaults)))
     = true.
Proof.
  split.
  - apply (build_queryset_key_error postgres example_database example_project
             (with_sort_by "unknown" defaults)).
    split; [reflexivity|]. split; discriminate.
  - reflexivity.
Defined.

(** X4. A queryset [_build_queryset] returns is a [Group] queryset
    that is not sliced and selects no values.  It is either empty by
    construction, returned by one of the short circuits without a
    [sort_value] column, or it carries exactly one extra column,
    [sort_value], with the sort clause of the engine. *)
Theorem build_queryset_annotates (cfg : Settings) (db : Database) (project : Project)
    (kw : Kwargs) (qs : QuerySet arg) :
  _build_queryset cfg db project kw = Return qs ->
  qs_model qs = MGroup /\ qs_high_mark qs = None /\ qs_values qs = []
  /\ qs_distinct qs = false
  /\ ((qs_empty qs = true /\ qs_extra_select qs = []
       /\ (first_release kw = Some EMPTY \/ tag_matches cfg project kw = Some []))
      \/ (qs_empty qs = false
          /\ exists clause, score_clause cfg kw = Some clause
                            /\ qs_extra_select qs = [("sort_value", clause)])).
Proof.
  intros Hqs.
  destruct (build_queryset_frame cfg db project kw qs Hqs) as [[Hf Hshort]|(clause & Hc & Hf)];
    unfold frame_of in Hf; injection Hf as -> -> -> -> -> ->.
  - repeat split. left. repeat split. exact Hshort.
  - repeat split. right. split; [reflexivity|]. now exists clause.
Qed.

Lemma build_queryset_annotates_witness :
  exists qs,
    _build_queryset postgres example_database example_project defaults = Return qs
    /\ qs_extra_select qs = [("sort_value", "last_seen")].
Proof.
  eexists. split; [reflexivity|].
  destruct (build_queryset_annotates postgres example_database example_project defaults
              _ eq_refl) as (_ & _ & _ & _ & [(Hempty & _)|(_ & clause & Hc & Hx)]).
  - discriminate Hempty.
  - rewrite Hx. injection Hc as <-. reflexivity.
Defined.

(** X5. Arguments that are falsy in Python are treated as absent: an
    empty free text, an empty release version and an empty [tags]
    mapping give the queryset of the call without the argument (the
    tag store is not asked).  A count of zero is not falsy for the
    tests [is not None]: [times_seen=0] keeps exactly the issues seen
    zero times, and a lower bound of zero is applied as a bound. *)
Theorem falsy_arguments (cfg : Settings) (db : Database) (project : Project)
    (kw : Kwargs) :
  _build_queryset cfg db project (with_query (Some "") kw)
    = _build_queryset cfg db project (with_query None kw)
  /\ _build_queryset cfg db project (with_first_release (Some (Version "")) kw)
     = _build_queryset cfg db project (with_first_release None kw)
  /\ _build_queryset cfg db project (with_tags (Some ∅) kw)
     = _build_queryset cfg db project (with_tags None kw)
  /\ (forall g,
        in_result db (_build_queryset cfg db project (with_times_seen (Some 0) kw)) g
        = Z.eqb (group_times_seen g) 0
          && in_result db (_build_queryset cfg db project (with_times_seen None kw)) g)
  /\ (forall g inclusive,
        in_result db
          (_build_queryset cfg db project (with_times_seen_lower (Some 0) inclusive kw)) g
        = (if inclusive then Z.leb 0 (group_times_seen g) else Z.ltb 0 (group_times_seen g))
          && in_result db
               (_build_queryset cfg db project (with_times_seen_lower None inclusive kw)) g).
Proof.
  split; [apply build_queryset_empty_query|].
  split; [apply build_queryset_empty_version|].
  split; [apply build_queryset_empty_tags|].
  split; [apply build_queryset_zero_times_seen|].
  intros g inclusive. rewrite !build_queryset_matches.
  frame with_times_seen_lower. unfold range_matches.
  cbn [age_from age_from_inclusive age_to age_to_inclusive
       last_seen_from last_seen_from_inclusive last_seen_to last_seen_to_inclusive
       times_seen_lower times_seen_lower_inclusive
       times_seen_upper times_seen_upper_inclusive with_times_seen_lower lower_bound].
  btauto.
Qed.

(** X6. With a date window, [_build_queryset] selects at most 1000
    issues, whatever the other filters are, when the ids of the issues
    are unique. *)
Theorem date_window_caps_result (cfg : Settings) (db : Database) (project : Project)
    (kw : Kwargs) :
  truthy (date_from kw) || truthy (date_to kw) = true ->
  NoDup (group_id <$> Group_objects db) ->
  (length (List.filter (in_result db (_build_queryset cfg db project kw))
             (Group_objects db)) <= 1000)%nat.
Proof. apply date_window_cap. Qed.

Lemma date_window_caps_result_witness :
  (length (List.filter
             (in_result example_database
                (_build_queryset postgres example_database example_project window_search))
             (Group_objects example_database)) <= 1000)%nat.
Proof.
  apply (date_window_caps_result postgres example_database example_project window_search).
  - reflexivity.
  - apply (bool_decide_unpack _). vm_compute. exact I.
Defined.

(** ** The candidate resolver *)

(** X7. [find_candidates] fails its assertion when [assigned_to] and
    [unassigned] are both given, raises [NotImplementedError] when a
    [first_release] is given, and otherwise returns the set of the ids
    of the issues of the project that pass the free text, status,
    bookmark, assignment, subscription and [active_at] filters.  The
    assertion is checked first. *)
Theorem find_candidates_result (db : Database) (project : Project) (kw : Kwargs)
    (environment_id : Z) :
  find_candidates db project kw environment_id =
  if is_not_None (assigned_to kw) && is_not_None (unassigned kw)
  then Raise AssertionError
  else if is_not_None (first_release kw) then Raise NotImplementedError
  else Return (list_to_set
                 (group_id <$>
                    List.filter
                      (fun g => bool_decide (group_project_id g = project_id project)
                                && text_matches kw g
                                && status_matches kw g
                                && bookmark_matches db project kw g
                                && assignment_matches db project kw g
                                && subscription_matches db project kw g
                                && active_at_matches kw g)
                      (Group_objects db))).
Proof. apply find_candidates_cases. Qed.

Example find_candidates_example :
  find_candidates example_database example_project
    (with_unassigned (Some false) defaults) 1 = Return {[2]}.
Proof. vm_compute. reflexivity. Qed.

(** X8. On the arguments both paths accept, the candidate resolver
    is the primary path: when [assigned_to] and [unassigned] are not
    both given and no [first_release] is given, [find_candidates]
    returns the ids of the issues [_build_queryset] selects for the
    same arguments, with every other argument at its default. *)
Theorem find_candidates_agrees_with_build_queryset (cfg : Settings) (db : Database)
    (project : Project) (kw : Kwargs) (environment_id : Z) :
  assigned_to kw = None \/ unassigned kw = None ->
  first_release kw = None ->
  is_Some (score_clause cfg defaults) ->
  find_candidates db project kw environment_id
  = Return (list_to_set
              (group_id <$>
                 List.filter
                   (in_result db (_build_queryset cfg db project (candidate_arguments kw)))
                   (Group_objects db))).
Proof. apply find_candidates_agrees. Qed.

Lemma find_candidates_agrees_with_build_queryset_witness :
  find_candidates example_database example_project
    (with_unassigned (Some false) defaults) 1
  = Return (list_to_set
              (group_id <$>
                 List.filter
                   (in_result example_database
                      (_build_queryset postgres example_database example_project
                         (candidate_arguments (with_unassigned (Some false) defaults))))
                   (Group_objects example_database))).
Proof.
  apply (find_candidates_agrees_with_build_queryset postgres example_database
           example_project (with_unassigned (Some false) defaults) 1).
  - left. reflexivity.
  - reflexivity.
  - exists "last_seen". reflexivity.
Defined.

(** ** The tag intersection, in general *)

Section TagIntersectionInGeneral.
Variable sort_value : Type.
Variable sort_value_leb : sort_value -> sort_value -> bool.
Variable eval_sort_expression : string -> GroupTagValue -> sort_value.
Variable cfg : Settings.
Variable db : Database.
Variable project : Project.
Variable environment_id : Z.

Local Abbreviation run :=
  (filter_candidates sort_value sort_value_leb eval_sort_expression
     cfg db project environment_id).



End TagIntersectionInGeneral.

(** The search of the examples, for the issues seen in the
    environment from time 20 on. *)
Definition recent_search : Kwargs := with_last_seen_from (Some (at_ 20)) true example_search.


Example recent_search_result :
  result (filter_candidates Z Z.leb example_sort_value postgres example_database
            example_project 1 recent_search) = Return [2].
Proof. vm_compute. reflexivity. Qed.



(** A tag store that holds the row of a release twice returns the
    group twice. *)
Definition duplicated_rows : Database :=
  {| Group_objects := []; Event_objects := [];
     GroupTagValue_objects :=
       [tag_row 1 "environment" "prod" 10; tag_row 1 "release" "1.0" 1;
        tag_row 1 "release" "1.0" 1];
     GroupBookmark_objects := []; GroupAssignee_objects := [];
     GroupSubscription_objects := [] |}.

Example duplicated_rows_result :
  result (filter_candidates Z Z.leb example_sort_value postgres duplicated_rows
            example_project 1
            (with_tags (Some (<["environment" := Specific "prod"]>
                                (<["release" := Specific "1.0"]> ∅))) defaults))
  = Return [1; 1].
Proof. vm_compute. reflexivity. Qed.

(** ** [add_scalar_filter] *)

(** X12. The key [add_scalar_filter] formats is read back by the ORM
    as the field and the comparison it was formatted from: for a field
    name without a double underscore that does not end in an
    underscore, and the operators [gt] and [lt], the key parses to the
    field with the lookup [gte] or [lte] when the bound is inclusive,
    [gt] or [lt] when it is not, and the filter keeps the rows whose
    column compares so with the value, on tag store rows and on issues
    alike. *)
Theorem add_scalar_filter_round_trip (field operator : string) (inclusive : bool) :
  split_lookup field = [field] -> ends_with_underscore field = false ->
  operator = "gt" \/ operator = "lt" ->
  parse_lookup (field +:+ "__" +:+ operator +:+ (if inclusive then "e" else ""))
    = ([field], comparison_lookup operator inclusive)
  /\ (forall (qs : QuerySet value) t v,
        matches tagvalue_kwargs (add_scalar_filter qs field operator (VScalar v) inclusive) t
        = matches tagvalue_kwargs qs t
          && match tagvalue_column t field with
             | Some column =>
                 apply_lookup (comparison_lookup operator inclusive) column (VScalar v)
             | None => false
             end)
  /\ (forall db (qs : QuerySet arg) g v column,
        group_column g field = Some column ->
        selects db (add_scalar_filter qs field operator (plain v) inclusive) g
        = selects db qs g
          && apply_lookup (comparison_lookup operator inclusive) column (VScalar v)).
Proof.
  intros Hone Hend Hop. split; [now apply add_scalar_filter_parses|]. split.
  - intros qs t v. now apply tagvalue_add_scalar_filter.
  - intros db qs g v column. now apply group_add_scalar_filter.
Qed.

Lemma add_scalar_filter_round_trip_witness :
  parse_lookup ("times_seen" +:+ "__" +:+ "lt" +:+ "e") = (["times_seen"], LLte).
Proof.
  apply (add_scalar_filter_round_trip "times_seen" "lt" true).
  - reflexivity.
  - reflexivity.
  - right. reflexivity.
Defined.

(** A field name that ends in an underscore is not read back. *)
Example trailing_underscore_breaks_key :
  parse_lookup ("seen_" +:+ "__" +:+ "gt" +:+ "e") = (["seen"; "_gte"], LExact).
Proof. reflexivity. Qed.

(** ** The entry points *)

Section EntryPoints.
Variable cfg : Settings.
Variable db : Database.
Variable Cursor : Type.
Variable Page : Type.
Variable get_result : pagination Cursor -> outcome Page.

Local Abbreviation search := (DjangoSearchBackend_query cfg db Cursor Page get_result).

(** X13. [DjangoSearchBackend.query] with a [sort_by] that the sort
    clause table of the engine does not know raises [KeyError] without
    calling the paginator, unless [_build_queryset] returned early:
    with [EMPTY] as [first_release] the paginator is called, with the
    empty queryset, whatever [sort_by] is. *)
Theorem query_unknown_sort_by_is_key_error project count_hits options kw limit cursor :
  score_clause cfg kw = None ->
  (first_release kw <> Some EMPTY -> tag_matches cfg project kw <> Some [] ->
   search project count_hits options kw limit cursor = Raise KeyError)
  /\ (first_release kw = Some EMPTY ->
      exists p,
        search project count_hits options kw limit cursor = get_result p
        /\ paginated p = none (ownership_filters project kw)
        /\ forall g, selects db (paginated p) g = false).
Proof. apply query_unknown_sort_by. Qed.

(** X14. When [_build_queryset] returns, [query] calls the paginator
    once, with the queryset [_build_queryset] built, ordered by the
    key the paginator is given; the key is a descending one; a
    [DateTimePaginator] is used exactly when the key is a datetime
    column of the issue; the key [-sort_value] is only used on a
    queryset that is empty by construction or defines [sort_value];
    the limit is 100 only when the caller gave none. *)
Theorem query_paginates_build_queryset project count_hits options kw limit cursor qs :
  _build_queryset cfg db project kw = Return qs ->
  exists p,
    search project count_hits options kw limit cursor = get_result p
    /\ paginated p = qs
    /\ order_by p = paginator_key p
    /\ (exists column, paginator_key p = "-" +:+ column)
    /\ (paginator_cls p = DateTimePaginator
        <-> forall g, is_datetime (group_column g (sort_column (paginator_key p))) = true)
    /\ (paginator_key p = "-sort_value" ->
        qs_empty qs = true \/ is_Some (assoc "sort_value" (qs_extra_select qs)))
    /\ page_limit p = default (Some 100) limit
    /\ paginator_options p = default ∅ options.
Proof. apply query_paginates. Qed.
End EntryPoints.

Lemma query_unknown_sort_by_is_key_error_witness :
  DjangoSearchBackend_query postgres example_database unit string
    (fun p => Return (paginator_key p)) example_project false None
    (with_sort_by "unknown" defaults) None None
  = Raise KeyError.
Proof.
  apply (query_unknown_sort_by_is_key_error postgres example_database unit string
           (fun p => Return (paginator_key p)) example_project false None
           (with_sort_by "unknown" defaults) None None).
  - reflexivity.
  - discriminate.
  - discriminate.
Defined.

Lemma query_paginates_build_queryset_witness :
  exists p : pagination unit,
    DjangoSearchBackend_query postgres example_database unit string
      (fun p => Return (paginator_key p)) example_project false None defaults None None
    = Return (paginator_key p)
    /\ paginator_cls p = DateTimePaginator
    /\ page_limit p = Some 100.
Proof.
  destruct (query_paginates_build_queryset postgres example_database unit string
              (fun p => Return (paginator_key p)) example_project false None defaults
              None None _ eq_refl) as (p & Hrun & _ & _ & _ & Hcls & _ & Hlimit & _).
  exists p. split; [exact Hrun|]. split; [|exact Hlimit].
  apply Hcls. intros g.
  injection Hrun as <-. reflexivity.
Defined.

(** X15. [EnvironmentDjangoSearchBackend.query] never returns: it
    fails its assertion when no [environment_id] is given and raises
    [NotImplementedError] for every other call, with or without a date
    window. *)
Theorem environment_query_is_not_implemented (Page : Type) (project : Project)
    (kw : Kwargs) :
  returned (@EnvironmentDjangoSearchBackend_query Page project kw) = false
  /\ (EnvironmentDjangoSearchBackend_query project kw = @Raise Page AssertionError
      <-> environment_id kw = None)
  /\ (EnvironmentDjangoSearchBackend_query project kw = @Raise Page NotImplementedError
      <-> environment_id kw <> None).
Proof. apply environment_query_never_returns. Qed.

(** ** The shape of the synthesized statement *)

Lemma join_chain_lookup n : forall current i k j,
  join_chain current i n !! k = Some j ->
  join_alias j = join_name (i + k)
  /\ join_previous_alias j = match k with
                             | O => current
                             | S k' => join_name (i + k')
                             end.
Proof.
  induction n as [|n IH]; intros current i k j Hj; [discriminate Hj|].
  cbn [join_chain] in Hj. destruct k as [|k].
  - injection Hj as <-. cbn [join_alias join_previous_alias]. now rewrite Nat.add_0_r.
  - cbn [lookup list_lookup] in Hj. apply IH in Hj as [Ha Hp]. split.
    + rewrite Ha. f_equal. lia.
    + rewrite Hp. destruct k as [|k']; [now rewrite Nat.add_0_r|]. f_equal. lia.
Qed.

Lemma length_join_chain current i n : length (join_chain current i n) = n.
Proof. revert current i. induction n as [|n IH]; intros; cbn [join_chain length]; auto. Qed.

Lemma length_pair_parameters (items : list (string * string)) :
  length (flat_map (fun kv => [SStr kv.1; SStr kv.2]) items) = (2 * length items)%nat.
Proof. induction items as [|kv items IH]; simpl; lia. Qed.

Section Shape.
Variable sort_value : Type.
Variable sort_value_leb : sort_value -> sort_value -> bool.
Variable eval_sort_expression : string -> GroupTagValue -> sort_value.
Variable cfg : Settings.
Variable db : Database.
Variable project : Project.
Variable environment_id : Z.

Local Abbreviation run :=
  (filter_candidates sort_value sort_value_leb eval_sort_expression
     cfg db project environment_id).

End Shape.


